(** * Ralph loop manager: loop state machine and progress analysis

    A shallow embedding of [RalphLoopManager] (loop state, iteration
    processing, history log, progress analysis) and of the request
    handler [handleRalphLoop] that validates its arguments before it
    starts a loop.

    Conventions of the embedding.
    - A JavaScript string is the list of its UTF-16 code units.
    - Integer-valued JavaScript numbers (iteration counters, lengths,
      occurrence counts, clock readings) are [Z]; this is exact below
      2^53, far above anything a loop started by [startLoop] can
      reach.  A statement about a counter that starts anywhere carries
      that bound.
    - Fractional JavaScript numbers are IEEE 754 binary64 values, taken
      from the library's [SpecFloat] (round to nearest, ties to even).
    - The manager object, the two files it owns, the clock and the
      outcome of file-system calls form a [World]; methods are
      computations in a state monad over it.  The snapshot and the
      history log are two files there: the embedding is that of a
      manager constructed with a state path in which "-state.json"
      occurs, as in the default path, so that its history path is
      another path ([Lifecycle.separateFiles]). *)

From Stdlib Require Import ZArith NArith List Bool Lia String Ascii.
From Stdlib Require Import Permutation.
From Stdlib Require Import DecimalString.
From Stdlib Require Import Floats.SpecFloat.
Import ListNotations.

Open Scope Z_scope.

(** ** JavaScript strings *)

Definition char := N.
Definition jsstring := list char.

Module JsString.

Definition t := jsstring.

(** A literal of the source, code unit by code unit. *)
Definition lit (s : string) : t := map N_of_ascii (list_ascii_of_string s).

Fixpoint eqb (a b : t) : bool :=
  match a, b with
  | [], [] => true
  | x :: a', y :: b' => N.eqb x y && eqb a' b'
  | _, _ => false
  end.

(** [startsWith p s]: [p] is a prefix of [s]. *)
Fixpoint startsWith (p s : t) : bool :=
  match p, s with
  | [], _ => true
  | x :: p', y :: s' => N.eqb x y && startsWith p' s'
  | _ :: _, [] => false
  end.

(** WhiteSpace and LineTerminator code units of ECMAScript: what
    [String.prototype.trim] strips and what [\s] matches. *)
Definition isWhiteSpace (c : char) : bool :=
  existsb (N.eqb c)
    [9; 10; 11; 12; 13; 32; 160; 5760; 8232; 8233; 8239; 8287; 12288; 65279]%N
  || (8192 <=? c)%N && (c <=? 8202)%N.

Fixpoint trimStart (s : t) : t :=
  match s with
  | c :: s' => if isWhiteSpace c then trimStart s' else s
  | [] => []
  end.

Definition trimEnd (s : t) : t := rev (trimStart (rev s)).

Definition trim (s : t) : t := trimEnd (trimStart s).

(** [s.substring(0, n)] for an integer [0 <= n]. *)
Definition substring0 (n : Z) (s : t) : t := firstn (Z.to_nat n) s.

(** [parts.join(sep)]. *)
Fixpoint join (sep : t) (parts : list t) : t :=
  match parts with
  | [] => []
  | [p] => p
  | p :: rest => p ++ sep ++ join sep rest
  end.

(** Decimal rendering of an integer-valued number, as template
    literals produce it (JavaScript switches to exponent notation
    only from 10^21 on). *)
Definition ofZ (z : Z) : t := lit (NilZero.string_of_int (Z.to_int z)).

Definition isDigit (c : char) : bool := (48 <=? c)%N && (c <=? 57)%N.

(** [\w]: ASCII letters, digits and underscore. *)
Definition isWord (c : char) : bool :=
  isDigit c || (65 <=? c)%N && (c <=? 90)%N
  || (97 <=? c)%N && (c <=? 122)%N || N.eqb c 95.

End JsString.

Notation "'js' s" := (JsString.lit s%string) (at level 1, s at level 0, only parsing).

(** ** The two regular expressions of the source *)

Module Regex.
Import JsString.

Definition openTag : jsstring := lit "<promise>".
Definition closeTag : jsstring := lit "</promise>".

(** The lazy [(.*?)] followed by [<\/promise>]: the shortest prefix
    of [s] after which the closing tag stands (the [s] flag lets [.]
    match every code unit). *)
Fixpoint lazyUntilClose (s : jsstring) : option jsstring :=
  if startsWith closeTag s then Some []
  else match s with
       | [] => None
       | c :: s' => option_map (cons c) (lazyUntilClose s')
       end.

(** The match of the pattern anchored at the start of [s]: group 1. *)
Definition promiseAt (s : jsstring) : option jsstring :=
  if startsWith openTag s
  then lazyUntilClose (skipn (List.length openTag) s)
  else None.

(** [s.match(/<promise>(.*?)<\/promise>/s)]: the leftmost start at
    which the pattern matches; the result is capture group 1. *)
Fixpoint matchPromise (s : jsstring) : option jsstring :=
  match promiseAt s with
  | Some inner => Some inner
  | None => match s with
            | [] => None
            | _ :: s' => matchPromise s'
            end
  end.

(** Longest run of digits at the start of [s]: its length. *)
Fixpoint digitRun (s : jsstring) : nat :=
  match s with
  | c :: s' => if isDigit c then S (digitRun s') else O
  | [] => O
  end.

(** Longest run of non-whitespace at the start of [s]. *)
Fixpoint nonSpaceRun (s : jsstring) : nat :=
  match s with
  | c :: s' => if isWhiteSpace c then O else S (nonSpaceRun s')
  | [] => O
  end.

(** [\b] between [prev] (the code unit before the position, if any)
    and [next] (the one at the position, if any). *)
Definition wordBoundary (prev next : option char) : bool :=
  xorb (match prev with Some c => isWord c | None => false end)
       (match next with Some c => isWord c | None => false end).

(** First alternative, [\/[^\s]+]. *)
Definition altPath (s : jsstring) : option nat :=
  match s with
  | c :: s' =>
      if N.eqb c 47 then
        match nonSpaceRun s' with
        | O => None
        | S k => Some (S (S k))
        end
      else None
  | [] => None
  end.

(** Second alternative, [\d+:\d+].  Backtracking out of the first
    greedy [\d+] cannot help: a shorter run is followed by a digit,
    not by the colon. *)
Definition altLineCol (s : jsstring) : option nat :=
  match digitRun s with
  | O => None
  | S k =>
      match skipn (S k) s with
      | c :: s' =>
          if N.eqb c 58 then
            match digitRun s' with
            | O => None
            | S j => Some (S k + 1 + S j)%nat
            end
          else None
      | [] => None
      end
  end.

(** Third alternative, [\b\d+\b].  A shorter run than the greedy one
    ends between two digits, where there is no word boundary. *)
Definition altInteger (prev : option char) (s : jsstring) : option nat :=
  if wordBoundary prev (hd_error s) then
    match digitRun s with
    | O => None
    | S k =>
        if wordBoundary (Some 48%N) (hd_error (skipn (S k) s))
        then Some (S k) else None
    end
  else None.

(** Length of the match of [/\/[^\s]+|\d+:\d+|\b\d+\b/] anchored at
    the start of [s]; alternatives are tried left to right. *)
Definition errorTokenAt (prev : option char) (s : jsstring) : option nat :=
  match altPath s with
  | Some n => Some n
  | None =>
      match altLineCol s with
      | Some n => Some n
      | None => altInteger prev s
      end
  end.

Definition placeholder : jsstring := lit "<n>".

(** [s.replace(/.../g, "<n>")]: scan left to right; [skip] code
    units of the last match are still to be consumed. *)
Fixpoint replaceTokens (prev : option char) (skip : nat) (s : jsstring)
  : jsstring :=
  match s with
  | [] => []
  | c :: s' =>
      match skip with
      | S k => replaceTokens (Some c) k s'
      | O =>
          match errorTokenAt prev s with
          | Some (S k) => placeholder ++ replaceTokens (Some c) k s'
          | _ => c :: replaceTokens (Some c) O s'
          end
      end
  end.

(** The normalization applied to every error message. *)
Definition normalizeError (error : jsstring) : jsstring :=
  trim (replaceTokens None O error).

End Regex.

Import JsString Regex.

(** ** JavaScript numbers that are not integers: binary64 *)

Module Num.

Definition prec : Z := 53.
Definition emax : Z := 1024.

Definition number := spec_float.

(** The double nearest to an integer (exact below 2^53). *)
Definition ofZ (z : Z) : number := binary_normalize prec emax z 0 false.

Definition zero : number := S754_zero false.
Definition one : number := ofZ 1.

(** The literals [0.5] and [0.1] of the source. *)
Definition half : number := SFdiv prec emax (ofZ 1) (ofZ 2).
Definition tenth : number := SFdiv prec emax (ofZ 1) (ofZ 10).

Definition mul : number -> number -> number := SFmul prec emax.
Definition div : number -> number -> number := SFdiv prec emax.
Definition add : number -> number -> number := SFadd prec emax.
Definition sub : number -> number -> number := SFsub prec emax.
Definition abs : number -> number := SFabs.
Definition ltb : number -> number -> bool := SFltb.
Definition leb : number -> number -> bool := SFleb.
Definition eqb : number -> number -> bool := SFeqb.

(** [Math.ceil]. *)
Definition ceil (x : number) : number :=
  match x with
  | S754_finite s m e =>
      if 0 <=? e then x
      else
        let d := 2 ^ (- e) in
        let q := Z.pos m / d in
        if s then binary_normalize prec emax (- q) 0 true
        else binary_normalize prec emax
               (if Z.pos m mod d =? 0 then q else q + 1) 0 false
  | _ => x
  end.

(** [Number.isInteger]. *)
Definition isInteger (x : number) : bool :=
  match x with
  | S754_zero _ => true
  | S754_finite _ m e => (0 <=? e) || (Z.pos m mod 2 ^ (- e) =? 0)
  | _ => false
  end.

(** The integer an integer-valued double stands for. *)
Definition toZ (x : number) : Z :=
  match x with
  | S754_finite s m e =>
      let v := if 0 <=? e then Z.pos m * 2 ^ e else Z.pos m / 2 ^ (- e) in
      if s then - v else v
  | _ => 0
  end.

End Num.

(** ** Data model *)

Record ExternalToolResult := {
  tool_name : jsstring;
  tool_command : jsstring;
  tool_exitCode : Z;
  tool_output : jsstring;
  tool_duration : Z
}.

(** [RalphIterationHistoryEntry]; an optional field that is absent is
    [None].  [timestamp] is the instant whose ISO rendering the source
    stores. *)
Record RalphIterationHistoryEntry := {
  entry_iteration : Z;
  timestamp : Z;
  duration : option Z;
  output : jsstring;
  completionDetected : bool;
  filesModified : option (list jsstring);
  commandsRun : option (list jsstring);
  errors : option (list jsstring);
  gitCommit : option jsstring;
  externalToolsRun : option (list ExternalToolResult)
}.

Record RalphLoopState := {
  active : bool;
  iteration : Z;
  maxIterations : Z;
  completionPromise : option jsstring;
  startedAt : Z;
  prompt : jsstring;
  history : list RalphIterationHistoryEntry;
  gitEnabled : bool;
  autoCommit : bool
}.

Record RalphProgressMetrics := {
  stagnationDetected : bool;
  stagnationReason : option jsstring;
  convergenceRate : Num.number;
  repeatedErrors : list jsstring;
  suggestedActions : list jsstring;
  estimatedIterationsRemaining : option Num.number
}.

Record RalphIterationResult := {
  completed : bool;
  result_iteration : Z;
  reason : jsstring;
  nextPrompt : option jsstring;
  result_completionDetected : option bool;
  progress : option RalphProgressMetrics
}.

(** The [metadata] argument of [processIteration]. *)
Record Metadata := {
  md_filesModified : option (list jsstring);
  md_commandsRun : option (list jsstring);
  md_errors : option (list jsstring);
  md_gitCommit : option jsstring;
  md_externalToolsRun : option (list ExternalToolResult)
}.

(** ** Progress analysis *)

(** [Map<string, number>]: keys in insertion order, as [entries()]
    yields them. *)
Module StrMap.

Definition t := list (jsstring * Z).

Fixpoint get (k : jsstring) (m : t) : option Z :=
  match m with
  | [] => None
  | (k', v) :: m' => if JsString.eqb k k' then Some v else get k m'
  end.

(** [set] keeps the position of a key that is present and appends a
    new key at the end. *)
Fixpoint set (k : jsstring) (v : Z) (m : t) : t :=
  match m with
  | [] => [(k, v)]
  | (k', v') :: m' =>
      if JsString.eqb k k' then (k', v) :: m' else (k', v') :: set k v m'
  end.

Definition size (m : t) : Z := Z.of_nat (List.length m).

End StrMap.

Module Analyzer.

(** The local variables of [analyzeProgress] that its loop updates. *)
Record Locals := {
  errorFrequency : StrMap.t;
  totalErrors : Z;
  totalOutputLength : Z;
  completionCount : Z;
  recentLengths : list Z;
  recentCompletions : list bool
}.

Definition locals0 : Locals :=
  {| errorFrequency := []; totalErrors := 0; totalOutputLength := 0;
     completionCount := 0; recentLengths := []; recentCompletions := [] |}.

Definition strLength (s : jsstring) : Z := Z.of_nat (List.length s).

(** [entry.errors || []]. *)
Definition errorsOf (entry : RalphIterationHistoryEntry) : list jsstring :=
  match errors entry with Some es => es | None => [] end.

(** Body of [for (const error of errors)]. *)
Definition countError (freq_total : StrMap.t * Z) (error : jsstring)
  : StrMap.t * Z :=
  let '(freq, total) := freq_total in
  let normalized := normalizeError error in
  let count :=
    match StrMap.get normalized freq with Some c => c | None => 0 end + 1 in
  (StrMap.set normalized count freq, total + 1).

(** Body of [for (let i = 0; i < history.length; i++)]. *)
Definition visit (len i : Z) (entry : RalphIterationHistoryEntry)
           (l : Locals) : Locals :=
  let '(freq, total) :=
    fold_left countError (errorsOf entry)
              (errorFrequency l, totalErrors l) in
  let recent := len - 3 <=? i in
  {| errorFrequency := freq;
     totalErrors := total;
     totalOutputLength := totalOutputLength l + strLength (output entry);
     completionCount :=
       if completionDetected entry then completionCount l + 1
       else completionCount l;
     recentLengths :=
       if recent then recentLengths l ++ [strLength (output entry)]
       else recentLengths l;
     recentCompletions :=
       if recent then recentCompletions l ++ [completionDetected entry]
       else recentCompletions l |}.

Fixpoint loop (len i : Z) (rest : list RalphIterationHistoryEntry)
           (l : Locals) : Locals :=
  match rest with
  | [] => l
  | entry :: rest' => loop len (i + 1) rest' (visit len i entry l)
  end.

(** [Math.abs(len - avgLength) < len * 0.1]. *)
Definition similarLength (avgLength len : Z) : bool :=
  Num.ltb (Num.abs (Num.sub (Num.ofZ len) (Num.ofZ avgLength)))
          (Num.mul (Num.ofZ len) Num.tenth).

Definition reasonRepeated (repeated : list jsstring) : jsstring :=
  js "Same error(s) repeating across iterations: "
  ++ JsString.join (js ", ") (firstn 2 repeated).

Definition reasonSimilar : jsstring :=
  js "Output length and structure similar across last 3 iterations - may be stuck in loop".

Definition actionsRepeated : list jsstring :=
  [ js "Consider a different approach - current strategy is not working";
    js "Review the repeated error patterns and try addressing them differently" ].

Definition actionsSimilar : list jsstring :=
  [ js "Try breaking down the task into smaller sub-tasks";
    js "Consider reviewing the prompt for clarity" ].

Definition metrics0 : RalphProgressMetrics :=
  {| stagnationDetected := false; stagnationReason := None;
     convergenceRate := Num.zero; repeatedErrors := [];
     suggestedActions := []; estimatedIterationsRemaining := None |}.

(** "Find errors that repeat 3+ times". *)
Definition findRepeated (freq : StrMap.t) : list jsstring :=
  map fst (filter (fun kv => 3 <=? snd kv) freq).

(** "Detect stagnation - same error repeating". *)
Definition flagRepeated (m : RalphProgressMetrics) : RalphProgressMetrics :=
  match repeatedErrors m with
  | [] => m
  | _ :: _ =>
      {| stagnationDetected := true;
         stagnationReason := Some (reasonRepeated (repeatedErrors m));
         convergenceRate := convergenceRate m;
         repeatedErrors := repeatedErrors m;
         suggestedActions := suggestedActions m ++ actionsRepeated;
         estimatedIterationsRemaining := estimatedIterationsRemaining m |}
  end.

(** "Check if last 3 iterations had similar output length and no
    completion". *)
Definition flagSimilar (l : Locals) (m : RalphProgressMetrics)
  : RalphProgressMetrics :=
  if (List.length (recentLengths l) =? 3)%nat then
    let avgLength := nth 0 (recentLengths l) 0 in
    let allSameLength := forallb (similarLength avgLength) (recentLengths l) in
    if allSameLength && forallb negb (recentCompletions l) then
      {| stagnationDetected := true;
         stagnationReason := Some reasonSimilar;
         convergenceRate := convergenceRate m;
         repeatedErrors := repeatedErrors m;
         suggestedActions := suggestedActions m ++ actionsSimilar;
         estimatedIterationsRemaining := estimatedIterationsRemaining m |}
    else m
  else m.

(** "Calculate convergence rate". *)
Definition rate (uniqueErrors total : Z) : Num.number :=
  if 0 <? total
  then Num.sub Num.one (Num.div (Num.ofZ uniqueErrors) (Num.ofZ total))
  else Num.half.

(** "Estimate iterations remaining". *)
Definition estimate (convergence : Num.number) (len : Z)
  : option Num.number :=
  if Num.ltb Num.zero convergence then
    let progressPerIteration := Num.div convergence (Num.ofZ len) in
    if Num.ltb Num.zero progressPerIteration then
      Some (Num.ceil (Num.div (Num.sub Num.one convergence)
                              progressPerIteration))
    else None
  else None.

(** [analyzeProgress] on the history of the current state. *)
Definition analyze (history : list RalphIterationHistoryEntry)
  : RalphProgressMetrics :=
  let len := Z.of_nat (List.length history) in
  if len <? 3 then metrics0
  else
    let l := loop len 0 history locals0 in
    let m1 :=
      {| stagnationDetected := false; stagnationReason := None;
         convergenceRate := Num.zero;
         repeatedErrors := findRepeated (errorFrequency l);
         suggestedActions := []; estimatedIterationsRemaining := None |} in
    let m2 := flagSimilar l (flagRepeated m1) in
    let convergence := rate (StrMap.size (errorFrequency l)) (totalErrors l) in
    {| stagnationDetected := stagnationDetected m2;
       stagnationReason := stagnationReason m2;
       convergenceRate := convergence;
       repeatedErrors := repeatedErrors m2;
       suggestedActions := suggestedActions m2;
       estimatedIterationsRemaining := estimate convergence len |}.

End Analyzer.

(** ** The world the manager runs in *)

Inductive FsOp := OpWriteState | OpAppendHistory | OpUnlinkState.

(** A file-system call the manager made, with its argument and whether
    it succeeded; [fs_log] keeps them in the order they were made. *)
Inductive FsEvent :=
| WroteState (content : option RalphLoopState) (ok : bool)
| AppendedHistory (line : RalphIterationHistoryEntry) (ok : bool)
| UnlinkedState (ok : bool).

Record World := {
  (** fields of the [RalphLoopManager] object *)
  state : option RalphLoopState;
  lastIterationStartTime : option Z;
  (** the snapshot file: absent, or the serialized value of [state] *)
  stateFile : option (option RalphLoopState);
  (** the history file, one serialized entry per line *)
  historyFile : list RalphIterationHistoryEntry;
  fs_log : list FsEvent;
  (** the [k]-th reading of the clock, and how many were taken *)
  clock : nat -> Z;
  ticks : nat;
  (** whether the [k]-th file-system call, of the given kind, throws *)
  throws : FsOp -> nat -> bool;
  fs_calls : nat
}.

Definition IO (A : Type) : Type := World -> A * World.

Definition ret {A} (a : A) : IO A := fun w => (a, w).
Definition bind {A B} (c : IO A) (k : A -> IO B) : IO B :=
  fun w => let '(a, w') := c w in k a w'.

Notation "x <- c ;; k" := (bind c (fun x => k))
  (at level 61, c at next level, right associativity).
Notation "c ;; k" := (bind c (fun _ => k))
  (at level 61, right associativity).

Definition run {A} (c : IO A) (w : World) : World := snd (c w).
Definition result {A} (c : IO A) (w : World) : A := fst (c w).

Module Manager.

Definition getField {A} (f : World -> A) : IO A := fun w => (f w, w).

Definition setState (s : option RalphLoopState) : IO unit := fun w =>
  (tt, {| state := s; lastIterationStartTime := lastIterationStartTime w;
          stateFile := stateFile w; historyFile := historyFile w;
          fs_log := fs_log w; clock := clock w; ticks := ticks w;
          throws := throws w; fs_calls := fs_calls w |}).

Definition setLastIterationStartTime (t : option Z) : IO unit := fun w =>
  (tt, {| state := state w; lastIterationStartTime := t;
          stateFile := stateFile w; historyFile := historyFile w;
          fs_log := fs_log w; clock := clock w; ticks := ticks w;
          throws := throws w; fs_calls := fs_calls w |}).

(** [Date.now()], and the instant of [new Date()]. *)
Definition Date_now : IO Z := fun w =>
  (clock w (ticks w),
   {| state := state w; lastIterationStartTime := lastIterationStartTime w;
      stateFile := stateFile w; historyFile := historyFile w;
      fs_log := fs_log w; clock := clock w; ticks := S (ticks w);
      throws := throws w; fs_calls := fs_calls w |}).

(** One guarded file-system call: it either takes effect or throws
    into the enclosing [catch], which only logs. *)
Definition fsCall (op : FsOp) (event : bool -> FsEvent)
           (file : option (option RalphLoopState))
           (lines : list RalphIterationHistoryEntry) : IO unit := fun w =>
  let ok := negb (throws w op (fs_calls w)) in
  (tt, {| state := state w; lastIterationStartTime := lastIterationStartTime w;
          stateFile := if ok then file else stateFile w;
          historyFile := if ok then lines else historyFile w;
          fs_log := fs_log w ++ [event ok]; clock := clock w;
          ticks := ticks w; throws := throws w;
          fs_calls := S (fs_calls w) |}).

Definition saveState : IO unit :=
  s <- getField state ;;
  lines <- getField historyFile ;;
  fsCall OpWriteState (WroteState s) (Some s) lines.

Definition appendToHistory (entry : RalphIterationHistoryEntry) : IO unit :=
  file <- getField stateFile ;;
  lines <- getField historyFile ;;
  fsCall OpAppendHistory (AppendedHistory entry) file (lines ++ [entry]).

Definition startLoop (prompt : jsstring) (maxIterations : Z)
           (completionPromise : option jsstring)
           (gitEnabled autoCommit : bool) : IO RalphLoopState :=
  startedAt <- Date_now ;;
  let s := {| active := true; iteration := 1;
              maxIterations := maxIterations;
              completionPromise := completionPromise;
              startedAt := startedAt; prompt := prompt; history := [];
              gitEnabled := gitEnabled; autoCommit := autoCommit |} in
  setState (Some s) ;;
  saveState ;;
  now <- Date_now ;;
  setLastIterationStartTime (Some now) ;;
  ret s.

(** [this.state !== null && this.state.active]. *)
Definition activeState (w : World) : option RalphLoopState :=
  match state w with
  | Some s => if active s then Some s else None
  | None => None
  end.

Definition isLoopActive : IO bool := fun w =>
  (match activeState w with Some _ => true | None => false end, w).

Definition getState : IO (option RalphLoopState) := getField state.

Definition getHistory : IO (list RalphIterationHistoryEntry) := fun w =>
  (match state w with Some s => history s | None => [] end, w).

Definition cancelLoop : IO bool :=
  a <- getField activeState ;;
  match a with
  | None => ret false
  | Some _ =>
      setState None ;;
      file <- getField stateFile ;;
      lines <- getField historyFile ;;
      match file with
      | Some _ => fsCall OpUnlinkState UnlinkedState None lines
      | None => ret tt
      end ;;
      ret true
  end.

Definition analyzeProgress : IO RalphProgressMetrics := fun w =>
  (Analyzer.analyze match state w with Some s => history s | None => [] end,
   w).

(** The completion check at the head of [processIteration]. *)
Definition detectCompletion (completionPromise : option jsstring)
           (lastOutput : jsstring) : bool :=
  match completionPromise with
  | None => false
  | Some [] => false
  | Some promise =>
      match matchPromise lastOutput with
      | Some group1 => JsString.eqb (JsString.trim group1) promise
      | None => false
      end
  end.

Definition noActiveLoop : RalphIterationResult :=
  {| completed := true; result_iteration := 0;
     reason := js "No active Ralph loop found";
     nextPrompt := None; result_completionDetected := None;
     progress := None |}.

Definition md {A} (metadata : option Metadata) (f : Metadata -> option A)
  : option A :=
  match metadata with Some m => f m | None => None end.

(** [this.state.history.push(historyEntry)]. *)
Definition pushHistory (s : RalphLoopState)
           (entry : RalphIterationHistoryEntry) : RalphLoopState :=
  {| active := active s; iteration := iteration s;
     maxIterations := maxIterations s;
     completionPromise := completionPromise s; startedAt := startedAt s;
     prompt := prompt s; history := history s ++ [entry];
     gitEnabled := gitEnabled s; autoCommit := autoCommit s |}.

(** [this.state.iteration = nextIteration]. *)
Definition setIteration (s : RalphLoopState) (n : Z) : RalphLoopState :=
  {| active := active s; iteration := n;
     maxIterations := maxIterations s;
     completionPromise := completionPromise s; startedAt := startedAt s;
     prompt := prompt s; history := history s;
     gitEnabled := gitEnabled s; autoCommit := autoCommit s |}.

(** [maxIterations > 0 && iteration >= maxIterations]. *)
Definition maxReached (s : RalphLoopState) : bool :=
  (0 <? maxIterations s) && (maxIterations s <=? iteration s).

Definition processIteration (lastOutput : jsstring)
           (metadata : option Metadata) : IO RalphIterationResult :=
  a <- getField activeState ;;
  match a with
  | None => ret noActiveLoop
  | Some s =>
      let detected := detectCompletion (completionPromise s) lastOutput in
      last <- getField lastIterationStartTime ;;
      duration <- match last with
                  | Some t0 => now <- Date_now ;; ret (Some (now - t0))
                  | None => ret None
                  end ;;
      stamp <- Date_now ;;
      let historyEntry :=
        {| entry_iteration := iteration s; timestamp := stamp;
           duration := duration;
           output := JsString.substring0 1000 lastOutput;
           completionDetected := detected;
           filesModified := md metadata md_filesModified;
           commandsRun := md metadata md_commandsRun;
           errors := md metadata md_errors;
           gitCommit := md metadata md_gitCommit;
           externalToolsRun := md metadata md_externalToolsRun |} in
      let s1 := pushHistory s historyEntry in
      setState (Some s1) ;;
      appendToHistory historyEntry ;;
      if detected then
        cancelLoop ;;
        ret {| completed := true; result_iteration := iteration s;
               reason := js "Completion promise detected: <promise>"
                         ++ match completionPromise s with
                            | Some p => p | None => []
                            end
                         ++ js "</promise>";
               nextPrompt := None; result_completionDetected := Some true;
               progress := None |}
      else if maxReached s then
        cancelLoop ;;
        ret {| completed := true; result_iteration := iteration s;
               reason := js "Max iterations (" ++ JsString.ofZ (maxIterations s)
                         ++ js ") reached";
               nextPrompt := None; result_completionDetected := None;
               progress := None |}
      else
        metrics <- analyzeProgress ;;
        let nextIteration := iteration s + 1 in
        setState (Some (setIteration s1 nextIteration)) ;;
        saveState ;;
        now <- Date_now ;;
        setLastIterationStartTime (Some now) ;;
        ret {| completed := false; result_iteration := nextIteration;
               reason := js "Iteration " ++ JsString.ofZ nextIteration
                         ++ js " - continue loop";
               nextPrompt := Some (prompt s);
               result_completionDetected := None;
               progress := Some metrics |}
  end.

End Manager.

(** ** The request handler that starts a loop *)

(** A value of type [unknown] as a request can carry it. *)
Inductive JsValue :=
| VUndefined
| VNull
| VBool (b : bool)
| VNumber (x : Num.number)
| VString (s : jsstring)
| VObject.

Record LoopTemplate := {
  template_prompt : jsstring;
  suggestedCompletionPromise : jsstring;
  suggestedMaxIterations : Num.number;
  template_gitEnabled : bool;
  template_autoCommit : bool
}.

(** The arguments of the [ralph_loop] request; a key that is missing
    reads as [VUndefined]. *)
Record LoopArgs := {
  arg_prompt : JsValue;
  arg_template_id : JsValue;
  arg_max_iterations : JsValue;
  arg_completion_promise : JsValue;
  arg_git_enabled : JsValue;
  arg_auto_commit : JsValue
}.

Inductive JsError :=
| Error (message : jsstring)
| TypeError.

(** How [handleRalphLoop] ends: by a [throw], by the early return that
    reports a loop already active, or by the return after [startLoop]
    (the text of the reply is not modelled). *)
Inductive Outcome :=
| Threw (e : JsError)
| AlreadyActive
| Activated (s : RalphLoopState).

Module Server.

Definition truthy (v : JsValue) : bool :=
  match v with
  | VUndefined | VNull => false
  | VBool b => b
  | VNumber (S754_zero _) | VNumber S754_nan => false
  | VNumber _ => true
  | VString [] => false
  | VString _ => true
  | VObject => true
  end.

(** A destructuring default applies to [undefined] only. *)
Definition withDefault (v d : JsValue) : JsValue :=
  match v with VUndefined => d | _ => v end.

(** The test guarding "max_iterations must be a non-negative
    integer". *)
Definition invalidMaxIterations (v : JsValue) : bool :=
  match v with
  | VNumber x => Num.ltb x Num.zero || negb (Num.isInteger x)
  | _ => true
  end.

Definition invalidCompletionPromise (v : JsValue) : bool :=
  match v with
  | VNull | VString _ => false
  | _ => true
  end.

Section WithTemplates.

(** [TemplatesManager.getTemplate]. *)
Variable getTemplate : jsstring -> option LoopTemplate.

(** The values of [finalPrompt], [finalMaxIterations],
    [finalCompletionPromise], [finalGitEnabled], [finalAutoCommit]
    after the template branch, or the error it throws. *)
Definition resolve (args : LoopArgs)
  : JsError + (JsValue * JsValue * JsValue * JsValue * JsValue) :=
  let plain :=
    inr (arg_prompt args,
         withDefault (arg_max_iterations args) (VNumber (Num.ofZ 0)),
         withDefault (arg_completion_promise args) VNull,
         withDefault (arg_git_enabled args) (VBool true),
         withDefault (arg_auto_commit args) (VBool false)) in
  match arg_template_id args with
  | VString (c :: id) =>
      match getTemplate (c :: id) with
      | None => inl (Error (js "Unknown template: " ++ c :: id))
      | Some t =>
          inr (VString (template_prompt t),
               VNumber (suggestedMaxIterations t),
               VString (suggestedCompletionPromise t),
               VBool (template_gitEnabled t),
               VBool (template_autoCommit t))
      end
  | _ => plain
  end.

Definition handleRalphLoop (args : LoopArgs) : IO Outcome :=
  match resolve args with
  | inl e => ret (Threw e)
  | inr (finalPrompt, finalMaxIterations, finalCompletionPromise,
         finalGitEnabled, finalAutoCommit) =>
      if negb (truthy finalPrompt) then
        ret (Threw (Error (js "prompt is required (or provide a valid template_id)")))
      else
        match finalPrompt with
        | VString p =>
            if JsString.eqb (JsString.trim p) [] then
              ret (Threw (Error (js "prompt is required (or provide a valid template_id)")))
            else if invalidMaxIterations finalMaxIterations then
              ret (Threw (Error (js "max_iterations must be a non-negative integer")))
            else if invalidCompletionPromise finalCompletionPromise then
              ret (Threw (Error (js "completion_promise must be a string or null")))
            else
              busy <- Manager.isLoopActive ;;
              if busy then ret AlreadyActive
              else
                s <- Manager.startLoop p
                       match finalMaxIterations with
                       | VNumber x => Num.toZ x
                       | _ => 0
                       end
                       match finalCompletionPromise with
                       | VString c => Some c
                       | _ => None
                       end
                       (truthy finalGitEnabled) (truthy finalAutoCommit) ;;
                ret (Activated s)
        | _ => ret (Threw TypeError)  (* [finalPrompt.trim] is not a function *)
        end
  end.

End WithTemplates.

End Server.

(** ** Vocabulary of the statements *)

Module Obs.
Import Manager.

(** The record [processIteration] builds when called in world [w]
    on the active state [s]. *)
Definition nextEntry (w : World) (s : RalphLoopState) (lastOutput : jsstring)
           (metadata : option Metadata) : RalphIterationHistoryEntry :=
  {| entry_iteration := iteration s;
     timestamp :=
       clock w (match lastIterationStartTime w with
                | Some _ => S (ticks w) | None => ticks w end);
     duration :=
       match lastIterationStartTime w with
       | Some t0 => Some (clock w (ticks w) - t0) | None => None end;
     output := JsString.substring0 1000 lastOutput;
     completionDetected := detectCompletion (completionPromise s) lastOutput;
     filesModified := md metadata md_filesModified;
     commandsRun := md metadata md_commandsRun;
     errors := md metadata md_errors;
     gitCommit := md metadata md_gitCommit;
     externalToolsRun := md metadata md_externalToolsRun |}.

(** Whether the next file-system call, if it is the append to the
    history file, succeeds; and whether the call after it, if it is
    the snapshot write, succeeds. *)
Definition appendOk (w : World) : bool :=
  negb (throws w OpAppendHistory (fs_calls w)).
Definition writeOk (w : World) : bool :=
  negb (throws w OpWriteState (S (fs_calls w))).

(** What a terminating call does to the snapshot after its append:
    it unlinks the file if there is one. *)
Definition unlinkEvents (w : World) : list FsEvent :=
  match stateFile w with
  | Some _ => [UnlinkedState (negb (throws w OpUnlinkState (S (fs_calls w))))]
  | None => []
  end.

(** Consecutive calls of [processIteration]. *)
Record Call := { call_output : jsstring; call_metadata : option Metadata }.

Fixpoint processAll (calls : list Call) : IO (list RalphIterationResult) :=
  match calls with
  | [] => ret []
  | c :: rest =>
      r <- processIteration (call_output c) (call_metadata c) ;;
      rs <- processAll rest ;;
      ret (r :: rs)
  end.


(** A freshly constructed manager with no snapshot on disk, a clock
    that advances by 10 ms per reading, and a disk on which every
    snapshot write fails while appends and unlinks succeed. *)
Definition idleWorld : World :=
  {| state := None; lastIterationStartTime := None;
     stateFile := None; historyFile := []; fs_log := [];
     clock := fun k => 1000 + 10 * Z.of_nat k; ticks := O;
     throws := fun op _ =>
                 match op with OpWriteState => true | _ => false end;
     fs_calls := O |}.

(** [this.state.iteration + 1] as the source computes it, on doubles.
    [processIteration] has the sum on integers, which is the same
    below 2^53; at 2^53 the sum of the source is 2^53 again. *)
Definition nextIteration (i : Z) : Num.number :=
  Num.add (Num.ofZ i) Num.one.


(** [s] splits as [pre ++ <promise> ++ inner ++ </promise> ++ post]
    where no opening tag starts inside [pre] and no closing tag
    starts inside [inner]: the first promise span of [s]. *)
Definition FirstSpan (s pre inner post : jsstring) : Prop :=
  s = pre ++ openTag ++ inner ++ closeTag ++ post
  /\ (forall k, (k < List.length pre)%nat ->
                JsString.startsWith openTag (skipn k s) = false)
  /\ (forall j, (j < List.length inner)%nat ->
                JsString.startsWith closeTag
                  (skipn j (inner ++ closeTag ++ post)) = false).

(** A double in the unit interval, in canonical form: zero, or
    [m * 2^e] with [e <= -52] and [m <= 2^(-e)]. *)
Definition unitFloat (x : Num.number) : Prop :=
  x = S754_zero false
  \/ exists m e, x = S754_finite false m e /\ e <= -52 /\ Z.pos m <= 2 ^ (- e).

(** A positive finite double. *)
Definition positiveFloat (x : Num.number) : Prop :=
  exists m e, x = S754_finite false m e.

(** Structural equality of doubles, as a boolean. *)
Definition sameFloat (x y : Num.number) : bool :=
  match x, y with
  | S754_zero a, S754_zero b => Bool.eqb a b
  | S754_infinity a, S754_infinity b => Bool.eqb a b
  | S754_nan, S754_nan => true
  | S754_finite a m e, S754_finite b m' e' =>
      Bool.eqb a b && Pos.eqb m m' && Z.eqb e e'
  | _, _ => false
  end.

(** Whether a location of the rounding machinery is inexact, as 0 or 1. *)
Definition inexact (l : location) : Z :=
  match l with loc_Exact => 0 | loc_Inexact _ => 1 end.

(** The canonical double of an integer [0 < a < 2^53], with sign [s]:
    the mantissa is [a] shifted to 53 digits. *)
Definition canon (s : bool) (a : Z) : Num.number :=
  S754_finite s (Z.to_pos (a * 2 ^ (53 - Zdigits2 a))) (Zdigits2 a - 53).

(** Whether a shifted mantissa has lost non-zero bits, as 0 or 1. *)
Definition sticky (mrs : shr_record) : Z :=
  if shr_r mrs || shr_s mrs then 1 else 0.

(** The first history lengths, for which the estimate of the remaining
    iterations is checked by evaluation. *)
Definition shortLengths : list Z := map Z.of_nat (seq 3 46).

(** [Math.ceil((1 - 0.5) / (0.5 / n))] in double arithmetic. *)
Definition neutralEstimate (n : Z) : Num.number :=
  Num.ceil (Num.div (Num.sub Num.one Num.half)
                    (Num.div Num.half (Num.ofZ n))).

(** The integer a double stands for, if it stands for one: [None] for
    fractions, NaN and the infinities. *)
Definition integerValue (x : Num.number) : option Z :=
  match x with
  | S754_zero _ => Some 0
  | S754_finite s m e =>
      let signed v := if s then - v else v in
      if 0 <=? e then Some (signed (Z.pos m * 2 ^ e))
      else if Z.pos m mod 2 ^ (- e) =? 0
           then Some (signed (Z.pos m / 2 ^ (- e)))
           else None
  | _ => None
  end.

(** The request value [v] is the number [n], a non-negative integer. *)
Definition nonNegativeInteger (v : JsValue) (n : Z) : Prop :=
  exists x, v = VNumber x /\ integerValue x = Some n /\ 0 <= n.

(** The prompt is a string that is empty or consists of white space
    only. *)
Definition blankPrompt (v : JsValue) : Prop :=
  exists p, v = VString p /\ forallb JsString.isWhiteSpace p = true.

(** The request selects no template: [template_id] is not a non-empty
    string. *)
Definition noTemplate (args : LoopArgs) : Prop :=
  match arg_template_id args with
  | VString (_ :: _) => False
  | _ => True
  end.

(** The value [max_iterations] has after its default is applied. *)
Definition maxIterationsArg (args : LoopArgs) : JsValue :=
  Server.withDefault (arg_max_iterations args) (VNumber (Num.ofZ 0)).

(** [completion_promise] is absent, [null] or a string, and the
    promise the loop gets from it. *)
Definition promiseArg (args : LoopArgs) : option (option jsstring) :=
  match arg_completion_promise args with
  | VUndefined | VNull => Some None
  | VString c => Some (Some c)
  | _ => None
  end.

Definition jsstring_eq_dec : forall a b : jsstring, {a = b} + {a <> b} :=
  list_eq_dec N.eq_dec.

(** The normalized signature of every error of the history, in the
    order the analysis meets them. *)
Definition signatures (history : list RalphIterationHistoryEntry)
  : list jsstring :=
  map normalizeError (flat_map Analyzer.errorsOf history).

(** Total occurrences of a signature across all records. *)
Definition occurrences (sig : jsstring)
           (history : list RalphIterationHistoryEntry) : nat :=
  count_occ jsstring_eq_dec (signatures history) sig.

(** Number of distinct signatures across all records. *)
Definition distinctSignatures (history : list RalphIterationHistoryEntry)
  : nat :=
  List.length (nodup jsstring_eq_dec (signatures history)).

(** *** Vocabulary of the error tokens *)

(** A non-empty run of digits. *)
Definition numeral (n : jsstring) : Prop :=
  n <> [] /\ forallb isDigit n = true.

(** The code unit before the position that follows [s], when [prev]
    is the one before [s]. *)
Definition lastUnit (prev : option char) (s : jsstring) : option char :=
  fold_left (fun _ c => Some c) s prev.

(** Whether a word character stands before a position, and whether
    one, or a digit, stands at the start of a text. *)
Definition wordBefore (prev : option char) : bool :=
  match prev with Some c => isWord c | None => false end.

Definition startsWithWord (s : jsstring) : bool :=
  match s with c :: _ => isWord c | [] => false end.

Definition startsWithDigit (s : jsstring) : bool :=
  match s with c :: _ => isDigit c | [] => false end.

(** The text is empty or starts with white space: a path ends before
    it. *)
Definition endsPath (s : jsstring) : bool :=
  match s with c :: _ => isWhiteSpace c | [] => true end.

(** The text starts with a colon and a digit: digits before it are
    the line of a line:column pair. *)
Definition startsWithColumn (s : jsstring) : bool :=
  match s with
  | c :: d :: _ => N.eqb c 58 && isDigit d
  | _ => false
  end.

(** A piece of an error message: a text with neither slash nor digit;
    a slash on its own; a path, that is a slash and the code units up
    to the next white space; a line:column pair; an integer that
    stands alone; and digits next to a word character. *)
Inductive Piece :=
| Plain (text : jsstring)
| Slash
| Path (rest : jsstring)
| LineColumn (line column : jsstring)
| Standalone (n : jsstring)
| Embedded (n : jsstring).

(** A piece as it is written in the message, and as it is left in the
    signature. *)
Definition written (p : Piece) : jsstring :=
  match p with
  | Plain text => text
  | Slash => [47%N]
  | Path rest => 47%N :: rest
  | LineColumn line column => line ++ [58%N] ++ column
  | Standalone n => n
  | Embedded n => n
  end.

Definition replaced (p : Piece) : jsstring :=
  match p with
  | Plain text => text
  | Slash => [47%N]
  | Embedded n => n
  | Path _ | LineColumn _ _ | Standalone _ => js "<n>"
  end.

Definition message (pieces : list Piece) : jsstring :=
  List.concat (map written pieces).

Definition replacedMessage (pieces : list Piece) : jsstring :=
  List.concat (map replaced pieces).

(** The piece is one of its kind where it stands, after the code unit
    [prev] and before the text [after]. *)
Definition fits (prev : option char) (p : Piece) (after : jsstring) : Prop :=
  match p with
  | Plain text => forall c, In c text -> c <> 47%N /\ isDigit c = false
  | Slash => endsPath after = true
  | Path rest =>
      rest <> [] /\ (forall c, In c rest -> isWhiteSpace c = false)
      /\ endsPath after = true
  | LineColumn line column =>
      numeral line /\ numeral column /\ startsWithDigit after = false
  | Standalone n =>
      numeral n /\ wordBefore prev = false /\ startsWithWord after = false
      /\ startsWithColumn after = false
  | Embedded n =>
      numeral n /\ wordBefore prev || startsWithWord after = true
      /\ startsWithDigit after = false /\ startsWithColumn after = false
  end.

(** Every piece of the message fits where it stands. *)
Fixpoint tokenized (prev : option char) (pieces : list Piece) : Prop :=
  match pieces with
  | [] => True
  | p :: rest =>
      fits prev p (message rest)
      /\ tokenized (lastUnit prev (written p)) rest
  end.

(** A message with a piece of every kind:
    "  /usr/lib/x.js failed at 12:7 with code 137, sha256 / ". *)
Definition sampleMessage : list Piece :=
  [ Plain (js "  "); Path (js "usr/lib/x.js"); Plain (js " failed at ");
    LineColumn (js "12") (js "7"); Plain (js " with code ");
    Standalone (js "137"); Plain (js ", sha"); Embedded (js "256");
    Plain (js " "); Slash; Plain (js " ") ].

(** The record carries an error whose signature is [sig]. *)
Definition mentions (sig : jsstring) (entry : RalphIterationHistoryEntry)
  : Prop :=
  In sig (map normalizeError (Analyzer.errorsOf entry)).

(** The last three records of a history that has at least three. *)
Definition lastThree (history : list RalphIterationHistoryEntry)
  : list RalphIterationHistoryEntry :=
  skipn (List.length history - 3) history.

Definition outputLength (entry : RalphIterationHistoryEntry) : Z :=
  Analyzer.strLength (output entry).

(** The length the last three are compared with: that of the first
    of them. *)
Definition firstRecentLength (history : list RalphIterationHistoryEntry)
  : Z :=
  match lastThree history with
  | e :: _ => outputLength e
  | [] => 0
  end.

(** The output-shape trigger: the code's length test holds for each
    of the last three records and none of them detected completion. *)
Definition similarTrigger (history : list RalphIterationHistoryEntry)
  : bool :=
  forallb (fun e => Analyzer.similarLength (firstRecentLength history)
                                           (outputLength e))
          (lastThree history)
  && forallb (fun e => negb (completionDetected e)) (lastThree history).

(** The length test read on integers: ten times the distance from
    [avgLength] is below the record's own length. *)
Definition similarLengthExact (avgLength len : Z) : bool :=
  10 * Z.abs (len - avgLength) <? len.

(** The lengths a stored output can have: [output.substring(0, 1000)]. *)
Definition storedLength (n : Z) : Prop := 0 <= n <= 1000.

(** For a length [len], the double [len * 0.1] is positive and lies
    strictly above the largest integer below [len / 10] and not above
    the next one. *)
Definition thresholdOk (len : Z) : bool :=
  let bound := Num.mul (Num.ofZ len) Num.tenth in
  let below := (len - 1) / 10 in
  match bound with
  | S754_finite false _ _ =>
      Num.ltb (Num.ofZ below) bound
      && negb (Num.ltb (Num.ofZ (below + 1)) bound)
  | _ => false
  end.

(** The non-empty stored lengths, 1 to 1000. *)
Definition storedLengths : list Z := map Z.of_nat (seq 1 1000).

(** One execution of the body of the inner loop of the analysis, on
    the frequency map alone. *)
Definition bump (freq : StrMap.t) (sig : jsstring) : StrMap.t :=
  StrMap.set sig
    (match StrMap.get sig freq with Some c => c | None => 0 end + 1) freq.

(** A record with the given output and errors and nothing else of
    note, for examples. *)
Definition record (i : Z) (out : jsstring) (errs : option (list jsstring))
  : RalphIterationHistoryEntry :=
  {| entry_iteration := i; timestamp := 0; duration := None;
     output := out; completionDetected := false;
     filesModified := None; commandsRun := None; errors := errs;
     gitCommit := None; externalToolsRun := None |}.

(** The call both returns [completed = true] and reports the
    completion promise as detected. *)
Definition completesByPromise (r : RalphIterationResult) : Prop :=
  completed r = true /\ result_completionDetected r = Some true.

End Obs.

(** ** The manager's constructor, and sequences of calls *)

Module Lifecycle.
Import Manager.

(** [s.replace(pattern, replacement)] with a string pattern: the first
    occurrence of [pattern] is replaced.  The replacement of the source
    contains no [$], so it is inserted as it stands. *)
Fixpoint replaceFirst (pattern replacement s : jsstring) : jsstring :=
  if JsString.startsWith pattern s
  then replacement ++ skipn (List.length pattern) s
  else match s with
       | [] => []
       | c :: s' => c :: replaceFirst pattern replacement s'
       end.

(** [this.historyFilePath], computed by the constructor. *)
Definition historyFilePath (stateFilePath : jsstring) : jsstring :=
  replaceFirst (js "-state.json") (js "-history.jsonl") stateFilePath.

(** The default of the constructor's parameter. *)
Definition defaultStateFilePath : jsstring :=
  js ".REMOVED/ralph-loop-state.json".

(** The snapshot and the history log of a manager constructed with
    [stateFilePath] are two files, as [World] has them, when its
    history path is not its state path.  With a state path in which
    "-state.json" does not occur both are one file, which a snapshot
    write overwrites and [cancelLoop] deletes. *)
Definition separateFiles (stateFilePath : jsstring) : Prop :=
  historyFilePath stateFilePath <> stateFilePath.

(** [loadState]: if the snapshot exists it is read and parsed into
    [this.state]; [readable] tells whether both succeed, and the
    [catch] sets [this.state = null] when they do not. *)
Definition loadState (readable : bool) : IO unit :=
  file <- getField stateFile ;;
  match file with
  | Some data => if readable then setState data else setState None
  | None => ret tt
  end.

(** [new RalphLoopManager(...)] over the files of the world: the
    fields start as [null], then [loadState] runs. *)
Definition newManager (readable : bool) : IO unit :=
  setState None ;;
  setLastIterationStartTime None ;;
  loadState readable.

(** A call of a public method, or the replacement of the manager by a
    new one over the same files. *)
Inductive ManagerCall :=
| CallStartLoop (prompt : jsstring) (maxIterations : Z)
                (completionPromise : option jsstring)
                (gitEnabled autoCommit : bool)
| CallCancelLoop
| CallProcessIteration (lastOutput : jsstring) (metadata : option Metadata)
| CallNewManager (readable : bool).

Definition perform (c : ManagerCall) (w : World) : World :=
  match c with
  | CallStartLoop p m cp g a => run (startLoop p m cp g a) w
  | CallCancelLoop => run cancelLoop w
  | CallProcessIteration lastOutput metadata =>
      run (processIteration lastOutput metadata) w
  | CallNewManager readable => run (newManager readable) w
  end.

Definition performAll (calls : list ManagerCall) (w : World) : World :=
  fold_left (fun w c => perform c w) calls w.

Definition isProcessIteration (c : ManagerCall) : bool :=
  match c with CallProcessIteration _ _ => true | _ => false end.

(** [pattern] occurs in [s]. *)
Definition occursIn (pattern s : jsstring) : Prop :=
  exists pre post, s = pre ++ pattern ++ post.

(** [s] begins or ends with a white-space code unit. *)
Definition padded (s : jsstring) : Prop :=
  (exists c rest, s = c :: rest /\ JsString.isWhiteSpace c = true)
  \/ (exists rest c, s = rest ++ [c] /\ JsString.isWhiteSpace c = true).

(** A freshly constructed manager with no snapshot on disk, on a disk
    where writes and appends succeed but the snapshot cannot be
    deleted. *)
Definition stickyWorld : World :=
  {| state := None; lastIterationStartTime := None;
     stateFile := None; historyFile := []; fs_log := [];
     clock := fun k => 1000 + 10 * Z.of_nat k; ticks := O;
     throws := fun op _ =>
                 match op with OpUnlinkState => true | _ => false end;
     fs_calls := O |}.

End Lifecycle.

(** ** Git integration *)

(** Computations over a state of type [S]; the manager's [IO] is the
    instance at [World]. *)
Definition St (S A : Type) : Type := S -> A * S.

Definition sret {S A} (a : A) : St S A := fun s => (a, s).
Definition sbind {S A B} (c : St S A) (k : A -> St S B) : St S B :=
  fun s => let '(a, s') := c s in k a s'.

Notation "x <~ c ;; k" := (sbind c (fun x => k))
  (at level 61, c at next level, right associativity).

(** Code units outside ASCII that the texts of the source contain. *)
Module Glyph.
Definition memo : jsstring := [55357; 56541]%N.       (* U+1F4DD *)
Definition cycle : jsstring := [55357; 56580]%N.      (* U+1F504 *)
Definition warning : jsstring := [9888; 65039]%N.     (* U+26A0 U+FE0F *)
Definition again : jsstring := [55357; 56577]%N.      (* U+1F501 *)
Definition bullet : jsstring := [8226]%N.             (* U+2022 *)
Definition done : jsstring := [9989]%N.               (* U+2705 *)
Definition stop : jsstring := [55357; 57041]%N.       (* U+1F6D1 *)
Definition chart : jsstring := [55357; 56522]%N.      (* U+1F4CA *)
Definition bulb : jsstring := [55357; 56481]%N.       (* U+1F4A1 *)
Definition trend : jsstring := [55357; 56520]%N.      (* U+1F4C8 *)
Definition failed : jsstring := [10060]%N.            (* U+274C *)
(** A rule of 59 box-drawing code units, U+2550. *)
Definition rule : jsstring := repeat 9552%N 59.
End Glyph.

Module Git.

(** [s.split(sep)] for a separator of one code unit. *)
Fixpoint splitOn (sep : char) (s : jsstring) : list jsstring :=
  match s with
  | [] => [[]]
  | c :: s' =>
      if N.eqb c sep then [] :: splitOn sep s'
      else match splitOn sep s' with
           | piece :: pieces => (c :: piece) :: pieces
           | [] => [[c]]
           end
  end.

(** [s.includes(c)] for a string [c] of one code unit. *)
Definition includes (c : char) (s : jsstring) : bool := existsb (N.eqb c) s.

Arguments splitOn sep%_N s.
Arguments includes c%_N s.

(** [l.trim()] used as a condition: a string that is not blank. *)
Definition nonBlank (l : jsstring) : bool :=
  match JsString.trim l with [] => false | _ :: _ => true end.

Definition nonEmpty {A} (l : list A) : bool :=
  match l with [] => false | _ :: _ => true end.

(** *** Child processes *)

Inductive Command :=
| Exec (command : jsstring)
| Spawn (file : jsstring) (args : list jsstring).

(** [execSync] returns the output of the command or throws. *)
Inductive ExecResult :=
| ExecThrew (message : jsstring)
| ExecReturned (stdout : jsstring).

(** [spawnSync] returns the exit status ([null] when the process did
    not exit by itself) and the two streams, or throws. *)
Inductive SpawnResult :=
| SpawnThrew (message : jsstring)
| SpawnReturned (status : option Z) (stdout : jsstring)
                (stderr : option jsstring).

(** The commands run so far, and what the [k]-th command run will
    give when it is the given one. *)
Record Shell := {
  commands : list Command;
  execResult : nat -> jsstring -> ExecResult;
  spawnResult : nat -> jsstring -> list jsstring -> SpawnResult
}.

Definition execSync (command : jsstring) : St Shell ExecResult := fun sh =>
  (execResult sh (List.length (commands sh)) command,
   {| commands := commands sh ++ [Exec command];
      execResult := execResult sh; spawnResult := spawnResult sh |}).

Definition spawnSync (file : jsstring) (args : list jsstring)
  : St Shell SpawnResult := fun sh =>
  (spawnResult sh (List.length (commands sh)) file args,
   {| commands := commands sh ++ [Spawn file args];
      execResult := execResult sh; spawnResult := spawnResult sh |}).

(** *** [GitManager] *)

Record GitStatus := {
  exists_ : bool;
  branch : option jsstring;
  commit : option jsstring;
  modified : list jsstring;
  added : list jsstring;
  deleted : list jsstring;
  untracked : list jsstring
}.

Record GitCommitResult := {
  success : bool;
  result_commit : option jsstring;
  result_error : option jsstring
}.

(** [escapeShellArg]: backslashes are doubled, then double quotes are
    escaped, and the result is put between double quotes. *)
Definition escapeShellArg (arg : jsstring) : jsstring :=
  let doubled :=
    flat_map (fun c => if N.eqb c 92%N then [92; 92]%N else [c]) arg in
  let escaped :=
    flat_map (fun c => if N.eqb c 34%N then [92; 34]%N else [c]) doubled in
  [34%N] ++ escaped ++ [34%N].

(** [validateNumber]: the value, or [None] when it throws. *)
Definition validateNumber (value : Num.number) (min max : Z)
  : option Num.number :=
  if negb (Num.isInteger value)
     || Num.ltb value (Num.ofZ min)
     || Num.ltb (Num.ofZ max) value
  then None
  else Some value.

(** [checkGitAvailable]; [gitDirExists] is the answer of
    [existsSync] for the [.git] directory. *)
Definition checkGitAvailable (gitDirExists : bool) : St Shell bool :=
  if negb gitDirExists then sret false
  else
    r <~ execSync (js "git --version") ;;
    match r with
    | ExecThrew _ => sret false
    | ExecReturned _ => sret true
    end.

(** The four local arrays of [getStatus]. *)
Definition Changes : Type :=
  list jsstring * list jsstring * list jsstring * list jsstring.

(** Body of the loop over the lines of [git status --porcelain]. *)
Definition statusLine (acc : Changes) (line : jsstring) : Changes :=
  match line with
  | [] => acc
  | _ :: _ =>
      let '(modified, added, deleted, untracked) := acc in
      let status := JsString.substring0 2 line in
      let file := skipn 3 line in
      (if includes 77%N status then modified ++ [file] else modified,
       if includes 65%N status then added ++ [file] else added,
       if includes 68%N status then deleted ++ [file] else deleted,
       if JsString.eqb status (js "??") then untracked ++ [file]
       else untracked)
  end.

Definition parseStatus (statusOutput : jsstring) : Changes :=
  fold_left statusLine (splitOn 10%N statusOutput) ([], [], [], []).

Definition noRepository : GitStatus :=
  {| exists_ := false; branch := None; commit := None;
     modified := []; added := []; deleted := []; untracked := [] |}.

(** What the [catch] of [getStatus] returns. *)
Definition unknownStatus : GitStatus :=
  {| exists_ := true; branch := None; commit := None;
     modified := []; added := []; deleted := []; untracked := [] |}.

Definition getStatus (enabled : bool) : St Shell GitStatus :=
  if negb enabled then sret noRepository
  else
    b <~ execSync (js "git rev-parse --abbrev-ref HEAD") ;;
    match b with
    | ExecThrew _ => sret unknownStatus
    | ExecReturned branchOut =>
        c <~ execSync (js "git rev-parse HEAD") ;;
        match c with
        | ExecThrew _ => sret unknownStatus
        | ExecReturned commitOut =>
            s <~ execSync (js "git status --porcelain") ;;
            match s with
            | ExecThrew _ => sret unknownStatus
            | ExecReturned statusOutput =>
                let '(modified, added, deleted, untracked) :=
                  parseStatus statusOutput in
                sret {| exists_ := true;
                        branch := Some (JsString.trim branchOut);
                        commit := Some (JsString.trim commitOut);
                        modified := modified; added := added;
                        deleted := deleted; untracked := untracked |}
            end
        end
    end.

(** The characters removed from commit and stash messages: the double
    quote, the single quote, the backtick and [$ ; < > | &]. *)
Definition dangerous (c : char) : bool :=
  existsb (N.eqb c) [34; 39; 96; 36; 59; 60; 62; 124; 38]%N.

(** The sanitized message: the dangerous characters are removed, then
    [substring(0, 200)] is taken. *)
Definition sanitize (message : jsstring) : jsstring :=
  JsString.substring0 200 (filter (fun c => negb (dangerous c)) message).

Definition failure (message : jsstring) : GitCommitResult :=
  {| success := false; result_commit := None; result_error := Some message |}.

Definition commitMessage (message : jsstring) (iteration : Z) : jsstring :=
  js "[ralph-iter-" ++ JsString.ofZ iteration ++ js "] " ++ sanitize message.

Definition createCommit (enabled : bool) (message : jsstring) (iteration : Z)
  : St Shell GitCommitResult :=
  if negb enabled then sret (failure (js "Git not available"))
  else
    a <~ execSync (js "git add -A") ;;
    match a with
    | ExecThrew m => sret (failure m)
    | ExecReturned _ =>
        status <~ getStatus enabled ;;
        let hasChanges :=
          nonEmpty (modified status) || nonEmpty (added status)
          || nonEmpty (deleted status) in
        if negb hasChanges then sret (failure (js "No changes to commit"))
        else
          r <~ spawnSync (js "git")
                 [js "commit"; js "-m"; commitMessage message iteration] ;;
          match r with
          | SpawnThrew m => sret (failure m)
          | SpawnReturned (Some 0) _ _ =>
              h <~ execSync (js "git rev-parse HEAD") ;;
              match h with
              | ExecThrew m => sret (failure m)
              | ExecReturned out =>
                  sret {| success := true;
                          result_commit := Some (JsString.trim out);
                          result_error := None |}
              end
          | SpawnReturned _ _ stderr =>
              sret (failure match stderr with
                            | None | Some [] => js "Commit failed"
                            | Some text => text
                            end)
          end
    end.

(** The fields [hash], [subject], [date] of a line of the log; a
    field that is missing renders as [undefined]. *)
Definition logField (k : nat) (line : jsstring) : jsstring :=
  nth k (splitOn 124%N line) (js "undefined").

Definition logLines (stdout : jsstring) : list jsstring :=
  filter nonBlank (splitOn 10%N stdout).

Definition formatLogLine (line : jsstring) : jsstring :=
  logField 0 line ++ js " - " ++ logField 1 line
  ++ js " (" ++ logField 2 line ++ js ")".

Definition getLog (enabled : bool) (count : Num.number)
  : St Shell (list jsstring) :=
  if negb enabled then sret []
  else
    match validateNumber count 1 100 with
    | None => sret []
    | Some validatedCount =>
        r <~ spawnSync (js "git")
               [js "log"; js "-n"; JsString.ofZ (Num.toZ validatedCount);
                js "--pretty=format:%h|%s|%ci"] ;;
        match r with
        | SpawnReturned (Some 0) logOutput _ =>
            sret (map formatLogLine (logLines logOutput))
        | _ => sret []
        end
    end.

Definition unableToRetrieve : jsstring :=
  js "Unable to retrieve Ralph context from git".

Definition getRalphContext (enabled : bool) (iterationCount : Num.number)
  : St Shell jsstring :=
  if negb enabled then sret []
  else
    match validateNumber iterationCount 1 50 with
    | None => sret unableToRetrieve
    | Some validatedCount =>
        r <~ spawnSync (js "git")
               [js "log"; js "-n"; JsString.ofZ (Num.toZ validatedCount);
                js "--grep=ralph-iter"; js "--pretty=format:%h|%s|%ci"] ;;
        match r with
        | SpawnReturned (Some 0) logOutput _ =>
            match logLines logOutput with
            | [] =>
                sret (js "No previous Ralph iterations found in git history.")
            | commits =>
                sret (JsString.join [10%N]
                        ([Glyph.memo ++ js " Recent Ralph Iterations (from git):";
                          []]
                         ++ flat_map
                              (fun line =>
                                 [js "  " ++ logField 0 line ++ js " - "
                                  ++ logField 1 line;
                                  js "    " ++ logField 2 line])
                              commits))
            end
        | _ => sret unableToRetrieve
        end
    end.

(** [stash]; an absent message is [None]. *)
Definition stash (enabled : bool) (message : option jsstring)
  : St Shell bool :=
  if negb enabled then sret false
  else
    let sanitizedMessage :=
      match message with
      | None | Some [] => None
      | Some text => Some (sanitize text)
      end in
    let args :=
      match sanitizedMessage with
      | None | Some [] => [js "stash"]
      | Some text => [js "stash"; js "push"; js "-m"; text]
      end in
    r <~ spawnSync (js "git") args ;;
    match r with
    | SpawnReturned (Some 0) _ _ => sret true
    | _ => sret false
    end.

Definition isClean (enabled : bool) : St Shell bool :=
  status <~ getStatus enabled ;;
  sret (negb (nonEmpty (modified status)) && negb (nonEmpty (added status))
        && negb (nonEmpty (deleted status))
        && negb (nonEmpty (untracked status))).

(** *** [getDiff] *)

Record GitDiffResult := {
  files : list jsstring;
  additions : Z;
  deletions : Z;
  summary : jsstring
}.

(** The line terminators, which [.] does not match. *)
Definition isLineTerminator (c : char) : bool :=
  existsb (N.eqb c) [10; 13; 8232; 8233]%N.

(** Longest run of white space at the start of [s]: its length. *)
Fixpoint spaceRun (s : jsstring) : nat :=
  match s with
  | c :: s' => if JsString.isWhiteSpace c then S (spaceRun s') else O
  | [] => O
  end.

Definition isPlusMinus (c : char) : bool := N.eqb c 43 || N.eqb c 45.

(** The end of the pattern of a stat line, [\s+\|\s+(\d+)(?:\s+[+-]+)?$],
    matched at the start of [s].  Every run is followed by a code unit
    outside its class, so only the longest run can match. *)
Definition statTail (s : jsstring) : bool :=
  match spaceRun s with
  | O => false
  | S k =>
      match skipn (S k) s with
      | c :: s1 =>
          N.eqb c 124
          && match spaceRun s1 with
             | O => false
             | S k1 =>
                 let s2 := skipn (S k1) s1 in
                 match digitRun s2 with
                 | O => false
                 | S k2 =>
                     match skipn (S k2) s2 with
                     | [] => true
                     | s3 =>
                         match spaceRun s3 with
                         | O => false
                         | S k3 =>
                             let s4 := skipn (S k3) s3 in
                             nonEmpty s4 && forallb isPlusMinus s4
                         end
                     end
                 end
             end
      | [] => false
      end
  end.

(** The lazy group [(.+?)] followed by the end of the pattern: the
    shortest non-empty prefix of [s], free of line terminators, after
    which the end of the pattern matches. *)
Fixpoint lazyName (s : jsstring) : option jsstring :=
  match s with
  | [] => None
  | c :: s' =>
      if isLineTerminator c then None
      else if statTail s' then Some [c]
      else option_map (cons c) (lazyName s')
  end.

(** The greedy [^\s*] before the group: the group is tried after [i]
    code units of leading white space, then after fewer. *)
Fixpoint statNameFrom (i : nat) (line : jsstring) : option jsstring :=
  match lazyName (skipn i line) with
  | Some name => Some name
  | None =>
      match i with
      | O => None
      | S i' => statNameFrom i' line
      end
  end.

(** Group 1 of [line.match(/^\s*(.+?)\s+\|\s+(\d+)(?:\s+[+-]+)?$/)]. *)
Definition statName (line : jsstring) : option jsstring :=
  statNameFrom (spaceRun line) line.

(** The number of matches of a pattern of one code unit in [line]. *)
Definition countOf (c : char) (line : jsstring) : Z :=
  Z.of_nat (count_occ N.eq_dec line c).

Arguments countOf c%_N line.

(** Body of the loop of [getDiff] over the lines. *)
Definition diffLine (acc : list jsstring * Z * Z) (line : jsstring)
  : list jsstring * Z * Z :=
  match statName line with
  | Some name =>
      let '(files, totalAdditions, totalDeletions) := acc in
      (files ++ [JsString.trim name],
       totalAdditions + countOf 43 line,
       totalDeletions + countOf 45 line)
  | None => acc
  end.

Definition diffSummary (files : list jsstring)
           (totalAdditions totalDeletions : Z) : jsstring :=
  match files with
  | [] => js "No changes"
  | _ :: _ =>
      JsString.ofZ (Z.of_nat (List.length files)) ++ js " file(s) changed, "
      ++ JsString.ofZ totalAdditions ++ js " insertions(+), "
      ++ JsString.ofZ totalDeletions ++ js " deletions(-)"
  end.

Definition getDiff (enabled : bool) : St Shell GitDiffResult :=
  if negb enabled
  then sret {| files := []; additions := 0; deletions := 0;
               summary := js "Git not available" |}
  else
    r <~ execSync (js "git diff --stat HEAD") ;;
    match r with
    | ExecThrew _ =>
        sret {| files := []; additions := 0; deletions := 0;
                summary := js "Unable to get diff" |}
    | ExecReturned diffOutput =>
        let '(files, totalAdditions, totalDeletions) :=
          fold_left diffLine (filter nonBlank (splitOn 10 diffOutput))
            ([], 0, 0) in
        sret {| files := files; additions := totalAdditions;
                deletions := totalDeletions;
                summary := diffSummary files totalAdditions totalDeletions |}
    end.

(** *** Vocabulary of the statements *)

(** The inverse of the escaping done by [escapeShellArg], on the text
    between the enclosing quotes: a backslash makes the next code unit
    literal. *)
Fixpoint unescape (s : jsstring) : jsstring :=
  match s with
  | [] => []
  | c :: s' =>
      if N.eqb c 92%N then
        match s' with
        | d :: s'' => d :: unescape s''
        | [] => []
        end
      else c :: unescape s'
  end.

(** Whether a double quote stands unescaped in [s], read left to
    right with a backslash making the next code unit literal. *)
Fixpoint bareQuote (s : jsstring) : bool :=
  match s with
  | [] => false
  | c :: s' =>
      if N.eqb c 92%N then
        match s' with
        | _ :: s'' => bareQuote s''
        | [] => false
        end
      else N.eqb c 34%N || bareQuote s'
  end.

(** The status columns and the path of a line of
    [git status --porcelain], as [getStatus] cuts them. *)
Definition statusOf (line : jsstring) : jsstring := JsString.substring0 2 line.
Definition pathOf (line : jsstring) : jsstring := skipn 3 line.

(** The command lines [createCommit] passes to a shell, and the one
    process it starts without a shell. *)
Definition fixedCommands : list Command :=
  [ Exec (js "git add -A");
    Exec (js "git rev-parse --abbrev-ref HEAD");
    Exec (js "git rev-parse HEAD");
    Exec (js "git status --porcelain") ].

Definition commitCommand (message : jsstring) (iteration : Z) : Command :=
  Spawn (js "git") [js "commit"; js "-m"; commitMessage message iteration].

(** The two forms of the process [stash] starts: without a text, and
    with one. *)
Definition stashArgs (text : jsstring) : list jsstring :=
  match text with
  | [] => [js "stash"]
  | _ :: _ => [js "stash"; js "push"; js "-m"; text]
  end.

Definition stashCommand (text : jsstring) : Command :=
  Spawn (js "git") (stashArgs text).

(** The text [stash] hands to git for a message: the sanitized
    message, and none when the message is absent. *)
Definition stashText (message : option jsstring) : jsstring :=
  match message with Some m => sanitize m | None => [] end.

(** The process exited with status 0. *)
Definition exitedWithZero (r : SpawnResult) : bool :=
  match r with SpawnReturned (Some 0) _ _ => true | _ => false end.

(** A line of the log as [git log --pretty=format:%h|%s|%ci] prints
    it, and as [getLog] renders it. *)
Definition logRecord (entry : jsstring * jsstring * jsstring) : jsstring :=
  let '(hash, subject, date) := entry in
  hash ++ js "|" ++ subject ++ js "|" ++ date.

Definition renderedRecord (entry : jsstring * jsstring * jsstring)
  : jsstring :=
  let '(hash, subject, date) := entry in
  hash ++ js " - " ++ subject ++ js " (" ++ date ++ js ")".

(** The fields of a log entry contain neither the separator [|] nor a
    line feed. *)
Definition plainEntry (entry : jsstring * jsstring * jsstring) : Prop :=
  let '(hash, subject, date) := entry in
  forall c, In c (hash ++ subject ++ date) -> c <> 124%N /\ c <> 10%N.

(** The arguments of the [git log] process for a count. *)
Definition logCommand (n : Z) : Command :=
  Spawn (js "git")
    [js "log"; js "-n"; JsString.ofZ n; js "--pretty=format:%h|%s|%ci"].

Definition contextCommand (n : Z) : Command :=
  Spawn (js "git")
    [js "log"; js "-n"; JsString.ofZ n; js "--grep=ralph-iter";
     js "--pretty=format:%h|%s|%ci"].

(** A porcelain output with a file modified in index and work tree,
    a rename and an untracked file. *)
Definition samplePorcelain : jsstring :=
  js "MM src/a.ts" ++ [10%N] ++ js "R  old.ts -> new.ts" ++ [10%N]
  ++ js "?? notes.txt" ++ [10%N].

(** A shell in which nothing has run yet and every command succeeds
    with the given output of [git status --porcelain]. *)
Definition quietShell (porcelain : jsstring) : Shell :=
  {| commands := [];
     execResult := fun _ command =>
       if JsString.eqb command (js "git status --porcelain")
       then ExecReturned porcelain
       else ExecReturned (js "0123abc");
     spawnResult := fun _ _ _ => SpawnReturned (Some 0) [] None |}.

(** A line of the output of [git diff --stat]: a file with its number
    of changed lines and its marks, or anything else. *)
Inductive StatEntry :=
| FileLine (name digits marks : jsstring)
| OtherLine (text : jsstring).

(** [" name | digits marks"], the marks left out when there are
    none. *)
Definition rendered (e : StatEntry) : jsstring :=
  match e with
  | FileLine name digits marks =>
      [32%N] ++ name ++ js " | " ++ digits
      ++ match marks with [] => [] | _ :: _ => [32%N] ++ marks end
  | OtherLine text => text
  end.

(** A file name without a bar, a line terminator or white space
    around it, a number, and marks that are plus and minus signs; any
    other line has no bar and is one line. *)
Definition wellFormed (e : StatEntry) : Prop :=
  match e with
  | FileLine name digits marks =>
      name <> [] /\ ~ Lifecycle.padded name
      /\ (forall c, In c name -> c <> 124%N /\ isLineTerminator c = false)
      /\ digits <> [] /\ forallb isDigit digits = true
      /\ forallb isPlusMinus marks = true
  | OtherLine text => ~ In 124%N text /\ ~ In 10%N text
  end.

Fixpoint fileNames (entries : list StatEntry) : list jsstring :=
  match entries with
  | FileLine name _ _ :: rest => name :: fileNames rest
  | OtherLine _ :: rest => fileNames rest
  | [] => []
  end.

(** The occurrences of [c] in the names and the marks of the files. *)
Fixpoint signs (c : char) (entries : list StatEntry) : Z :=
  match entries with
  | FileLine name _ marks :: rest =>
      countOf c name + countOf c marks + signs c rest
  | OtherLine _ :: rest => signs c rest
  | [] => 0
  end.

Arguments signs c%_N entries.

(** The next command gives this output of [git diff --stat HEAD]. *)
Definition diffShell (output : jsstring) : Shell :=
  {| commands := [];
     execResult := fun _ _ => ExecReturned output;
     spawnResult := fun _ _ _ => SpawnReturned (Some 0) [] None |}.

(** Two changed files, then the summary line of git and the end of
    the output. *)
Definition sampleStat : list StatEntry :=
  [FileLine (js "src/my-file.ts") (js "4") (js "++--");
   FileLine (js "a+b.txt") (js "1") (js "+");
   OtherLine (js " 2 files changed, 3 insertions(+), 2 deletions(-)");
   OtherLine []].

End Git.

(** ** The request handlers for iterating, cancelling and git *)

Module Handlers.
Import Manager Git.

(** [Math.floor]. *)
Definition floor (x : Num.number) : Num.number :=
  match x with
  | S754_finite s m e =>
      if 0 <=? e then x
      else
        let d := 2 ^ (- e) in
        let q := Z.pos m / d in
        if s then binary_normalize Num.prec Num.emax
                    (- (if Z.pos m mod d =? 0 then q else q + 1)) 0 true
        else binary_normalize Num.prec Num.emax q 0 false
  | _ => x
  end.

(** What the server holds: the loop manager with its files, the git
    manager with the processes it starts, and the tools manager, of
    which only the calls of [runPreset] are recorded; [presetResult]
    gives the results of the [k]-th call, or [None] when it rejects. *)
Record Env := {
  manager : World;
  shell : Shell;
  gitAvailable : bool;
  presetsRun : list jsstring;
  presetResult : nat -> jsstring -> option (list ExternalToolResult)
}.

Definition onManager {A} (c : IO A) : St Env A := fun env =>
  let '(a, w) := c (manager env) in
  (a, {| manager := w; shell := shell env;
         gitAvailable := gitAvailable env; presetsRun := presetsRun env;
         presetResult := presetResult env |}).

Definition onShell {A} (c : St Shell A) : St Env A := fun env =>
  let '(a, sh) := c (shell env) in
  (a, {| manager := manager env; shell := sh;
         gitAvailable := gitAvailable env; presetsRun := presetsRun env;
         presetResult := presetResult env |}).

(** [await this.toolsManager.runPreset(presetName)]. *)
Definition runPreset (presetName : jsstring)
  : St Env (option (list ExternalToolResult)) := fun env =>
  (presetResult env (List.length (presetsRun env)) presetName,
   {| manager := manager env; shell := shell env;
      gitAvailable := gitAvailable env;
      presetsRun := presetsRun env ++ [presetName];
      presetResult := presetResult env |}).

(** The arguments of the [ralph_iterate] request.  [last_output] is
    any value; the three lists of strings are [None] when the key is
    absent, and [run_tools] is [None] when it is not an array. *)
Record IterateArgs := {
  arg_last_output : JsValue;
  arg_files_modified : option (list jsstring);
  arg_commands_run : option (list jsstring);
  arg_errors : option (list jsstring);
  arg_run_tools : option (list JsValue)
}.

(** The loop over [run_tools]: a preset that is not a string is
    skipped, and one whose run rejects adds nothing. *)
Fixpoint runTools (presets : list JsValue)
  : St Env (list ExternalToolResult) :=
  match presets with
  | [] => sret []
  | VString presetName :: rest =>
      r <~ runPreset presetName ;;
      rs <~ runTools rest ;;
      sret (match r with Some results => results | None => [] end ++ rs)
  | _ :: rest => runTools rest
  end.

(** "Extract errors from tool results". *)
Definition toolErrors (toolResults : list ExternalToolResult)
  : list jsstring :=
  map (fun r => tool_name r ++ js " failed")
      (filter (fun r => negb (tool_exitCode r =? 0)) toolResults).

(** [list.length > 0 ? list : undefined]. *)
Definition orUndefined {A} (l : list A) : option (list A) :=
  match l with [] => None | _ :: _ => Some l end.

(** "Create git commit if auto-commit is enabled". *)
Definition autoCommitStep (s : RalphLoopState) : St Env (option jsstring) :=
  fun env =>
    if autoCommit s && gitEnabled s && gitAvailable env then
      (r <~ onShell (createCommit (gitAvailable env)
                       (js "Iteration " ++ JsString.ofZ (iteration s))
                       (iteration s)) ;;
       sret (if success r
             then match result_commit r with
                  | None | Some [] => None
                  | Some hash => Some hash
                  end
             else None)) env
    else (None, env).

Definition noLoopReply : jsstring :=
  Glyph.warning ++ js "  No active Ralph loop found." ++ [10%N; 10%N]
  ++ js "Use ralph_loop to start a new loop.".

Definition lastOutputRequired : JsError :=
  Error (js "last_output is required and must be a string").

Definition loopEnded : jsstring :=
  js "The loop has ended. You can now exit or start a new loop.".

(** The sum of the durations that are present and not zero. *)
Definition totalDuration (history : list RalphIterationHistoryEntry) : Z :=
  fold_left
    (fun sum h => sum + match duration h with Some d => d | None => 0 end)
    (filter (fun h => match duration h with
                      | Some d => negb (d =? 0)
                      | None => false
                      end) history)
    0.

(** The members of [new Set(history.flatMap(h => h.filesModified || []))]. *)
Definition filesChanged (history : list RalphIterationHistoryEntry)
  : list jsstring :=
  nodup Obs.jsstring_eq_dec
    (flat_map (fun h => match filesModified h with
                        | Some files => files
                        | None => []
                        end) history).

Section WithNumbers.

(** [Number.prototype.toString], for the numbers that are not kept as
    integers. *)
Variable numberToString : Num.number -> jsstring.

(** The "Session Summary" lines of a reply that ends a loop. *)
Definition sessionSummary (history : list RalphIterationHistoryEntry)
  : list jsstring :=
  match history with
  | [] => []
  | _ :: _ =>
      [ []; Glyph.chart ++ js " Session Summary:";
        js "  Total iterations: "
        ++ JsString.ofZ (Z.of_nat (List.length history)) ]
      ++ (if 0 <? totalDuration history
          then [ js "  Total time: "
                 ++ numberToString
                      (floor (Num.div (Num.ofZ (totalDuration history))
                                      (Num.ofZ 1000)))
                 ++ js "s" ]
          else [])
      ++ (match filesChanged history with
          | [] => []
          | files =>
              [ js "  Files modified: "
                ++ JsString.ofZ (Z.of_nat (List.length files)) ]
          end)
  end.

Definition completedReply (result : RalphIterationResult)
           (history : list RalphIterationHistoryEntry) : jsstring :=
  JsString.join [10%N]
    ([ match result_completionDetected result with
       | Some true => Glyph.done ++ js " Ralph loop completed!"
       | _ => Glyph.stop ++ js " Ralph loop stopped."
       end;
       [];
       reason result ]
     ++ sessionSummary history
     ++ [ []; loopEnded ]).

(** The progress insights of a reply that continues a loop. *)
Definition progressLines (progress : option RalphProgressMetrics)
  : list jsstring :=
  match progress with
  | None => []
  | Some p =>
      (if stagnationDetected p
       then [ Glyph.warning ++ js "  "
              ++ match stagnationReason p with
                 | Some text => text
                 | None => js "undefined"
                 end;
              [] ]
            ++ match suggestedActions p with
               | [] => []
               | actions =>
                   [ Glyph.bulb ++ js " Suggested actions:" ]
                   ++ map (fun action => js "  " ++ Glyph.bullet ++ js " "
                                         ++ action) actions
                   ++ [ [] ]
               end
       else [])
      ++ match repeatedErrors p with
         | [] => []
         | repeated =>
             [ Glyph.again ++ js " Repeated errors detected:" ]
             ++ map (fun error => js "  " ++ Glyph.bullet ++ js " "
                                  ++ JsString.substring0 80 error
                                  ++ js "...") repeated
             ++ [ [] ]
         end
      ++ match estimatedIterationsRemaining p with
         | Some estimate =>
             [ Glyph.trend ++ js " Estimated iterations remaining: "
               ++ numberToString estimate;
               [] ]
         | None => []
         end
  end.

Definition continueReply (s : RalphLoopState) (result : RalphIterationResult)
  : jsstring :=
  JsString.join [10%N]
    ([ Glyph.cycle ++ js " Ralph iteration "
       ++ JsString.ofZ (result_iteration result);
       [] ]
     ++ progressLines (progress result)
     ++ [ reason result;
          [];
          Glyph.rule;
          js "CONTINUE - Same Prompt for Next Iteration";
          Glyph.rule;
          [];
          match nextPrompt result with
          | None | Some [] => js "(No prompt available)"
          | Some text => text
          end;
          [];
          Glyph.rule;
          [];
          js "Your previous work persists in files and git history.";
          js "Continue working on this task. When done, call ralph_iterate again." ]
     ++ match completionPromise s with
        | None | Some [] => []
        | Some promise =>
            [ [];
              js "Reminder: To complete, output <promise>" ++ promise
              ++ js "</promise>" ]
        end).

(** The metadata [handleRalphIterate] passes to [processIteration]. *)
Definition iterationMetadata (args : IterateArgs)
           (toolResults : list ExternalToolResult)
           (gitCommit : option jsstring) : Metadata :=
  {| md_filesModified := arg_files_modified args;
     md_commandsRun := arg_commands_run args;
     md_errors :=
       orUndefined (match arg_errors args with
                    | Some userErrors => userErrors
                    | None => []
                    end ++ toolErrors toolResults);
     md_gitCommit := gitCommit;
     md_externalToolsRun := orUndefined toolResults |}.

Definition handleRalphIterate (args : IterateArgs)
  : St Env (JsError + jsstring) :=
  match arg_last_output args with
  | VString last_output =>
      busy <~ onManager isLoopActive ;;
      if negb busy then sret (inr noLoopReply)
      else
        current <~ onManager getState ;;
        match current with
        | None =>
            sret (inr (Glyph.warning ++ js "  Unable to get loop state."))
        | Some s =>
            toolResults <~ runTools match arg_run_tools args with
                                    | Some presets => presets
                                    | None => []
                                    end ;;
            gitCommit <~ autoCommitStep s ;;
            result <~ onManager
                        (processIteration last_output
                           (Some (iterationMetadata args toolResults
                                                    gitCommit))) ;;
            if completed result then
              history <~ onManager getHistory ;;
              sret (inr (completedReply result history))
            else sret (inr (continueReply s result))
        end
  | _ => sret (inl lastOutputRequired)
  end.

End WithNumbers.

Definition handleRalphCancel : St Env jsstring :=
  busy <~ onManager isLoopActive ;;
  if negb busy then sret (js "No active Ralph loop found.")
  else
    current <~ onManager getState ;;
    let iteration := match current with
                     | Some s => iteration s
                     | None => 0
                     end in
    cancelled <~ onManager cancelLoop ;;
    if cancelled
    then sret (Glyph.done ++ js " Cancelled Ralph loop (was at iteration "
               ++ JsString.ofZ iteration ++ js ")")
    else sret (js "Failed to cancel Ralph loop.").

Definition gitUnavailable : jsstring :=
  js "Git is not available or not in a git repository.".

Definition handleGitCommit (message : JsValue)
  : St Env (JsError + jsstring) := fun env =>
  if negb (gitAvailable env) then (inr gitUnavailable, env)
  else
    match message with
    | VString text =>
        if JsString.eqb (JsString.trim text) []
        then (inl (Error (js "message is required and must be a non-empty string")),
              env)
        else
          (current <~ onManager getState ;;
           let iteration := match current with
                            | Some s => iteration s
                            | None => 0
                            end in
           r <~ onShell (createCommit (gitAvailable env) text iteration) ;;
           if success r
           then sret (inr (Glyph.done ++ js " Commit created: "
                           ++ match result_commit r with
                              | Some hash => JsString.substring0 8 hash
                              | None => js "undefined"
                              end))
           else sret (inr (Glyph.failed ++ js " Failed to create commit: "
                           ++ match result_error r with
                              | Some text => text
                              | None => js "undefined"
                              end))) env
    | _ =>
        (inl (Error (js "message is required and must be a non-empty string")),
         env)
    end.

(** [handleGitContext]; the default of [count] is 5. *)
Definition handleGitContext (count : JsValue)
  : St Env (JsError + jsstring) := fun env =>
  if negb (gitAvailable env) then (inr gitUnavailable, env)
  else
    match Server.withDefault count (VNumber (Num.ofZ 5)) with
    | VNumber n =>
        if Num.ltb n (Num.ofZ 1)
        then (inl (Error (js "count must be a positive number")), env)
        else (text <~ onShell (getRalphContext (gitAvailable env) n) ;;
              sret (inr text)) env
    | _ => (inl (Error (js "count must be a positive number")), env)
    end.

(** *** Vocabulary of the statements *)

(** The presets of a [run_tools] array that are strings. *)
Fixpoint presetNames (presets : list JsValue) : list jsstring :=
  match presets with
  | [] => []
  | VString name :: rest => name :: presetNames rest
  | _ :: rest => presetNames rest
  end.

(** The results of running the presets [names] when [k] runs were
    made before; a run that rejects gives nothing. *)
Fixpoint resultsFrom (oracle : nat -> jsstring -> option (list ExternalToolResult))
         (k : nat) (names : list jsstring) : list ExternalToolResult :=
  match names with
  | [] => []
  | name :: rest =>
      match oracle k name with Some results => results | None => [] end
      ++ resultsFrom oracle (S k) rest
  end.

(** The array [run_tools] of a request, empty when absent. *)
Definition requestedPresets (args : IterateArgs) : list JsValue :=
  match arg_run_tools args with Some presets => presets | None => [] end.

(** The tool results [handleRalphIterate] collects in [env]. *)
Definition collectedResults (args : IterateArgs) (env : Env)
  : list ExternalToolResult :=
  resultsFrom (presetResult env) (List.length (presetsRun env))
              (presetNames (requestedPresets args)).

(** The commit [handleRalphIterate] tries to make for state [s]. *)
Definition iterationCommit (s : RalphLoopState)
  : St Shell GitCommitResult :=
  createCommit true (js "Iteration " ++ JsString.ofZ (iteration s))
               (iteration s).

(** Whether the three conditions of the automatic commit hold. *)
Definition commitsAutomatically (s : RalphLoopState) (env : Env) : bool :=
  autoCommit s && gitEnabled s && gitAvailable env.

(** The hash recorded for the iteration: that of a successful commit
    with a non-empty hash. *)
Definition recordedCommit (r : GitCommitResult) : option jsstring :=
  if success r
  then match result_commit r with
       | None | Some [] => None
       | Some hash => Some hash
       end
  else None.

(** The decimal rendering of a number that stands for an integer. *)
Definition decimal (x : Num.number) : jsstring := JsString.ofZ (Num.toZ x).

(** A server whose loop manager is in world [w], with git available,
    no process run yet, every git command succeeding, and a tools
    manager whose preset [lint] yields one failing tool while every
    other preset rejects. *)
Definition sampleEnv (w : World) : Env :=
  {| manager := w;
     shell := quietShell (js " M src/a.ts");
     gitAvailable := true;
     presetsRun := [];
     presetResult := fun _ name =>
       if JsString.eqb name (js "lint")
       then Some [ {| tool_name := js "eslint"; tool_command := js "npx eslint .";
                      tool_exitCode := 1; tool_output := js "2 problems";
                      tool_duration := 1200 |} ]
       else None |}.

(** A request that reports one error and asks for three presets, one
    of them not a string. *)
Definition sampleArgs : IterateArgs :=
  {| arg_last_output := VString (js "tests still failing");
     arg_files_modified := Some [js "src/a.ts"];
     arg_commands_run := None;
     arg_errors := Some [js "TypeError at /src/a.ts:3:1"];
     arg_run_tools :=
       Some [VString (js "lint"); VNumber (Num.ofZ 1);
             VString (js "missing")] |}.

(** The world of a manager that has just started a loop with the
    given limit, with git integration and automatic commits on. *)
Definition startedWorld (maxIterations : Z) : World :=
  run (startLoop (js "make the tests pass") maxIterations None true true)
      Obs.idleWorld.

Definition startedState (maxIterations : Z) : RalphLoopState :=
  result (startLoop (js "make the tests pass") maxIterations None true true)
         Obs.idleWorld.

End Handlers.

(** * Properties *)

Arguments Analyzer.analyze : simpl never.
Arguments JsString.lit : simpl never.
Arguments JsString.ofZ : simpl never.
Arguments JsString.substring0 : simpl never.
Arguments Manager.detectCompletion : simpl never.

(** Unfold the monadic plumbing of the manager. *)
Ltac io :=
  unfold Manager.processIteration, Manager.cancelLoop, Manager.startLoop,
    Manager.saveState, Manager.appendToHistory, Manager.analyzeProgress,
    Manager.isLoopActive, Manager.getHistory, Manager.getState,
    Manager.fsCall, Manager.setState, Manager.setLastIterationStartTime,
    Manager.Date_now, Manager.getField, bind, ret, run, result in *;
  cbn [fst snd] in *.

Ltac world_fields :=
  cbn [state lastIterationStartTime stateFile historyFile fs_log clock
       ticks throws fs_calls] in *.

(** ** One call of [processIteration] on an active loop *)

Section Step.
Import Manager Obs.

Lemma activeState_Some w s :
  activeState w = Some s -> state w = Some s /\ active s = true.
Proof.
  unfold activeState. destruct (state w) as [s'|]; [|discriminate].
  destruct (active s') eqn:E; [|discriminate]. intros [= <-]. auto.
Qed.

Lemma activeState_intro w s :
  state w = Some s -> active s = true -> activeState w = Some s.
Proof. unfold activeState. intros -> ->. reflexivity. Qed.

(** Open the world and enter the branch of an active loop. *)
Ltac enter w Hactive :=
  let Hs := fresh "Hs" in
  let Ha := fresh "Ha" in
  destruct (activeState_Some _ _ Hactive) as [Hs Ha];
  unfold nextEntry, appendOk, writeOk, unlinkEvents in *;
  destruct w as [st last sf hf log clk tk thr calls];
  world_fields; subst st; io; unfold activeState; world_fields;
  rewrite ?Ha; destruct last.

Lemma step_historyFile w s lastOutput metadata :
  activeState w = Some s ->
  historyFile (run (processIteration lastOutput metadata) w) =
  if appendOk w
  then historyFile w ++ [nextEntry w s lastOutput metadata]
  else historyFile w.
Proof.
  intros Hactive. enter w Hactive;
    (destruct (detectCompletion _ _);
     [|destruct (maxReached _)]; cbn; rewrite ?Ha; cbn;
     try destruct sf; cbn;
     repeat (destruct (thr _ _); cbn); reflexivity).
Qed.

Lemma step_continue w s lastOutput metadata :
  activeState w = Some s ->
  detectCompletion (completionPromise s) lastOutput = false ->
  maxReached s = false ->
  let e := nextEntry w s lastOutput metadata in
  let s' := setIteration (pushHistory s e) (iteration s + 1) in
  result (processIteration lastOutput metadata) w =
    {| completed := false; result_iteration := iteration s + 1;
       reason := js "Iteration " ++ JsString.ofZ (iteration s + 1)
                 ++ js " - continue loop";
       nextPrompt := Some (prompt s);
       result_completionDetected := None;
       progress := Some (Analyzer.analyze (history s ++ [e])) |}
  /\ state (run (processIteration lastOutput metadata) w) = Some s'
  /\ fs_log (run (processIteration lastOutput metadata) w) =
     fs_log w ++ [AppendedHistory e (appendOk w);
                  WroteState (Some s') (writeOk w)].
Proof.
  intros Hactive Hd Hm. enter w Hactive;
    (rewrite Hd, Hm; cbn; rewrite <- app_assoc; auto).
Qed.

Lemma step_promise w s lastOutput metadata :
  activeState w = Some s ->
  detectCompletion (completionPromise s) lastOutput = true ->
  let r := result (processIteration lastOutput metadata) w in
  let w' := run (processIteration lastOutput metadata) w in
  completed r = true /\ result_completionDetected r = Some true
  /\ result_iteration r = iteration s
  /\ state w' = None
  /\ fs_log w' =
     fs_log w ++ AppendedHistory (nextEntry w s lastOutput metadata)
                                 (appendOk w) :: unlinkEvents w.
Proof.
  intros Hactive Hd. enter w Hactive;
    (rewrite Hd; cbn; rewrite Ha; cbn;
     destruct (thr OpAppendHistory _); cbn;
     destruct sf; cbn; rewrite <- ?app_assoc; auto).
Qed.

Lemma step_promise_reason w s lastOutput metadata :
  activeState w = Some s ->
  detectCompletion (completionPromise s) lastOutput = true ->
  reason (result (processIteration lastOutput metadata) w) =
    js "Completion promise detected: <promise>"
    ++ match completionPromise s with Some p => p | None => [] end
    ++ js "</promise>".
Proof.
  intros Hactive Hd. enter w Hactive;
    (rewrite Hd; cbn; rewrite Ha; cbn;
     destruct (thr OpAppendHistory _); cbn;
     destruct sf; cbn; reflexivity).
Qed.

Lemma step_max w s lastOutput metadata :
  activeState w = Some s ->
  detectCompletion (completionPromise s) lastOutput = false ->
  maxReached s = true ->
  let r := result (processIteration lastOutput metadata) w in
  let w' := run (processIteration lastOutput metadata) w in
  completed r = true /\ result_completionDetected r = None
  /\ result_iteration r = iteration s
  /\ reason r = js "Max iterations (" ++ JsString.ofZ (maxIterations s)
                ++ js ") reached"
  /\ state w' = None
  /\ fs_log w' =
     fs_log w ++ AppendedHistory (nextEntry w s lastOutput metadata)
                                 (appendOk w) :: unlinkEvents w.
Proof.
  intros Hactive Hd Hm. enter w Hactive;
    (rewrite Hd, Hm; cbn; rewrite Ha; cbn;
     destruct (thr OpAppendHistory _); cbn;
     destruct sf; cbn; rewrite <- ?app_assoc; auto 10).
Qed.

Lemma step_throws w lastOutput metadata :
  throws (run (processIteration lastOutput metadata) w) = throws w.
Proof.
  destruct (activeState w) as [s|] eqn:Hactive.
  - enter w Hactive;
      (destruct (detectCompletion _ _);
       [|destruct (maxReached _)]; cbn; rewrite ?Ha; cbn;
       try destruct sf; cbn; repeat (destruct (thr _ _); cbn);
       reflexivity).
  - io. rewrite Hactive. reflexivity.
Qed.


End Step.

(** ** The loop state machine *)

Section Machine.
Import Manager Obs.

Lemma startLoop_state w p m cp g a :
  let s := result (startLoop p m cp g a) w in
  let w' := run (startLoop p m cp g a) w in
  state w' = Some s /\ activeState w' = Some s
  /\ active s = true /\ iteration s = 1 /\ history s = []
  /\ prompt s = p /\ maxIterations s = m /\ completionPromise s = cp
  /\ historyFile w' = historyFile w.
Proof.
  unfold run, result.
  destruct (startLoop p m cp g a w) as [s w'] eqn:E. cbn [fst snd].
  revert E. destruct w. io. cbn. intros [= <- <-]. unfold activeState. cbn.
  destruct (throws0 _ _); cbn; auto 10.
Qed.

Lemma processIteration_idle w lastOutput metadata :
  activeState w = None ->
  processIteration lastOutput metadata w = (noActiveLoop, w).
Proof. intros H. io. rewrite H. reflexivity. Qed.

Lemma cancelLoop_idle w :
  activeState w = None -> cancelLoop w = (false, w).
Proof. intros H. io. rewrite H. reflexivity. Qed.

Lemma cancelLoop_active w s :
  activeState w = Some s ->
  result cancelLoop w = true /\ state (run cancelLoop w) = None.
Proof.
  intros H. destruct w. io. rewrite H. cbn.
  destruct stateFile0; cbn; auto.
Qed.

Lemma state_None_idle w : state w = None -> activeState w = None.
Proof. unfold activeState. intros ->. reflexivity. Qed.

(** A call that reports [completed = false] took the last branch. *)
Lemma not_completed_inv w s lastOutput metadata :
  activeState w = Some s ->
  completed (result (processIteration lastOutput metadata) w) = false ->
  detectCompletion (completionPromise s) lastOutput = false
  /\ maxReached s = false.
Proof.
  intros Ha Hc.
  destruct (detectCompletion (completionPromise s) lastOutput) eqn:Hd.
  - destruct (step_promise w s lastOutput metadata Ha Hd) as [H _].
    congruence.
  - destruct (maxReached s) eqn:Hm; auto.
    destruct (step_max w s lastOutput metadata Ha Hd Hm) as [H _].
    congruence.
Qed.

Lemma processAll_cons c rest w :
  result (processAll (c :: rest)) w =
  result (processIteration (call_output c) (call_metadata c)) w
  :: result (processAll rest)
       (run (processIteration (call_output c) (call_metadata c)) w)
  /\ run (processAll (c :: rest)) w =
     run (processAll rest)
       (run (processIteration (call_output c) (call_metadata c)) w).
Proof.
  unfold run, result. cbn [processAll]. unfold bind, ret.
  destruct (processIteration _ _ w) as [r w1]. cbn [fst snd].
  destruct (processAll rest w1) as [rs w2]. auto.
Qed.


End Machine.

(** ** Claims about the loop state machine *)

Section MachineClaims.
Import Manager Obs.

Lemma isLoopActive_idle w :
  state w = None -> result isLoopActive w = false.
Proof.
  intros H. unfold result, isLoopActive, activeState. rewrite H. reflexivity.
Qed.

(** C6. With no active loop nothing raises: [processIteration]
    returns, for every output, the structured result with
    [completed = true] and the reason "No active Ralph loop found",
    and [cancelLoop] returns [false]; both leave the world as it was.
    After [startLoop] the first [cancelLoop] returns [true] and
    leaves the controller inactive, and a second one returns
    [false]. *)
Theorem C6_no_active_loop :
  (forall w, activeState w = None ->
     (forall lastOutput metadata,
        processIteration lastOutput metadata w = (noActiveLoop, w))
     /\ completed noActiveLoop = true
     /\ reason noActiveLoop = js "No active Ralph loop found"
     /\ cancelLoop w = (false, w))
  /\ (forall w p m cp g a,
        let w1 := run (startLoop p m cp g a) w in
        let w2 := run cancelLoop w1 in
        result cancelLoop w1 = true
        /\ result isLoopActive w2 = false
        /\ result cancelLoop w2 = false).
Proof.
  split.
  - intros w Hidle. repeat split.
    + intros. apply processIteration_idle, Hidle.
    + apply cancelLoop_idle, Hidle.
  - intros w p m cp g a w1 w2.
    destruct (startLoop_state w p m cp g a) as (_ & Ha & _).
    destruct (cancelLoop_active _ _ Ha) as [Hr Hs]. fold w1 in Hr, Hs.
    fold w2 in Hs. repeat split.
    + exact Hr.
    + apply isLoopActive_idle, Hs.
    + unfold result. rewrite (cancelLoop_idle w2 (state_None_idle _ Hs)).
      reflexivity.
Qed.

Lemma C6_no_active_loop_witness :
  activeState idleWorld = None
  /\ processIteration (js "any output") None idleWorld
     = (noActiveLoop, idleWorld).
Proof.
  split; [reflexivity|].
  apply (proj1 C6_no_active_loop idleWorld); reflexivity.
Defined.





End MachineClaims.

(** ** The completion promise *)

Section Promise.
Import Manager Obs.

Lemma eqb_eq a : forall b, JsString.eqb a b = true <-> a = b.
Proof.
  induction a as [|x a IH]; intros [|y b]; cbn; split; try congruence.
  - intros H. apply andb_true_iff in H as [Hx Hab].
    apply N.eqb_eq in Hx. apply IH in Hab. congruence.
  - intros [= -> ->]. rewrite N.eqb_refl. apply IH. reflexivity.
Qed.

Lemma startsWith_iff p : forall s,
  JsString.startsWith p s = true <-> exists t, s = p ++ t.
Proof.
  induction p as [|x p IH]; intros s.
  - cbn. split; eauto.
  - destruct s as [|y s]; cbn.
    + split; [discriminate|]. intros [t Ht]. discriminate.
    + rewrite andb_true_iff, N.eqb_eq, IH. split.
      * intros [-> [t ->]]. eauto.
      * intros [t [= -> ->]]. eauto.
Qed.

Lemma lazyUntilClose_eq s :
  lazyUntilClose s =
  if JsString.startsWith closeTag s then Some []
  else match s with
       | [] => None
       | c :: s' => option_map (cons c) (lazyUntilClose s')
       end.
Proof. destruct s; reflexivity. Qed.

Lemma matchPromise_eq s :
  matchPromise s =
  match promiseAt s with
  | Some inner => Some inner
  | None => match s with
            | [] => None
            | _ :: s' => matchPromise s'
            end
  end.
Proof. destruct s; reflexivity. Qed.

Lemma option_map_cons_Some {A} (c : A) o l :
  option_map (cons c) o = Some l <-> exists l', l = c :: l' /\ o = Some l'.
Proof.
  destruct o as [l0|]; cbn; split.
  - intros [= <-]. eauto.
  - intros (l' & -> & [= ->]). reflexivity.
  - discriminate.
  - intros (l' & _ & H). discriminate.
Qed.

(** The lazy group stops at the first closing tag. *)
Lemma lazyUntilClose_spec t : forall inner,
  lazyUntilClose t = Some inner <->
  (exists post, t = inner ++ closeTag ++ post)
  /\ (forall j, (j < List.length inner)%nat ->
                JsString.startsWith closeTag (skipn j t) = false).
Proof.
  induction t as [|c t IH]; intros inner; rewrite lazyUntilClose_eq.
  - cbn. split; [discriminate|]. intros [[post H] _].
    destruct inner; discriminate.
  - destruct (JsString.startsWith closeTag (c :: t)) eqn:Hc; cbv beta iota.
    + split.
      * intros [= <-]. split; [|cbn; lia].
        apply startsWith_iff in Hc as [post ->]. exists post. reflexivity.
      * intros [[post Hpost] Hfirst]. destruct inner as [|x inner]; auto.
        specialize (Hfirst O ltac:(cbn; lia)). cbn [skipn] in Hfirst.
        congruence.
    + split.
      * intros Hl. apply option_map_cons_Some in Hl as (inner' & -> & Hl).
        apply IH in Hl as [[post ->] Hfirst].
        split; [exists post; reflexivity|]. intros [|j] Hj; [exact Hc|].
        cbn in Hj. apply Hfirst. lia.
      * intros [[post Hpost] Hfirst]. destruct inner as [|x inner].
        -- cbn in Hpost. rewrite Hpost in Hc.
           assert (JsString.startsWith closeTag (closeTag ++ post) = true)
             by (apply startsWith_iff; eauto). congruence.
        -- injection Hpost as <- ->. apply option_map_cons_Some.
           exists inner. split; [reflexivity|].
           apply IH. split; [exists post; reflexivity|]. intros j Hj.
           apply (Hfirst (S j)). cbn. lia.
Qed.

Lemma lazyUntilClose_found a : forall b,
  lazyUntilClose (a ++ closeTag ++ b) <> None.
Proof.
  induction a as [|c a IH]; intros b; rewrite lazyUntilClose_eq.
  - cbn [app].
    assert (JsString.startsWith closeTag (closeTag ++ b) = true) as ->
      by (apply startsWith_iff; eauto).
    discriminate.
  - destruct (JsString.startsWith closeTag _); [discriminate|].
    cbn [app]. specialize (IH b).
    destruct (lazyUntilClose (a ++ closeTag ++ b)); [discriminate|congruence].
Qed.

Lemma promiseAt_open t :
  promiseAt (openTag ++ t) = lazyUntilClose t.
Proof.
  unfold promiseAt.
  assert (JsString.startsWith openTag (openTag ++ t) = true) as ->
    by (apply startsWith_iff; eauto).
  rewrite skipn_app, Nat.sub_diag, skipn_all. reflexivity.
Qed.

Lemma promiseAt_closed s :
  JsString.startsWith openTag s = false -> promiseAt s = None.
Proof. unfold promiseAt. intros ->. reflexivity. Qed.

(** [match] returns the contents of the first promise span. *)
Lemma matchPromise_spec s : forall inner,
  matchPromise s = Some inner <->
  exists pre post, FirstSpan s pre inner post.
Proof.
  induction s as [|c s IH]; intros inner; rewrite matchPromise_eq.
  - cbn. split; [discriminate|].
    intros (pre & post & H & _). destruct pre; discriminate.
  - destruct (promiseAt (c :: s)) as [found|] eqn:Hp.
    + unfold promiseAt in Hp.
      destruct (JsString.startsWith openTag (c :: s)) eqn:Ho;
        [|discriminate].
      pose proof Ho as Ho'. apply startsWith_iff in Ho' as [t Ht].
      rewrite Ht, skipn_app, Nat.sub_diag, skipn_all in Hp. cbn [app skipn] in Hp.
      split.
      * intros [= <-]. apply lazyUntilClose_spec in Hp as [[post ->] Hfirst].
        exists [], post. rewrite Ht. repeat split; auto. cbn. lia.
      * intros (pre & post & Hs & Hpre & Hin). destruct pre as [|x pre].
        -- cbn [app] in Hs. rewrite Ht in Hs. apply app_inv_head in Hs.
           f_equal.
           assert (lazyUntilClose t = Some inner) as H
             by (apply lazyUntilClose_spec; rewrite Hs; split; eauto).
           congruence.
        -- specialize (Hpre O ltac:(cbn; lia)). cbn [skipn] in Hpre.
           congruence.
    + rewrite IH. split.
      * intros (pre & post & Hs & Hpre & Hin).
        exists (c :: pre), post. split; [cbn; congruence|]. split; auto.
        intros [|k] Hk.
        -- cbn [skipn].
           destruct (JsString.startsWith openTag (c :: s)) eqn:Ho; auto.
           exfalso. unfold promiseAt in Hp. rewrite Ho in Hp.
           revert Hp. rewrite Hs.
           change (c :: pre ++ openTag ++ inner ++ closeTag ++ post)
             with ((c :: pre) ++ openTag ++ inner ++ closeTag ++ post).
           rewrite !app_assoc, <- (app_assoc _ closeTag post).
           rewrite skipn_app.
           assert (List.length openTag
                   <= List.length (((c :: pre) ++ openTag) ++ inner))%nat
             by (rewrite !length_app; cbn; lia).
           replace (List.length openTag
                    - List.length (((c :: pre) ++ openTag) ++ inner))%nat
             with O by lia.
           cbn [skipn]. apply lazyUntilClose_found.
        -- cbn in Hk. cbn [skipn]. apply Hpre. lia.
      * intros (pre & post & Hs & Hpre & Hin). destruct pre as [|x pre].
        -- exfalso. cbn [app] in Hs. rewrite Hs, promiseAt_open in Hp.
           revert Hp. apply lazyUntilClose_found.
        -- injection Hs as <- Hs. exists pre, post. repeat split; auto.
           intros k Hk. apply (Hpre (S k)). cbn. lia.
Qed.

Lemma detectCompletion_DONE lastOutput :
  detectCompletion (Some (js "DONE")) lastOutput = true <->
  exists pre inner post,
    FirstSpan lastOutput pre inner post /\ JsString.trim inner = js "DONE".
Proof.
  unfold detectCompletion. change (js "DONE") with [68; 79; 78; 69]%N.
  destruct (matchPromise lastOutput) as [group1|] eqn:Hm.
  - apply matchPromise_spec in Hm as (pre & post & Hspan).
    rewrite eqb_eq. split.
    + intros H. eauto.
    + intros (pre' & inner & post' & Hspan' & Htrim).
      assert (matchPromise lastOutput = Some group1) as H1
        by (apply matchPromise_spec; eauto).
      assert (matchPromise lastOutput = Some inner) as H2
        by (apply matchPromise_spec; eauto).
      congruence.
  - split; [discriminate|]. intros (pre & inner & post & Hspan & _).
    assert (matchPromise lastOutput = Some inner) as H
      by (apply matchPromise_spec; eauto).
    congruence.
Qed.

Lemma completes_iff_detected w s lastOutput metadata :
  activeState w = Some s ->
  completesByPromise (result (processIteration lastOutput metadata) w) <->
  detectCompletion (completionPromise s) lastOutput = true.
Proof.
  intros Ha. unfold completesByPromise.
  destruct (detectCompletion (completionPromise s) lastOutput) eqn:Hd.
  - destruct (step_promise w s lastOutput metadata Ha Hd) as (H1 & H2 & _).
    tauto.
  - split; [|discriminate]. intros [_ H].
    destruct (maxReached s) eqn:Hm.
    + destruct (step_max w s lastOutput metadata Ha Hd Hm) as (_ & H2 & _).
      congruence.
    + destruct (step_continue w s lastOutput metadata Ha Hd Hm) as (Hr & _).
      rewrite Hr in H. discriminate.
Qed.

End Promise.

(** ** Claims about completion and about the history log *)

Section PromiseClaims.
Import Manager Obs.

Lemma span_of_shape pre inner post lastOutput :
  (forall k, (k < List.length pre)%nat ->
             JsString.startsWith openTag (skipn k lastOutput) = false) ->
  (forall j, (j < List.length inner)%nat ->
             JsString.startsWith closeTag
               (skipn j (inner ++ closeTag ++ post)) = false) ->
  lastOutput = pre ++ openTag ++ inner ++ closeTag ++ post ->
  matchPromise lastOutput = Some inner.
Proof.
  intros Hpre Hin Hs. apply matchPromise_spec. exists pre, post.
  repeat split; assumption.
Qed.

(** C1, as the code has it.  On an active loop whose
    [completionPromise] is "DONE", [processIteration] completes the
    loop with [completionDetected = true] exactly when the first
    [<promise>...</promise>] span of the output - from the leftmost
    opening tag to the first closing tag after it - has trimmed
    contents equal to "DONE".  In particular, when no opening tag
    starts earlier in the output, a span [<promise>DONE</promise>]
    completes the loop and so does [<promise> DONE </promise>]
    (the contents are trimmed before the comparison), while
    [<promise>done</promise>] does not: that call completes only if
    the max-iterations limit is reached. *)
Theorem C1_first_promise_span w s lastOutput metadata :
  activeState w = Some s ->
  completionPromise s = Some (js "DONE") ->
  let r := result (processIteration lastOutput metadata) w in
  (completesByPromise r <->
     exists pre inner post,
       FirstSpan lastOutput pre inner post
       /\ JsString.trim inner = js "DONE")
  /\ (forall pre post,
        (forall k, (k < List.length pre)%nat ->
                   JsString.startsWith openTag (skipn k lastOutput) = false) ->
        (lastOutput = pre ++ js "<promise>DONE</promise>" ++ post ->
           completesByPromise r)
        /\ (lastOutput = pre ++ js "<promise> DONE </promise>" ++ post ->
           completesByPromise r)
        /\ (lastOutput = pre ++ js "<promise>done</promise>" ++ post ->
           ~ completesByPromise r /\ completed r = maxReached s)).
Proof.
  intros Ha Hcp r.
  pose proof (completes_iff_detected w s lastOutput metadata Ha) as Hiff.
  fold r in Hiff. rewrite Hcp in Hiff. split.
  - rewrite Hiff. apply detectCompletion_DONE.
  - intros pre post Hpre.
    assert (Short : forall inner,
              ~ In 60%N inner ->
              forall j, (j < List.length inner)%nat ->
                JsString.startsWith closeTag
                  (skipn j (inner ++ closeTag ++ post)) = false).
    { intros inner Hno j Hj.
      rewrite skipn_app. replace (j - List.length inner)%nat with O by lia.
      cbn [skipn]. destruct (skipn j inner) as [|c rest] eqn:Hsk.
      - apply (f_equal (@List.length _)) in Hsk. rewrite length_skipn in Hsk.
        cbn in Hsk. lia.
      - assert (In c inner) as Hc
          by (rewrite <- (firstn_skipn j inner), Hsk; apply in_or_app;
              right; left; reflexivity).
        change closeTag
          with [60; 47; 112; 114; 111; 109; 105; 115; 101; 62]%N.
        cbn [JsString.startsWith app].
        destruct (N.eqb_spec 60 c) as [<-|]; [contradiction|reflexivity]. }
    split; [|split; [|intros Hs; split]].
    + intros Hs. apply Hiff. unfold detectCompletion.
      change (js "DONE") with [68; 79; 78; 69]%N.
      rewrite (span_of_shape pre (js "DONE") post lastOutput Hpre); auto.
      apply Short. vm_compute. intuition discriminate.
    + intros Hs. apply Hiff. unfold detectCompletion.
      change (js "DONE") with [68; 79; 78; 69]%N.
      rewrite (span_of_shape pre (js " DONE ") post lastOutput Hpre); auto.
      apply Short. vm_compute. intuition discriminate.
    + intros Hc. apply Hiff in Hc. revert Hc. unfold detectCompletion.
      change (js "DONE") with [68; 79; 78; 69]%N.
      rewrite (span_of_shape pre (js "done") post lastOutput Hpre); auto.
      * discriminate.
      * apply Short. vm_compute. intuition discriminate.
    + assert (Hd : detectCompletion (completionPromise s) lastOutput = false).
      { rewrite Hcp. unfold detectCompletion.
        change (js "DONE") with [68; 79; 78; 69]%N.
        rewrite (span_of_shape pre (js "done") post lastOutput Hpre); auto.
        apply Short. vm_compute. intuition discriminate. }
      destruct (maxReached s) eqn:Hm.
      * destruct (step_max w s lastOutput metadata Ha Hd Hm) as (H & _).
        exact H.
      * destruct (step_continue w s lastOutput metadata Ha Hd Hm) as (H & _).
        fold r in H. rewrite H. reflexivity.
Qed.

Lemma C1_first_promise_span_witness :
  let w := run (startLoop (js "task") 0 (Some (js "DONE")) true false)
               idleWorld in
  let s := result (startLoop (js "task") 0 (Some (js "DONE")) true false)
                  idleWorld in
  let lastOutput := js "all green <promise>DONE</promise>" in
  activeState w = Some s
  /\ completionPromise s = Some (js "DONE")
  /\ (completesByPromise (result (processIteration lastOutput None) w) <->
      exists pre inner post,
        FirstSpan lastOutput pre inner post
        /\ JsString.trim inner = js "DONE").
Proof.
  intros w s lastOutput.
  assert (Ha : activeState w = Some s) by (vm_compute; reflexivity).
  assert (Hcp : completionPromise s = Some (js "DONE"))
    by (vm_compute; reflexivity).
  split; [exact Ha|]. split; [exact Hcp|].
  exact (proj1 (C1_first_promise_span w s lastOutput None Ha Hcp)).
Defined.

(** C1 as stated fails: with the promise "DONE", the output
    [<promise> DONE </promise>] does complete the loop, and an output
    that contains [<promise>DONE</promise>] after an earlier span
    does not. *)
Lemma C1_counterexample :
  let w := run (startLoop (js "task") 0 (Some (js "DONE")) true false)
               idleWorld in
  completesByPromise
    (result (processIteration (js "<promise> DONE </promise>") None) w)
  /\ ~ completesByPromise
       (result (processIteration
                  (js "<promise>x</promise><promise>DONE</promise>") None) w).
Proof.
  intros w. unfold completesByPromise. split.
  - split; vm_compute; reflexivity.
  - intros [H _]. vm_compute in H. discriminate.
Qed.

Lemma processAll_throws calls : forall w,
  throws (run (processAll calls) w) = throws w.
Proof.
  induction calls as [|c rest IH]; intros w; [reflexivity|].
  destruct (processAll_cons c rest w) as [_ ->]. rewrite IH.
  apply step_throws.
Qed.




End PromiseClaims.

(** ** The progress analysis *)

Section AnalyzerFacts.
Import Analyzer Obs.

(** *** The frequency map *)

Lemma get_set_same k v m : StrMap.get k (StrMap.set k v m) = Some v.
Proof.
  induction m as [|[k' v'] m IH]; cbn.
  - rewrite (proj2 (eqb_eq k k) eq_refl). reflexivity.
  - destruct (JsString.eqb k k') eqn:E; cbn; rewrite E; auto.
Qed.

Lemma get_set_other k k' v m :
  k <> k' -> StrMap.get k (StrMap.set k' v m) = StrMap.get k m.
Proof.
  intros Hne. induction m as [|[k0 v0] m IH]; cbn.
  - destruct (JsString.eqb k k') eqn:E; auto.
    apply eqb_eq in E. contradiction.
  - destruct (JsString.eqb k' k0) eqn:E; cbn.
    + apply eqb_eq in E. subst k0.
      destruct (JsString.eqb k k') eqn:E2; [|reflexivity].
      apply eqb_eq in E2. contradiction.
    + rewrite IH. reflexivity.
Qed.

Lemma get_In k v m : StrMap.get k m = Some v -> In (k, v) m.
Proof.
  induction m as [|[k' v'] m IH]; cbn; [discriminate|].
  destruct (JsString.eqb k k') eqn:E.
  - apply eqb_eq in E. intros [= ->]. left. congruence.
  - intros H. right. auto.
Qed.

Lemma get_keys k m : In k (map fst m) <-> StrMap.get k m <> None.
Proof.
  induction m as [|[k' v'] m IH]; cbn; [tauto|].
  destruct (JsString.eqb k k') eqn:E.
  - apply eqb_eq in E. split; [discriminate|auto].
  - rewrite <- IH. split; [|auto]. intros [->|H]; auto.
    rewrite (proj2 (eqb_eq k k) eq_refl) in E. discriminate.
Qed.

Lemma keys_set k v m :
  map fst (StrMap.set k v m) =
  match StrMap.get k m with
  | Some _ => map fst m
  | None => map fst m ++ [k]
  end.
Proof.
  induction m as [|[k' v'] m IH]; cbn; [reflexivity|].
  destruct (JsString.eqb k k') eqn:E; cbn; [reflexivity|].
  rewrite IH. destruct (StrMap.get k m); reflexivity.
Qed.

Lemma fold_countError errs : forall freq total,
  fold_left countError errs (freq, total) =
  (fold_left bump (map normalizeError errs) freq,
   total + Z.of_nat (List.length errs)).
Proof.
  induction errs as [|e errs IH]; intros freq total; cbn [fold_left map].
  - cbn. rewrite Z.add_0_r. reflexivity.
  - unfold countError at 2. rewrite IH. unfold bump at 2.
    f_equal. cbn [List.length]. lia.
Qed.

Lemma signatures_cons e rest :
  signatures (e :: rest) = map normalizeError (errorsOf e) ++ signatures rest.
Proof. unfold signatures. cbn. apply map_app. Qed.

Lemma signatures_app h1 h2 :
  signatures (h1 ++ h2) = signatures h1 ++ signatures h2.
Proof. unfold signatures. rewrite flat_map_app. apply map_app. Qed.

Lemma loop_errors len rest : forall i l,
  errorFrequency (loop len i rest l) =
    fold_left bump (signatures rest) (errorFrequency l)
  /\ totalErrors (loop len i rest l) =
    totalErrors l + Z.of_nat (List.length (signatures rest)).
Proof.
  induction rest as [|e rest IH]; intros i l; cbn [loop].
  - cbn. rewrite Z.add_0_r. auto.
  - destruct (IH (i + 1) (visit len i e l)) as [-> ->].
    rewrite signatures_cons, fold_left_app, length_app, length_map.
    unfold visit. rewrite fold_countError. cbn [errorFrequency totalErrors].
    split; [reflexivity|lia].
Qed.

(** After the loop, a signature that occurred at all is mapped to
    its number of occurrences (on top of what the map held). *)
Lemma get_fold_bump sig sigs : forall m,
  StrMap.get sig (fold_left bump sigs m) =
  match count_occ jsstring_eq_dec sigs sig with
  | O => StrMap.get sig m
  | S _ as n =>
      Some (match StrMap.get sig m with Some c => c | None => 0 end
            + Z.of_nat n)
  end.
Proof.
  induction sigs as [|x sigs IH]; intros m; [reflexivity|].
  cbn [fold_left count_occ]. rewrite IH.
  destruct (jsstring_eq_dec x sig) as [->|Hne].
  - unfold bump. rewrite !get_set_same.
    destruct (count_occ jsstring_eq_dec sigs sig); f_equal; lia.
  - unfold bump. rewrite !get_set_other by congruence. reflexivity.
Qed.

Lemma keys_fold_bump sigs : forall m,
  NoDup (map fst m) ->
  NoDup (map fst (fold_left bump sigs m))
  /\ forall k, In k (map fst (fold_left bump sigs m))
               <-> In k (map fst m) \/ In k sigs.
Proof.
  induction sigs as [|x sigs IH]; intros m Hm; cbn [fold_left].
  - split; [assumption|]. cbn. tauto.
  - assert (Hstep : NoDup (map fst (bump m x))
                    /\ forall k, In k (map fst (bump m x))
                                 <-> In k (map fst m) \/ k = x).
    { unfold bump. rewrite keys_set.
      destruct (StrMap.get x m) eqn:G.
      - split; [assumption|]. intros k. split; [auto|].
        intros [H| ->]; [assumption|]. apply get_keys. congruence.
      - split.
        + apply NoDup_app; [assumption|repeat constructor; cbn; tauto|].
          intros k Hk [<-|[]]. apply get_keys in Hk. congruence.
        + intros k. rewrite in_app_iff. cbn. intuition congruence. }
    destruct Hstep as [Hnd Hin]. destruct (IH _ Hnd) as [Hnd' Hin'].
    split; [assumption|]. intros k. rewrite Hin', Hin. cbn.
    intuition congruence.
Qed.

Lemma size_fold_bump sigs :
  StrMap.size (fold_left bump sigs []) =
  Z.of_nat (List.length (nodup jsstring_eq_dec sigs)).
Proof.
  destruct (keys_fold_bump sigs [] (NoDup_nil _)) as [Hnd Hin].
  unfold StrMap.size. f_equal.
  rewrite <- (length_map fst).
  apply Permutation_length, NoDup_Permutation.
  - assumption.
  - apply NoDup_nodup.
  - intros k. rewrite Hin, nodup_In. cbn. tauto.
Qed.

Lemma findRepeated_In sig freq v :
  StrMap.get sig freq = Some v -> 3 <= v -> In sig (findRepeated freq).
Proof.
  intros Hget Hv. unfold findRepeated.
  change sig with (fst (sig, v)). apply in_map. apply filter_In.
  split; [apply get_In, Hget|]. cbn. apply Z.leb_le, Hv.
Qed.

End AnalyzerFacts.

(** ** The tokens of an error message *)

(** Discharges [tokenized] for a message that is given piece by
    piece. *)
Ltac in_text tac :=
  let c := fresh "c" in
  let Hc := fresh "Hc" in
  intros c Hc; vm_compute in Hc;
  repeat (destruct Hc as [<-|Hc]; [tac|]);
  contradiction.

Ltac fits_pieces :=
  cbn [Obs.tokenized Obs.fits];
  repeat match goal with
         | |- _ /\ _ => split
         | |- True => exact I
         | |- Obs.numeral _ => split
         | |- forall c, In c _ -> _ /\ _ =>
             in_text ltac:(split; [discriminate|reflexivity])
         | |- forall c, In c _ -> _ = _ => in_text ltac:(reflexivity)
         | |- _ <> _ => discriminate
         | |- _ = _ => reflexivity
         end.

Section Tokens.
Import Obs.

Lemma digitRun_app ds rest :
  forallb isDigit ds = true ->
  match rest with [] => True | c :: _ => isDigit c = false end ->
  digitRun (ds ++ rest) = List.length ds.
Proof.
  intros Hds Hrest. induction ds as [|d ds IH].
  - destruct rest as [|c rest]; cbn; [reflexivity|]. rewrite Hrest.
    reflexivity.
  - cbn in Hds |- *. apply andb_prop in Hds as [Hd Hds]. rewrite Hd.
    f_equal. apply IH, Hds.
Qed.

Lemma nonSpaceRun_app p rest :
  (forall c, In c p -> isWhiteSpace c = false) ->
  endsPath rest = true ->
  nonSpaceRun (p ++ rest) = List.length p.
Proof.
  intros Hp Hrest. induction p as [|c p IH].
  - destruct rest as [|c rest]; cbn in *; [reflexivity|]. rewrite Hrest.
    reflexivity.
  - cbn. rewrite (Hp c (or_introl eq_refl)). f_equal.
    apply IH. intros x Hx. apply Hp. right. exact Hx.
Qed.

Lemma lastUnit_app prev a b :
  lastUnit prev (a ++ b) = lastUnit (lastUnit prev a) b.
Proof. apply fold_left_app. Qed.

(** No alternative matches at a code unit that is neither a slash
    nor a digit. *)
Lemma errorTokenAt_other prev c s :
  N.eqb c 47 = false -> isDigit c = false ->
  errorTokenAt prev (c :: s) = None.
Proof.
  intros H47 Hd. unfold errorTokenAt, altPath, altLineCol, altInteger.
  rewrite H47. cbn [digitRun]. rewrite Hd.
  destruct (wordBoundary _ _); reflexivity.
Qed.

(** None matches at a slash before white space or the end. *)
Lemma errorTokenAt_slash prev after :
  endsPath after = true -> errorTokenAt prev (47%N :: after) = None.
Proof.
  intros Hend. unfold errorTokenAt, altPath, altLineCol, altInteger.
  change (N.eqb 47%N 47%N) with true. cbv iota.
  assert (Hrun : nonSpaceRun after = O).
  { destruct after as [|c after]; [reflexivity|]. cbn in *.
    rewrite Hend. reflexivity. }
  rewrite Hrun. cbn [digitRun]. change (isDigit 47%N) with false.
  cbv iota. destruct (wordBoundary _ _); reflexivity.
Qed.

(** A text without slash and digit is copied. *)
Lemma replaceTokens_free pre : forall prev rest,
  (forall c, In c pre -> c <> 47%N /\ isDigit c = false) ->
  replaceTokens prev O (pre ++ rest)
  = pre ++ replaceTokens (lastUnit prev pre) O rest.
Proof.
  induction pre as [|c pre IH]; intros prev rest Hfree; [reflexivity|].
  destruct (Hfree c (or_introl eq_refl)) as [H47 Hd].
  apply N.eqb_neq in H47.
  cbn [app replaceTokens]. rewrite (errorTokenAt_other prev c _ H47 Hd).
  rewrite IH by (intros x Hx; apply Hfree; right; exact Hx).
  reflexivity.
Qed.

(** The code units of a match are passed over. *)
Lemma replaceTokens_skip tok : forall prev rest,
  replaceTokens prev (List.length tok) (tok ++ rest)
  = replaceTokens (lastUnit prev tok) O rest.
Proof.
  induction tok as [|c tok IH]; intros prev rest.
  - cbn. destruct rest; reflexivity.
  - cbn [List.length app replaceTokens]. apply IH.
Qed.

(** A match at the start of [tok ++ rest] that covers [tok] is
    replaced by the placeholder. *)
Lemma replaceTokens_token prev tok rest :
  tok <> [] ->
  errorTokenAt prev (tok ++ rest) = Some (List.length tok) ->
  replaceTokens prev O (tok ++ rest)
  = placeholder ++ replaceTokens (lastUnit prev tok) O rest.
Proof.
  intros Hne Hat. destruct tok as [|c tok]; [contradiction|].
  cbn [app replaceTokens]. cbn [app] in Hat. rewrite Hat.
  cbn [List.length]. rewrite replaceTokens_skip. reflexivity.
Qed.

Lemma numeral_head n :
  numeral n -> exists d rest, n = d :: rest /\ isDigit d = true
                              /\ forallb isDigit rest = true.
Proof.
  intros [Hne Hall]. destruct n as [|d rest]; [contradiction|].
  cbn in Hall. apply andb_prop in Hall as [Hd Hrest]. eauto.
Qed.

Lemma digit_not_slash d : isDigit d = true -> N.eqb d 47 = false.
Proof.
  unfold isDigit. intros H. apply andb_prop in H as [H _].
  apply N.leb_le in H. apply N.eqb_neq. lia.
Qed.

Lemma digit_is_word d : isDigit d = true -> isWord d = true.
Proof. intros H. unfold isWord. rewrite H. reflexivity. Qed.

Lemma no_digit_next after :
  startsWithDigit after = false ->
  match after with [] => True | c :: _ => isDigit c = false end.
Proof. destruct after as [|c after]; [auto|]. intros H. exact H. Qed.

Lemma not_word_not_digit after :
  startsWithWord after = false -> startsWithDigit after = false.
Proof.
  destruct after as [|c after]; [reflexivity|]. cbn. unfold isWord.
  destruct (isDigit c); [discriminate|reflexivity].
Qed.

(** The three alternatives, each at the start of a token. *)
Lemma errorTokenAt_path prev p after :
  p <> [] -> (forall c, In c p -> isWhiteSpace c = false) ->
  endsPath after = true ->
  errorTokenAt prev ((47%N :: p) ++ after)
  = Some (List.length (47%N :: p)).
Proof.
  intros Hne Hp Hafter. unfold errorTokenAt, altPath. cbn [app].
  change (N.eqb 47%N 47%N) with true. cbv iota.
  rewrite nonSpaceRun_app by assumption.
  destruct p as [|c p]; [contradiction|]. reflexivity.
Qed.

Lemma errorTokenAt_lineColumn prev line column after :
  numeral line -> numeral column -> startsWithDigit after = false ->
  errorTokenAt prev ((line ++ [58%N] ++ column) ++ after)
  = Some (List.length (line ++ [58%N] ++ column)).
Proof.
  intros Hl Hc Ha.
  destruct (numeral_head line Hl) as (d & l' & -> & Hd & Hl').
  destruct (numeral_head column Hc) as (e & c' & -> & He & Hc').
  assert (Hrun1 : digitRun ((d :: l') ++ 58%N :: (e :: c') ++ after)
                  = List.length (d :: l')).
  { apply digitRun_app; [cbn; rewrite Hd; exact Hl'|reflexivity]. }
  assert (Hrun2 : digitRun ((e :: c') ++ after) = List.length (e :: c')).
  { apply digitRun_app; [cbn; rewrite He; exact Hc'|].
    apply no_digit_next, Ha. }
  replace (((d :: l') ++ [58%N] ++ e :: c') ++ after)
    with ((d :: l') ++ 58%N :: (e :: c') ++ after)
    by (rewrite <- !app_assoc; reflexivity).
  unfold errorTokenAt.
  assert (Hpath : altPath ((d :: l') ++ 58%N :: (e :: c') ++ after) = None)
    by (cbn; rewrite (digit_not_slash d Hd); reflexivity).
  rewrite Hpath. unfold altLineCol. rewrite Hrun1.
  cbn [List.length].
  change (S (List.length l')) with (List.length (d :: l')).
  rewrite skipn_app, Nat.sub_diag, skipn_all. cbn [app skipn].
  change (N.eqb 58%N 58%N) with true. cbv iota.
  change (e :: c' ++ after) with ((e :: c') ++ after).
  rewrite Hrun2. cbn [List.length]. rewrite length_app.
  cbn [List.length]. apply f_equal. lia.
Qed.

Lemma altLineCol_integer n after :
  numeral n -> startsWithDigit after = false ->
  startsWithColumn after = false ->
  altLineCol (n ++ after) = None.
Proof.
  intros Hn Ha Hcol.
  destruct (numeral_head n Hn) as (d & n' & -> & Hd & Hn').
  unfold altLineCol.
  rewrite (digitRun_app (d :: n') after);
    [|cbn; rewrite Hd; exact Hn'|apply no_digit_next, Ha].
  cbn [List.length].
  change (S (List.length n')) with (List.length (d :: n')).
  rewrite skipn_app, Nat.sub_diag, skipn_all. cbn [app skipn].
  destruct after as [|c after]; [reflexivity|].
  destruct (N.eqb c 58) eqn:E; [|reflexivity].
  assert (Hrest : digitRun after = O).
  { destruct after as [|c' after]; [reflexivity|]. cbn in Hcol |- *.
    rewrite E in Hcol. cbn in Hcol. rewrite Hcol. reflexivity. }
  rewrite Hrest. reflexivity.
Qed.

Lemma errorTokenAt_integer prev n after :
  numeral n -> startsWithDigit after = false ->
  startsWithColumn after = false ->
  errorTokenAt prev (n ++ after)
  = if negb (wordBefore prev) && negb (startsWithWord after)
    then Some (List.length n) else None.
Proof.
  intros Hn Ha Hcol. unfold errorTokenAt.
  rewrite (altLineCol_integer n after Hn Ha Hcol).
  destruct (numeral_head n Hn) as (d & n' & -> & Hd & Hn').
  unfold altPath. cbn [app]. rewrite (digit_not_slash d Hd).
  unfold altInteger, wordBoundary. cbn [hd_error].
  rewrite (digit_is_word d Hd).
  change (d :: n' ++ after) with ((d :: n') ++ after).
  rewrite (digitRun_app (d :: n') after);
    [|cbn; rewrite Hd; exact Hn'|apply no_digit_next, Ha].
  cbn [List.length].
  change (S (List.length n')) with (List.length (d :: n')).
  rewrite skipn_app, Nat.sub_diag, skipn_all. cbn [app skipn].
  change (isWord 48%N) with true.
  assert (Hhd : match hd_error after with
                | Some c => isWord c | None => false end
                = startsWithWord after)
    by (destruct after; reflexivity).
  rewrite Hhd. unfold wordBefore.
  destruct (match prev with Some c => isWord c | None => false end);
    destruct (startsWithWord after); reflexivity.
Qed.

(** Digits next to a word character are copied. *)
Lemma replaceTokens_embedded n : forall prev after,
  forallb isDigit n = true ->
  startsWithDigit after = false -> startsWithColumn after = false ->
  wordBefore prev || startsWithWord after = true ->
  replaceTokens prev O (n ++ after)
  = n ++ replaceTokens (lastUnit prev n) O after.
Proof.
  induction n as [|d n IH]; intros prev after Hn Ha Hcol Hword;
    [reflexivity|].
  cbn in Hn. apply andb_prop in Hn as [Hd Hn].
  assert (Hat : errorTokenAt prev ((d :: n) ++ after) = None).
  { rewrite errorTokenAt_integer;
      [|split; [discriminate|cbn; rewrite Hd; exact Hn]|exact Ha
       |exact Hcol].
    apply orb_prop in Hword. destruct Hword as [-> | ->];
      [reflexivity|]. cbn [negb]. rewrite andb_false_r. reflexivity. }
  cbn [app] in Hat. cbn [app replaceTokens]. rewrite Hat.
  rewrite IH; [reflexivity|exact Hn|exact Ha|exact Hcol|].
  cbn. rewrite (digit_is_word d Hd). reflexivity.
Qed.

(** The replacement, piece by piece. *)
Lemma replaceTokens_pieces pieces : forall prev,
  tokenized prev pieces ->
  replaceTokens prev O (message pieces) = replacedMessage pieces.
Proof.
  induction pieces as [|p rest IH]; intros prev Hfit; [reflexivity|].
  destruct Hfit as [Hp Hrest]. specialize (IH _ Hrest).
  change (message (p :: rest)) with (written p ++ message rest).
  change (replacedMessage (p :: rest))
    with (replaced p ++ replacedMessage rest).
  destruct p as [text| |path|line column|n|n]; cbn [fits] in Hp;
    cbn [written replaced] in *.
  - rewrite replaceTokens_free by exact Hp. rewrite IH. reflexivity.
  - cbn [app replaceTokens].
    match goal with
    | |- context [errorTokenAt ?a ?b] =>
        replace (errorTokenAt a b) with (@None nat)
          by (symmetry; apply errorTokenAt_slash; exact Hp)
    end.
    cbn [lastUnit fold_left] in IH. rewrite IH. reflexivity.
  - destruct Hp as (Hne & Hws & Hend).
    rewrite (replaceTokens_token prev (47%N :: path));
      [|discriminate|apply errorTokenAt_path; assumption].
    rewrite IH. reflexivity.
  - destruct Hp as (Hl & Hc & Hd).
    rewrite (replaceTokens_token prev (line ++ [58%N] ++ column));
      [|destruct Hl as [Hl _]; destruct line; [contradiction|discriminate]
       |apply errorTokenAt_lineColumn; assumption].
    rewrite IH. reflexivity.
  - destruct Hp as (Hn & Hb & Ha & Hcol).
    rewrite (replaceTokens_token prev n); [|apply Hn|].
    + rewrite IH. reflexivity.
    + rewrite (errorTokenAt_integer prev n _ Hn
                 (not_word_not_digit _ Ha) Hcol).
      rewrite Hb, Ha. reflexivity.
  - destruct Hp as (Hn & Hw & Hd & Hcol).
    rewrite (replaceTokens_embedded n prev _ (proj2 Hn) Hd Hcol Hw).
    rewrite IH. reflexivity.
Qed.

End Tokens.

(** ** Claims about repeated errors *)

Section RepeatedErrors.
Import Analyzer Obs.

Lemma flagSimilar_repeated l m :
  repeatedErrors (flagSimilar l m) = repeatedErrors m.
Proof.
  unfold flagSimilar. destruct (_ =? _)%nat; [|reflexivity].
  destruct (_ && _); reflexivity.
Qed.

Lemma flagRepeated_repeated m :
  repeatedErrors (flagRepeated m) = repeatedErrors m.
Proof.
  unfold flagRepeated. destruct (repeatedErrors m) eqn:E; cbn; congruence.
Qed.

Lemma flagSimilar_keeps_flag l m :
  stagnationDetected m = true -> stagnationDetected (flagSimilar l m) = true.
Proof.
  unfold flagSimilar. destruct (_ =? _)%nat; [|auto].
  destruct (_ && _); auto.
Qed.

Lemma analyze_repeatedErrors history :
  (3 <= List.length history)%nat ->
  repeatedErrors (analyze history) =
  findRepeated (fold_left bump (signatures history) []).
Proof.
  intros Hlen. unfold analyze.
  destruct (Z.ltb_spec (Z.of_nat (List.length history)) 3); [lia|].
  cbn [repeatedErrors]. rewrite flagSimilar_repeated, flagRepeated_repeated.
  cbn [repeatedErrors].
  destruct (loop_errors (Z.of_nat (List.length history)) history 0 locals0)
    as [-> _].
  reflexivity.
Qed.

Lemma analyze_repeated_flag history :
  (3 <= List.length history)%nat ->
  repeatedErrors (analyze history) <> [] ->
  stagnationDetected (analyze history) = true.
Proof.
  intros Hlen Hne. rewrite analyze_repeatedErrors in Hne by assumption.
  unfold analyze.
  destruct (Z.ltb_spec (Z.of_nat (List.length history)) 3); [lia|].
  cbn [stagnationDetected]. apply flagSimilar_keeps_flag.
  destruct (loop_errors (Z.of_nat (List.length history)) history 0 locals0)
    as [E _].
  unfold flagRepeated. cbn [repeatedErrors]. rewrite E.
  destruct (findRepeated _); [contradiction|reflexivity].
Qed.

(** A signature with three or more occurrences in total is reported
    and flags stagnation. *)
Lemma three_occurrences history sig :
  (3 <= List.length history)%nat ->
  (3 <= occurrences sig history)%nat ->
  stagnationDetected (analyze history) = true
  /\ In sig (repeatedErrors (analyze history)).
Proof.
  intros Hlen Hocc.
  assert (Hin : In sig (repeatedErrors (analyze history))).
  { rewrite analyze_repeatedErrors by assumption.
    pose proof (get_fold_bump sig (signatures history) []) as Hget.
    unfold occurrences in Hocc.
    destruct (count_occ jsstring_eq_dec (signatures history) sig) as [|n] eqn:E;
      [lia|].
    eapply findRepeated_In; [exact Hget|]. cbn [StrMap.get]. lia. }
  split; [|exact Hin].
  apply analyze_repeated_flag; [assumption|].
  intros H. rewrite H in Hin. destruct Hin.
Qed.

Lemma mentions_occurs sig e :
  mentions sig e ->
  (1 <= count_occ jsstring_eq_dec (map normalizeError (errorsOf e)) sig)%nat.
Proof. intros H. apply (count_occ_In jsstring_eq_dec) in H. lia. Qed.

Lemma occurrences_app sig h1 h2 :
  occurrences sig (h1 ++ h2) = (occurrences sig h1 + occurrences sig h2)%nat.
Proof. unfold occurrences. rewrite signatures_app. apply count_occ_app. Qed.

Lemma occurrences_cons sig e h :
  occurrences sig (e :: h) =
  (count_occ jsstring_eq_dec (map normalizeError (errorsOf e)) sig
   + occurrences sig h)%nat.
Proof. unfold occurrences. rewrite signatures_cons. apply count_occ_app. Qed.

(** C7. The two messages "Error at /a/b.js:10:4" and
    "Error at /x/y.js:99:1" have the same normalized signature,
    "Error at <n>".  In general, in a message given piece by piece,
    every path - a slash and the code units up to the next white
    space -, every line:column pair and every standalone integer is
    replaced by the placeholder "<n>", while a text with neither slash
    nor digit, a slash on its own and digits next to a word character
    are kept; the result is then trimmed.  Whenever a signature
    occurs in the error lists of three distinct records of the
    history, [analyze] returns [stagnationDetected = true] and lists
    the signature in [repeatedErrors]. *)
Theorem C7_error_normalization :
  normalizeError (js "Error at /a/b.js:10:4") = js "Error at <n>"
  /\ normalizeError (js "Error at /x/y.js:99:1") = js "Error at <n>"
  /\ (forall pieces,
        tokenized None pieces ->
        normalizeError (message pieces) = trim (replacedMessage pieces))
  /\ forall sig h0 e1 h1 e2 h2 e3 h3,
       mentions sig e1 -> mentions sig e2 -> mentions sig e3 ->
       let history := h0 ++ e1 :: h1 ++ e2 :: h2 ++ e3 :: h3 in
       stagnationDetected (analyze history) = true
       /\ In sig (repeatedErrors (analyze history)).
Proof.
  split; [vm_compute; reflexivity|]. split; [vm_compute; reflexivity|].
  split.
  { intros pieces Hfit. unfold normalizeError.
    rewrite (replaceTokens_pieces pieces None Hfit). reflexivity. }
  intros sig h0 e1 h1 e2 h2 e3 h3 M1 M2 M3 history.
  apply mentions_occurs in M1, M2, M3.
  apply three_occurrences.
  - subst history. rewrite !length_app. cbn [List.length].
    rewrite !length_app. cbn [List.length]. rewrite !length_app.
    cbn [List.length]. lia.
  - subst history.
    rewrite occurrences_app, occurrences_cons, occurrences_app,
      occurrences_cons, occurrences_app, occurrences_cons.
    lia.
Qed.

Lemma C7_error_normalization_witness :
  let e1 := record 1 (js "a") (Some [js "Error at /a/b.js:10:4"]) in
  let e2 := record 2 (js "bb") (Some [js "Error at /x/y.js:99:1"]) in
  let e3 := record 3 (js "cccc") (Some [js "Error at /a/b.js:12:1"]) in
  let sig := js "Error at <n>" in
  let history := [] ++ e1 :: [] ++ e2 :: [] ++ e3 :: [] in
  (mentions sig e1 /\ mentions sig e2 /\ mentions sig e3
   /\ stagnationDetected (analyze history) = true
   /\ In sig (repeatedErrors (analyze history)))
  /\ tokenized None sampleMessage
  /\ normalizeError
       (js "  /usr/lib/x.js failed at 12:7 with code 137, sha256 / ")
     = js "<n> failed at <n> with code <n>, sha256 /".
Proof.
  intros e1 e2 e3 sig history.
  assert (M1 : mentions sig e1) by (left; vm_compute; reflexivity).
  assert (M2 : mentions sig e2) by (left; vm_compute; reflexivity).
  assert (M3 : mentions sig e3) by (left; vm_compute; reflexivity).
  assert (Hfit : tokenized None sampleMessage)
    by (unfold sampleMessage; fits_pieces).
  split; [|split; [exact Hfit|]].
  - split; [exact M1|]. split; [exact M2|]. split; [exact M3|].
    exact (proj2 (proj2 (proj2 C7_error_normalization))
                 sig [] e1 [] e2 [] e3 [] M1 M2 M3).
  - exact (proj1 (proj2 (proj2 C7_error_normalization))
                 sampleMessage Hfit).
Defined.

(** C10. The threshold counts occurrences, not iterations: if the
    error list of a single record of a history of length at least 3
    holds three messages with the same normalized signature, that
    signature is in [repeatedErrors] and [stagnationDetected] is
    [true] - whatever the other records carry. *)
Theorem C10_occurrences_not_iterations history entry sig :
  (3 <= List.length history)%nat ->
  In entry history ->
  (3 <= count_occ jsstring_eq_dec
          (map normalizeError (errorsOf entry)) sig)%nat ->
  In sig (repeatedErrors (analyze history))
  /\ stagnationDetected (analyze history) = true.
Proof.
  intros Hlen Hin Hthree.
  destruct (in_split _ _ Hin) as (h1 & h2 & ->).
  assert (3 <= occurrences sig (h1 ++ entry :: h2))%nat
    by (rewrite occurrences_app, occurrences_cons; lia).
  destruct (three_occurrences _ sig Hlen H). auto.
Qed.

Lemma C10_occurrences_not_iterations_witness :
  let noisy :=
    record 2 (js "second try")
           (Some [js "Error at /a/b.js:10:4"; js "Error at /x/y.js:99:1";
                  js "Error at /src/main.ts:7:21"]) in
  let history := [record 1 (js "first try") None; noisy;
                  record 3 (js "third try, much longer output") None] in
  let sig := js "Error at <n>" in
  (3 <= List.length history)%nat
  /\ In noisy history
  /\ (3 <= count_occ jsstring_eq_dec
            (map normalizeError (errorsOf noisy)) sig)%nat
  /\ In sig (repeatedErrors (analyze history))
  /\ stagnationDetected (analyze history) = true.
Proof.
  intros noisy history sig.
  assert (H1 : (3 <= List.length history)%nat) by (cbn; lia).
  assert (H2 : In noisy history) by (right; left; reflexivity).
  assert (H3 : (3 <= count_occ jsstring_eq_dec
                      (map normalizeError (errorsOf noisy)) sig)%nat)
    by (vm_compute; lia).
  split; [exact H1|]. split; [exact H2|]. split; [exact H3|].
  exact (C10_occurrences_not_iterations history noisy sig H1 H2 H3).
Defined.

End RepeatedErrors.

(** ** Claims about starting a loop *)

Section StartClaims.
Import Manager Server Obs.

Variable getTemplate : jsstring -> option LoopTemplate.

Lemma trim_blank p :
  forallb JsString.isWhiteSpace p = true -> JsString.trim p = [].
Proof.
  intros H. unfold JsString.trim.
  assert (JsString.trimStart p = []) as ->.
  { induction p as [|c p IH]; [reflexivity|]. cbn in H |- *.
    apply andb_true_iff in H as [-> H]. auto. }
  reflexivity.
Qed.

Lemma trimStart_nil p :
  JsString.trimStart p = [] -> forallb JsString.isWhiteSpace p = true.
Proof.
  induction p as [|c p IH]; [reflexivity|]. cbn.
  destruct (JsString.isWhiteSpace c); [auto|discriminate].
Qed.

Lemma invalidMaxIterations_spec v :
  invalidMaxIterations v = false <-> exists n, nonNegativeInteger v n.
Proof.
  unfold nonNegativeInteger. split.
  - destruct v as [| |b|x|s|]; try discriminate.
    unfold invalidMaxIterations, Num.ltb, Num.zero, SFltb, SFcompare,
      Num.isInteger.
    destruct x as [s|[|]| |[|] m e]; cbn [orb negb]; try discriminate.
    + intros _. exists 0, (S754_zero s). repeat split; lia.
    + intros Hint. apply negb_false_iff in Hint.
      unfold integerValue.
      destruct (0 <=? e) eqn:He; cbn [orb] in Hint.
      * exists (Z.pos m * 2 ^ e), (S754_finite false m e).
        split; [reflexivity|]. cbn [integerValue]. rewrite He.
        split; [reflexivity|]. apply Z.leb_le in He.
        pose proof (Z.pow_nonneg 2 e ltac:(lia)). nia.
      * exists (Z.pos m / 2 ^ (- e)), (S754_finite false m e).
        split; [reflexivity|]. cbn [integerValue]. rewrite He, Hint.
        split; [reflexivity|].
        assert (0 <= Z.pos m / 2 ^ (- e))
          by (apply Z.div_pos; [lia|apply Z.pow_pos_nonneg; lia]).
        lia.
  - intros (n & x & -> & Hx & Hn).
    unfold invalidMaxIterations, Num.ltb, Num.zero, SFltb, SFcompare,
      Num.isInteger.
    destruct x as [s|s| |[|] m e]; cbn [integerValue] in Hx;
      try discriminate.
    + reflexivity.
    + exfalso. destruct (0 <=? e) eqn:He.
      * assert (n = - (Z.pos m * 2 ^ e)) as -> by congruence.
        apply Z.leb_le in He.
        pose proof (Z.pow_pos_nonneg 2 e ltac:(lia) He). nia.
      * destruct (Z.pos m mod 2 ^ (- e) =? 0) eqn:Hm; [|discriminate].
        assert (n = - (Z.pos m / 2 ^ (- e))) as -> by congruence.
        apply Z.leb_gt in He. apply Z.eqb_eq in Hm.
        assert (0 < 2 ^ (- e)) by (apply Z.pow_pos_nonneg; lia).
        assert (0 < Z.pos m / 2 ^ (- e)).
        { apply Z.div_str_pos. split; [assumption|].
          apply Z.mod_divide in Hm; [|lia].
          apply Z.divide_pos_le in Hm; lia. }
        lia.
    + cbn [orb]. apply negb_false_iff.
      destruct (0 <=? e); [reflexivity|]. cbn [orb].
      destruct (Z.pos m mod 2 ^ (- e) =? 0); [reflexivity|discriminate].
Qed.

Lemma toZ_integerValue x n : integerValue x = Some n -> Num.toZ x = n.
Proof.
  unfold integerValue, Num.toZ. destruct x as [s|s| |s m e];
    try discriminate.
  - intros [= <-]. reflexivity.
  - cbv zeta beta. destruct (0 <=? e).
    + intros H. injection H as <-. reflexivity.
    + destruct (_ =? 0); [|discriminate].
      intros H. injection H as <-. reflexivity.
Qed.

Lemma resolve_noTemplate args :
  noTemplate args ->
  resolve getTemplate args =
  inr (arg_prompt args, maxIterationsArg args,
       withDefault (arg_completion_promise args) VNull,
       withDefault (arg_git_enabled args) (VBool true),
       withDefault (arg_auto_commit args) (VBool false)).
Proof.
  unfold noTemplate, resolve, maxIterationsArg.
  destruct (arg_template_id args) as [| |b|x|[|c id]|]; tauto.
Qed.

(** Every [throw] of the handler precedes any effect. *)
Lemma handleRalphLoop_throw args w e :
  result (handleRalphLoop getTemplate args) w = Threw e ->
  run (handleRalphLoop getTemplate args) w = w.
Proof.
  unfold handleRalphLoop, result, run.
  destruct (resolve getTemplate args) as [err|[[[[fp fm] fc] fg] fa]];
    [reflexivity|].
  destruct (negb (truthy fp)); [reflexivity|].
  destruct fp as [| |b|x|p|]; try reflexivity.
  destruct (JsString.eqb (JsString.trim p) []); [reflexivity|].
  destruct (invalidMaxIterations fm); [reflexivity|].
  destruct (invalidCompletionPromise fc); [reflexivity|].
  unfold bind, isLoopActive. cbn [fst snd].
  destruct (activeState w); cbn [fst snd]; [discriminate|].
  destruct (startLoop _ _ _ _ _ w). cbn. discriminate.
Qed.

(** C5, as the code has it.  [RalphLoopManager.startLoop] validates
    nothing: for every prompt and every [maxIterations] it creates an
    active state with iteration 1 and an empty history.  The checks
    are made by its caller [handleRalphLoop]: when the request selects
    no template, it throws - before any effect, so no loop is created
    and nothing changes - for every prompt that is empty or
    white-space only and for every [max_iterations] that is not a
    non-negative integer; for a non-blank prompt, a non-negative
    integer [max_iterations] and a string-or-null promise it calls
    [startLoop], which yields an active state with iteration 1 and an
    empty history, unless a loop is already active, in which case it
    returns a notice and changes nothing. *)
Theorem C5_validation_in_handler :
  (forall w p m cp g a,
     let s := result (startLoop p m cp g a) w in
     activeState (run (startLoop p m cp g a) w) = Some s
     /\ iteration s = 1 /\ history s = []
     /\ prompt s = p /\ maxIterations s = m)
  /\ (forall args w,
        noTemplate args ->
        blankPrompt (arg_prompt args)
        \/ ~ (exists n, nonNegativeInteger (maxIterationsArg args) n) ->
        exists e, handleRalphLoop getTemplate args w = (Threw e, w))
  /\ (forall args w p n cp,
        noTemplate args ->
        arg_prompt args = VString p -> JsString.trim p <> [] ->
        nonNegativeInteger (maxIterationsArg args) n ->
        promiseArg args = Some cp ->
        (activeState w = None ->
           exists s,
             result (handleRalphLoop getTemplate args) w = Activated s
             /\ activeState (run (handleRalphLoop getTemplate args) w) = Some s
             /\ iteration s = 1 /\ history s = []
             /\ prompt s = p /\ maxIterations s = n
             /\ completionPromise s = cp)
        /\ (activeState w <> None ->
            handleRalphLoop getTemplate args w = (AlreadyActive, w))).
Proof.
  split; [|split].
  - intros w p m cp g a s.
    destruct (startLoop_state w p m cp g a) as (_ & Ha & _ & Hi & Hh & Hp & Hm & _).
    auto.
  - intros args w Hno Hbad. unfold handleRalphLoop.
    rewrite (resolve_noTemplate args Hno).
    destruct Hbad as [(p & -> & Hblank)|Hmax].
    + destruct p as [|c p]; cbn [truthy negb]; [eexists; reflexivity|].
      rewrite (trim_blank _ Hblank). cbn [JsString.eqb].
      eexists; reflexivity.
    + assert (Hinv : invalidMaxIterations (maxIterationsArg args) = true).
      { destruct (invalidMaxIterations (maxIterationsArg args)) eqn:E;
          [reflexivity|].
        exfalso. apply Hmax. apply invalidMaxIterations_spec. exact E. }
      destruct (negb (truthy (arg_prompt args))); [eexists; reflexivity|].
      destruct (arg_prompt args) as [| |b|x|p|]; try (eexists; reflexivity).
      destruct (JsString.eqb (JsString.trim p) []); [eexists; reflexivity|].
      rewrite Hinv. eexists; reflexivity.
  - intros args w p n cp Hno Hp Htrim (x & Hx & Hint & Hn) Hcp.
    assert (Hvalid : invalidMaxIterations (maxIterationsArg args) = false)
      by (apply invalidMaxIterations_spec; exists n, x; auto).
    assert (Hprompt : truthy (VString p) = true /\
                      JsString.eqb (JsString.trim p) [] = false).
    { split.
      - destruct p; [contradiction Htrim; reflexivity|reflexivity].
      - destruct (JsString.eqb (JsString.trim p) []) eqn:E; [|reflexivity].
        apply eqb_eq in E. contradiction. }
    destruct Hprompt as [Ht He].
    assert (Hpromise :
              invalidCompletionPromise
                (withDefault (arg_completion_promise args) VNull) = false
              /\ match withDefault (arg_completion_promise args) VNull with
                 | VString c => Some c
                 | _ => None
                 end = cp).
    { unfold promiseArg in Hcp.
      destruct (arg_completion_promise args); cbn in *; split; congruence. }
    destruct Hpromise as [Hpv Hpc].
    unfold handleRalphLoop, result, run.
    rewrite (resolve_noTemplate args Hno), Hp, Ht. cbn [negb].
    rewrite He, Hvalid, Hpv. unfold bind, isLoopActive. cbn [fst snd].
    split.
    + intros Hidle. rewrite Hidle. rewrite Hx, Hpc, (toZ_integerValue _ _ Hint).
      destruct (startLoop_state w p n cp
                  (truthy (withDefault (arg_git_enabled args) (VBool true)))
                  (truthy (withDefault (arg_auto_commit args) (VBool false))))
        as (_ & Ha & _ & Hi & Hh & Hpr & Hm & Hc & _).
      unfold result, run in *.
      destruct (startLoop p n cp _ _ w) as [s w']. cbn [fst snd ret] in *.
      exists s. auto 10.
    + intros Hbusy. destruct (activeState w); [reflexivity|contradiction].
Qed.

End StartClaims.

Lemma C5_validation_in_handler_witness :
  let args := {| arg_prompt := VString (js "   ");
                 arg_template_id := VUndefined;
                 arg_max_iterations := VNumber (Num.ofZ 5);
                 arg_completion_promise := VNull;
                 arg_git_enabled := VUndefined;
                 arg_auto_commit := VUndefined |} in
  Obs.noTemplate args
  /\ Obs.blankPrompt (arg_prompt args)
  /\ exists e,
       Server.handleRalphLoop (fun _ => None) args Obs.idleWorld
       = (Threw e, Obs.idleWorld).
Proof.
  intros args.
  assert (H1 : Obs.noTemplate args) by exact I.
  assert (H2 : Obs.blankPrompt (arg_prompt args))
    by (exists (js "   "); split; reflexivity).
  split; [exact H1|]. split; [exact H2|].
  exact (proj1 (proj2 (C5_validation_in_handler (fun _ => None)))
               args Obs.idleWorld H1 (or_introl H2)).
Defined.

(** C5 as stated fails: [startLoop] itself raises nothing; called with
    a white-space prompt and a negative [maxIterations] it creates an
    active loop. *)
Lemma C5_counterexample :
  let w := run (Manager.startLoop (js "   ") (-1) None true false)
               Obs.idleWorld in
  exists s,
    Manager.activeState w = Some s
    /\ prompt s = js "   " /\ maxIterations s = -1
    /\ iteration s = 1 /\ history s = [].
Proof. intros w. eexists. vm_compute. repeat split. Qed.


(** ** Facts about binary64 rounding *)

Section FloatFacts.
Import Obs.


Lemma fexp_eq e : fexp 53 1024 e = Z.max (e - 53) (-1074).
Proof. reflexivity. Qed.

Lemma digits2_pos_spec p :
  2 ^ (Z.pos (digits2_pos p) - 1) <= Z.pos p < 2 ^ Z.pos (digits2_pos p).
Proof.
  induction p as [p IH|p IH|]; cbn [digits2_pos].
  - rewrite Pos2Z.inj_succ.
    replace (Z.succ (Z.pos (digits2_pos p)) - 1) with (Z.succ (Z.pos (digits2_pos p) - 1)) by lia.
    rewrite !Z.pow_succ_r by lia. lia.
  - rewrite Pos2Z.inj_succ.
    replace (Z.succ (Z.pos (digits2_pos p)) - 1) with (Z.succ (Z.pos (digits2_pos p) - 1)) by lia.
    rewrite !Z.pow_succ_r by lia. lia.
  - cbn. lia.
Qed.

Lemma Zdigits2_spec m :
  0 < m -> 2 ^ (Zdigits2 m - 1) <= m < 2 ^ Zdigits2 m.
Proof. destruct m as [|p|p]; try lia. intros _. apply digits2_pos_spec. Qed.

Lemma Zdigits2_nonneg m : 0 <= m -> 0 <= Zdigits2 m.
Proof. destruct m; cbn; lia. Qed.

Lemma Zdigits2_pos m : 0 < m -> 0 < Zdigits2 m.
Proof. destruct m; cbn; lia. Qed.

Lemma Zdigits2_unique m d :
  2 ^ (d - 1) <= m < 2 ^ d -> 0 < m -> Zdigits2 m = d.
Proof.
  intros [Hlo Hhi] Hm. destruct (Zdigits2_spec m Hm) as [Hlo' Hhi'].
  pose proof (Zdigits2_pos m Hm) as HD.
  assert (Hd : 0 < d).
  { destruct (Z.ltb_spec 0 d) as [|Hle]; [assumption|].
    destruct (Z.eq_dec d 0) as [->|].
    - cbn in Hhi. lia.
    - rewrite Z.pow_neg_r in Hhi by lia. lia. }
  assert (d - 1 < Zdigits2 m)
    by (apply (Z.pow_lt_mono_r_iff 2); lia).
  assert (Zdigits2 m - 1 < d)
    by (apply (Z.pow_lt_mono_r_iff 2); lia).
  lia.
Qed.

(** The mantissa bound of a value at most one. *)
Lemma digits_le_unit m e :
  0 <= m -> e <= 0 -> m <= 2 ^ (- e) -> Zdigits2 m + e <= 1.
Proof.
  intros Hm He Hle. destruct (Z.eq_dec m 0) as [->|]; [cbn; lia|].
  destruct (Zdigits2_spec m ltac:(lia)) as [Hlo _].
  assert (Zdigits2 m - 1 < - e + 1); [|lia].
  apply (Z.pow_lt_mono_r_iff 2); [lia|lia|].
  rewrite Z.pow_add_r by lia. cbn. lia.
Qed.

(** *** Shifting right *)

Lemma shr_1_spec mrs B :
  0 <= shr_m mrs -> shr_m mrs + sticky mrs <= 2 * B ->
  shr_m (shr_1 mrs) = shr_m mrs / 2
  /\ shr_m (shr_1 mrs) + sticky (shr_1 mrs) <= B.
Proof.
  destruct mrs as [m r s]. unfold sticky. cbn [shr_m shr_r shr_s].
  intros Hm HB.
  destruct m as [|[p|p|]|p]; try lia; cbn [shr_1 shr_m shr_r shr_s orb].
  - split; [reflexivity|]. destruct (r || s); cbn; lia.
  - split; [rewrite Pos2Z.inj_xI; apply Z.div_unique with 1; lia|].
    destruct (r || s); lia.
  - split; [rewrite Pos2Z.inj_xO; apply Z.div_unique with 0; lia|].
    destruct (r || s); lia.
  - split; [reflexivity|]. destruct (r || s); lia.
Qed.

Lemma iter_shr_1_spec p : forall mrs B,
  0 <= shr_m mrs -> shr_m mrs + sticky mrs <= 2 ^ Z.pos p * B ->
  shr_m (iter_pos shr_1 p mrs) = shr_m mrs / 2 ^ Z.pos p
  /\ shr_m (iter_pos shr_1 p mrs) + sticky (iter_pos shr_1 p mrs) <= B.
Proof.
  induction p as [p IH|p IH|]; intros mrs B Hm HB; cbn [iter_pos].
  - assert (E : 2 ^ Z.pos p~1 = 2 * (2 ^ Z.pos p * 2 ^ Z.pos p)).
    { replace (Z.pos p~1) with (1 + (Z.pos p + Z.pos p)) by lia.
      rewrite !Z.pow_add_r by lia. reflexivity. }
    rewrite E in *.
    assert (0 < 2 ^ Z.pos p) by (apply Z.pow_pos_nonneg; lia).
    destruct (shr_1_spec mrs (2 ^ Z.pos p * 2 ^ Z.pos p * B) Hm ltac:(lia))
      as [E1 B1].
    assert (0 <= shr_m (shr_1 mrs))
      by (rewrite E1; apply Z.div_pos; lia).
    destruct (IH (shr_1 mrs) (2 ^ Z.pos p * B) ltac:(lia) ltac:(lia))
      as [E2 B2].
    assert (0 <= shr_m (iter_pos shr_1 p (shr_1 mrs)))
      by (rewrite E2; apply Z.div_pos; lia).
    destruct (IH (iter_pos shr_1 p (shr_1 mrs)) B ltac:(lia) B2) as [E3 B3].
    split; [|exact B3].
    rewrite E3, E2, E1, !Z.div_div by lia. reflexivity.
  - assert (E : 2 ^ Z.pos p~0 = 2 ^ Z.pos p * 2 ^ Z.pos p).
    { replace (Z.pos p~0) with (Z.pos p + Z.pos p) by lia.
      rewrite !Z.pow_add_r by lia. reflexivity. }
    rewrite E in *.
    assert (0 < 2 ^ Z.pos p) by (apply Z.pow_pos_nonneg; lia).
    destruct (IH mrs (2 ^ Z.pos p * B) Hm ltac:(lia)) as [E2 B2].
    assert (0 <= shr_m (iter_pos shr_1 p mrs))
      by (rewrite E2; apply Z.div_pos; lia).
    destruct (IH (iter_pos shr_1 p mrs) B ltac:(lia) B2) as [E3 B3].
    split; [|exact B3].
    rewrite E3, E2, !Z.div_div by lia. reflexivity.
  - change (2 ^ 1) with 2 in *. apply shr_1_spec; assumption.
Qed.

(** [shr] by a non-negative amount: the exponent moves by it, the
    mantissa is divided, and a bound on the value is kept. *)
Lemma shr_spec mrs e n B :
  0 <= n -> 0 <= shr_m mrs -> shr_m mrs + sticky mrs <= 2 ^ n * B ->
  let '(mrs', e') := shr mrs e n in
  e' = e + n
  /\ shr_m mrs' = shr_m mrs / 2 ^ n
  /\ shr_m mrs' + sticky mrs' <= B.
Proof.
  intros Hn Hm HB. destruct n as [|p|p]; try lia; cbn [shr].
  - rewrite Z.add_0_r, Z.div_1_r. change (2 ^ 0) with 1 in HB.
    repeat split; lia.
  - destruct (iter_shr_1_spec p mrs B Hm HB). auto.
Qed.

Lemma sticky_of_loc m l :
  sticky (shr_record_of_loc m l) = inexact l
  /\ shr_m (shr_record_of_loc m l) = m.
Proof. destruct l as [|[| |]]; cbn; auto. Qed.

Lemma round_nearest_even_bounds mrs :
  shr_m mrs
  <= round_nearest_even (shr_m mrs) (loc_of_shr_record mrs)
  <= shr_m mrs + sticky mrs.
Proof.
  destruct mrs as [m [|] [|]]; unfold sticky; cbn; try lia.
  destruct (Z.even m); lia.
Qed.

(** *** Shifting left *)

Lemma iter_xO_spec d : forall m,
  Z.pos (Pos.iter xO m d) = Z.pos m * 2 ^ Z.pos d.
Proof.
  induction d as [|d IH] using Pos.peano_ind; intros m.
  - cbn. lia.
  - rewrite Pos.iter_succ, Pos2Z.inj_xO, IH, Pos2Z.inj_succ, Z.pow_succ_r by lia.
    lia.
Qed.

Lemma shl_align_spec mx ex ex' :
  let '(m', e') := shl_align mx ex ex' in
  e' = Z.min ex ex' /\ Z.pos m' = Z.pos mx * 2 ^ (ex - e').
Proof.
  unfold shl_align. destruct (ex' - ex) as [|d|d] eqn:E.
  - assert (ex' = ex) by lia. subst. rewrite Z.min_id, Z.sub_diag. cbn. lia.
  - rewrite Z.min_l, Z.sub_diag by lia. cbn. lia.
  - rewrite Z.min_r by lia. split; [reflexivity|].
    rewrite iter_xO_spec. f_equal. f_equal. lia.
Qed.

(** *** Rounding *)

Lemma shr_nonpos mrs e n : n <= 0 -> shr mrs e n = (mrs, e).
Proof. destruct n; cbn; try lia; reflexivity. Qed.

Lemma div_pow2_lower m d k :
  2 ^ (d - 1) <= m -> 0 <= k <= d - 1 -> 2 ^ (d - 1 - k) <= m / 2 ^ k.
Proof.
  intros Hm Hk. apply Z.div_le_lower_bound.
  - apply Z.pow_pos_nonneg; lia.
  - rewrite <- Z.pow_add_r by lia. replace (k + (d - 1 - k)) with (d - 1) by lia.
    exact Hm.
Qed.

(** Rounding a value of at most one, given with enough digits, yields
    zero or a canonical double of at most one; above the subnormal
    range a positive value is not rounded to zero. *)
Lemma binary_round_aux_unit mx ex lx :
  0 <= mx -> ex <= 0 -> mx + inexact lx <= 2 ^ (- ex) ->
  ex <= fexp 53 1024 (Zdigits2 mx + ex) ->
  unitFloat (binary_round_aux 53 1024 false mx ex lx)
  /\ (0 < mx -> -1074 <= Zdigits2 mx + ex - 53 ->
      positiveFloat (binary_round_aux 53 1024 false mx ex lx)).
Proof.
  intros Hmx Hex Hval Hwide.
  pose proof (digits_le_unit mx ex Hmx Hex ltac:(destruct lx; cbn in Hval; lia))
    as Hdx.
  unfold binary_round_aux, shr_fexp.
  set (E := fexp 53 1024 (Zdigits2 mx + ex)) in *.
  assert (HE : E <= -52) by (subst E; rewrite fexp_eq; lia).
  destruct (sticky_of_loc mx lx) as [Hst Hm0].
  assert (Hpow : 2 ^ (E - ex) * 2 ^ (- E) = 2 ^ (- ex))
    by (rewrite <- Z.pow_add_r by lia; f_equal; lia).
  pose proof (shr_spec (shr_record_of_loc mx lx) ex (E - ex) (2 ^ (- E))
                ltac:(lia) ltac:(lia) ltac:(lia)) as H1.
  destruct (shr (shr_record_of_loc mx lx) ex (E - ex)) as [mrs' e'].
  destruct H1 as (He' & Hm1 & Hb1). rewrite Hm0 in Hm1.
  assert (He1 : e' = E) by lia. clear He'. subst e'.
  assert (Hm1pos : 0 <= shr_m mrs')
    by (rewrite Hm1; apply Z.div_pos; [lia|apply Z.pow_pos_nonneg; lia]).
  pose proof (round_nearest_even_bounds mrs') as Hr.
  set (mr := round_nearest_even (shr_m mrs') (loc_of_shr_record mrs')) in *.
  pose proof (digits_le_unit mr E ltac:(lia) ltac:(lia) ltac:(lia)) as Hdr.
  set (E2 := fexp 53 1024 (Zdigits2 mr + E)) in *.
  assert (HE2 : E2 <= -52) by (subst E2; rewrite fexp_eq; lia).
  assert (Hfinal :
    forall mrs'' e'',
      shr (shr_record_of_loc mr loc_Exact) E (E2 - E) = (mrs'', e'') ->
      e'' <= -52 /\ 0 <= shr_m mrs'' <= 2 ^ (- e'')
      /\ (0 < mx -> -1074 <= Zdigits2 mx + ex - 53 -> 0 < shr_m mrs'')).
  { intros mrs'' e'' Hshr.
    assert (Hpositive :
      0 < mx -> -1074 <= Zdigits2 mx + ex - 53 ->
      2 ^ 52 <= mr /\ E2 = Zdigits2 mr + E - 53).
    { intros Hpos Hnormal.
      destruct (Zdigits2_spec mx Hpos) as [Hlo _].
      assert (EE : E = Zdigits2 mx + ex - 53) by (subst E; rewrite fexp_eq; lia).
      assert (2 ^ 52 <= shr_m mrs').
      { rewrite Hm1.
        replace 52 with (Zdigits2 mx - 1 - (E - ex)) by lia.
        apply div_pow2_lower; [assumption|lia]. }
      assert (Hmr : 2 ^ 52 <= mr) by lia. split; [exact Hmr|].
      assert (0 < mr) by (pose proof (Z.pow_pos_nonneg 2 52); lia).
      destruct (Zdigits2_spec mr ltac:(assumption)) as [_ Hhi].
      assert (52 < Zdigits2 mr).
      { apply (Z.pow_lt_mono_r_iff 2); try lia.
        pose proof (Zdigits2_pos mr ltac:(assumption)). lia. }
      subst E2. rewrite fexp_eq. lia. }
    destruct (Z.leb_spec (E2 - E) 0) as [Hn2|Hn2].
    - rewrite shr_nonpos in Hshr by assumption. injection Hshr as <- <-.
      cbn [shr_record_of_loc shr_m]. split; [lia|]. split; [lia|].
      intros Hpos Hnormal. destruct (Hpositive Hpos Hnormal).
      pose proof (Z.pow_pos_nonneg 2 52). lia.
    - assert (Hpow2 : 2 ^ (E2 - E) * 2 ^ (- E2) = 2 ^ (- E))
        by (rewrite <- Z.pow_add_r by lia; f_equal; lia).
      pose proof (shr_spec (shr_record_of_loc mr loc_Exact) E (E2 - E)
                    (2 ^ (- E2)) ltac:(lia)
                    ltac:(cbn [shr_record_of_loc shr_m]; lia)
                    ltac:(cbn; lia)) as H2.
      rewrite Hshr in H2. destruct H2 as (He'' & Hm2 & Hb2).
      cbn [shr_record_of_loc shr_m] in Hm2.
      assert (He2 : e'' = E2) by lia. clear He''. subst e''.
      assert (0 <= shr_m mrs'')
        by (rewrite Hm2; apply Z.div_pos; [lia|apply Z.pow_pos_nonneg; lia]).
      assert (0 <= sticky mrs'') by (unfold sticky; destruct (_ || _); lia).
      split; [lia|]. split; [lia|].
      intros Hpos Hnormal. destruct (Hpositive Hpos Hnormal) as [Hmr HE2'].
      assert (0 < mr) by (pose proof (Z.pow_pos_nonneg 2 52); lia).
      destruct (Zdigits2_spec mr ltac:(assumption)) as [Hlo _].
      assert (2 ^ 52 <= shr_m mrs'').
      { rewrite Hm2.
        replace 52 with (Zdigits2 mr - 1 - (E2 - E)) by lia.
        apply div_pow2_lower; [assumption|lia]. }
      pose proof (Z.pow_pos_nonneg 2 52). lia. }
  destruct (shr (shr_record_of_loc mr loc_Exact) E (E2 - E)) as [mrs'' e''].
  destruct (Hfinal mrs'' e'' eq_refl) as (He & [Hlo Hhi] & Hpos).
  destruct (shr_m mrs'') as [|m|m] eqn:Hm; try lia.
  - split; [left; reflexivity|]. intros H1 H2. specialize (Hpos H1 H2). lia.
  - assert ((e'' <=? 1024 - 53) = true) as -> by (apply Z.leb_le; lia).
    split; [right; eauto|]. intros _ _. unfold positiveFloat. eauto.
Qed.

Lemma digits_mul_pow2 m k :
  0 < m -> 0 <= k -> Zdigits2 (m * 2 ^ k) = Zdigits2 m + k.
Proof.
  intros Hm Hk. destruct (Zdigits2_spec m Hm) as [Hlo Hhi].
  pose proof (Zdigits2_pos m Hm).
  assert (0 < 2 ^ k) by (apply Z.pow_pos_nonneg; lia).
  apply Zdigits2_unique; [|nia].
  replace (Zdigits2 m + k - 1) with (Zdigits2 m - 1 + k) by lia.
  rewrite !Z.pow_add_r by lia. nia.
Qed.

(** Rounding an integer mantissa that stands for at most one. *)
Lemma binary_round_unit p e :
  e <= 0 -> Z.pos p <= 2 ^ (- e) ->
  unitFloat (binary_round 53 1024 false p e).
Proof.
  intros He Hval. unfold binary_round.
  pose proof (shl_align_spec p e (fexp 53 1024 (Z.pos (digits2_pos p) + e)))
    as Hshl.
  destruct (shl_align p e _) as [mz ez]. destruct Hshl as [Hez Hmz].
  assert (0 <= e - ez) by lia.
  assert (0 < 2 ^ (e - ez)) by (apply Z.pow_pos_nonneg; lia).
  apply binary_round_aux_unit.
  - lia.
  - lia.
  - cbn [inexact]. rewrite Hmz, Z.add_0_r.
    replace (- ez) with (- e + (e - ez)) by lia.
    rewrite Z.pow_add_r by lia. nia.
  - rewrite Hmz, digits_mul_pow2 by lia.
    replace (Zdigits2 (Z.pos p) + (e - ez) + ez)
      with (Z.pos (digits2_pos p) + e) by (cbn [Zdigits2]; lia).
    lia.
Qed.

(** The double of a positive integer below 2^53: its mantissa has 53
    digits and stands for the integer exactly. *)
Lemma ofZ_form z :
  0 < z < 2 ^ 53 ->
  exists m e,
    Num.ofZ z = S754_finite false m e
    /\ Zdigits2 (Z.pos m) = 53
    /\ e = Zdigits2 z - 53
    /\ Z.pos m = z * 2 ^ (- e).
Proof.
  intros [Hpos Hlt]. destruct z as [|p|p]; try lia.
  unfold Num.ofZ, binary_normalize, binary_round.
  destruct (Zdigits2_spec (Z.pos p) Hpos) as [Hlo Hhi].
  pose proof (Zdigits2_pos (Z.pos p) Hpos) as Hd.
  assert (Hd53 : Zdigits2 (Z.pos p) <= 53).
  { assert (Zdigits2 (Z.pos p) - 1 < 53); [|lia].
    apply (Z.pow_lt_mono_r_iff 2); lia. }
  cbn [Zdigits2] in *.
  assert (HE : fexp Num.prec Num.emax (Z.pos (digits2_pos p) + 0)
               = Z.pos (digits2_pos p) - 53)
    by (rewrite fexp_eq; lia).
  rewrite HE.
  pose proof (shl_align_spec p 0 (Z.pos (digits2_pos p) - 53)) as Hshl.
  destruct (shl_align p 0 _) as [mz ez]. destruct Hshl as [Hez Hmz].
  assert (Hez' : ez = Z.pos (digits2_pos p) - 53) by lia. clear Hez.
  subst ez.
  rewrite Z.sub_0_l in Hmz.
  assert (Hdz : Zdigits2 (Z.pos mz) = 53).
  { rewrite Hmz, digits_mul_pow2 by lia. cbn [Zdigits2]. lia. }
  exists mz, (Z.pos (digits2_pos p) - 53).
  split; [|repeat split; assumption].
  unfold binary_round_aux, shr_fexp. rewrite Hdz.
  assert (Hn : fexp Num.prec Num.emax (53 + (Z.pos (digits2_pos p) - 53))
               - (Z.pos (digits2_pos p) - 53) = 0)
    by (rewrite fexp_eq; lia).
  rewrite Hn. cbn [shr shr_record_of_loc round_nearest_even
                   loc_of_shr_record shr_m].
  rewrite Hdz, Hn. cbn [shr shr_m].
  assert ((Z.pos (digits2_pos p) - 53 <=? Num.emax - Num.prec) = true) as ->
    by (apply Z.leb_le; unfold Num.emax, Num.prec; lia).
  reflexivity.
Qed.

Lemma new_location_inexact n k :
  inexact (new_location n k) = if k =? 0 then 0 else 1.
Proof.
  unfold new_location, new_location_even, new_location_odd.
  destruct (Z.even n), (k =? 0); reflexivity.
Qed.

(** The quotient of two positive doubles with full mantissas, the
    first at most the second, is a positive double of at most one. *)
Lemma div_unit mx ex my ey :
  Zdigits2 (Z.pos mx) = 53 -> Zdigits2 (Z.pos my) = 53 ->
  ex <= ey -> Z.pos mx <= Z.pos my * 2 ^ (ey - ex) ->
  -1000 <= ex - ey ->
  unitFloat (Num.div (S754_finite false mx ex) (S754_finite false my ey))
  /\ positiveFloat
       (Num.div (S754_finite false mx ex) (S754_finite false my ey)).
Proof.
  intros Hdx Hdy Hee Hval Hrange.
  unfold Num.div, SFdiv, SFdiv_core_binary. rewrite Hdx, Hdy.
  assert (He' : Z.min (fexp Num.prec Num.emax (53 + ex - (53 + ey)))
                      (ex - ey) = ex - ey - 53)
    by (rewrite fexp_eq; lia).
  rewrite He'. replace (ex - ey - (ex - ey - 53)) with 53 by lia.
  cbv beta iota zeta. rewrite Z.shiftl_mul_pow2 by lia.
  pose proof (Z_div_mod (Z.pos mx * 2 ^ 53) (Z.pos my) ltac:(lia)) as Hdiv.
  destruct (Z.div_eucl (Z.pos mx * 2 ^ 53) (Z.pos my)) as [q r].
  destruct Hdiv as [Hqr Hr]. cbn [xorb].
  destruct (Zdigits2_spec (Z.pos mx) ltac:(lia)) as [Hxlo _].
  destruct (Zdigits2_spec (Z.pos my) ltac:(lia)) as [_ Hyhi].
  rewrite Hdx in Hxlo. rewrite Hdy in Hyhi.
  change (2 ^ (53 - 1)) with (2 ^ 52) in Hxlo.
  assert (Hq : 2 ^ 52 <= q).
  { assert (2 ^ 52 * 2 ^ 53 < 2 ^ 53 * (q + 1)) by nia. nia. }
  assert (Hqpos : 0 < q) by (pose proof (Z.pow_pos_nonneg 2 52); lia).
  assert (Hdq : 53 <= Zdigits2 q).
  { destruct (Zdigits2_spec q Hqpos) as [_ Hhi].
    pose proof (Zdigits2_pos q Hqpos).
    assert (52 < Zdigits2 q); [|lia].
    apply (Z.pow_lt_mono_r_iff 2); lia. }
  assert (HP : 2 ^ (- (ex - ey - 53)) = 2 ^ (ey - ex) * 2 ^ 53).
  { rewrite <- Z.pow_add_r by lia. f_equal. lia. }
  assert (0 < 2 ^ (ey - ex)) by (apply Z.pow_pos_nonneg; lia).
  destruct (binary_round_aux_unit q (ex - ey - 53) (new_location (Z.pos my) r))
    as [Hunit Hposf].
  - lia.
  - lia.
  - rewrite new_location_inexact, HP.
    destruct (Z.eqb_spec r 0); nia.
  - rewrite fexp_eq. lia.
  - split; [exact Hunit|]. apply Hposf; lia.
Qed.

Lemma one_eq : Num.one = S754_finite false 4503599627370496 (-52).
Proof. reflexivity. Qed.

Lemma half_eq : Num.half = S754_finite false 4503599627370496 (-53).
Proof. reflexivity. Qed.

Lemma unitFloat_one : unitFloat Num.one.
Proof. right. exists 4503599627370496%positive, (-52). rewrite one_eq. cbn. repeat split; lia. Qed.

(** One minus a double of the unit interval stays in the unit
    interval. *)
Lemma sub_one_unit x : unitFloat x -> unitFloat (Num.sub Num.one x).
Proof.
  intros [->|(m & e & -> & He & Hm)]; [exact unitFloat_one|].
  rewrite one_eq. unfold Num.sub, SFsub. cbv zeta.
  rewrite Z.min_r by lia. cbn [cond_Zopp].
  pose proof (shl_align_spec 4503599627370496 (-52) e) as H1.
  pose proof (shl_align_spec m e e) as H2.
  destruct (shl_align 4503599627370496 (-52) e) as [a ea].
  destruct (shl_align m e e) as [b eb]. cbn [fst].
  destruct H1 as [Hea Ha]. destruct H2 as [Heb Hb].
  rewrite Z.min_r in Hea by lia. rewrite Z.min_id in Heb. subst ea eb.
  rewrite Z.sub_diag in Hb. change (2 ^ 0) with 1 in Hb.
  assert (Ha' : Z.pos a = 2 ^ (- e)).
  { rewrite Ha. change (Z.pos 4503599627370496) with (2 ^ 52).
    rewrite <- Z.pow_add_r by lia. f_equal. lia. }
  unfold binary_normalize.
  destruct (Z.pos a - Z.pos b) as [|p|p] eqn:Hdiff; try lia.
  - left. reflexivity.
  - apply binary_round_unit; lia.
Qed.

Lemma compare_cont_Z p q :
  PosDef.Pos.compare_cont Eq p q = Z.compare (Z.pos p) (Z.pos q).
Proof. reflexivity. Qed.

Lemma unit_leb x :
  unitFloat x ->
  Num.leb Num.zero x = true /\ Num.leb x Num.one = true.
Proof.
  intros [->|(m & e & -> & He & Hm)]; [split; reflexivity|].
  split; [reflexivity|]. rewrite one_eq.
  assert (Hc : Z.pos 4503599627370496 = 2 ^ 52) by reflexivity.
  revert Hc. generalize 4503599627370496%positive. intros c Hc.
  unfold Num.leb, SFleb, SFcompare.
  destruct (Z.compare_spec e (-52)) as [->|Hlt|Hgt]; [|reflexivity|lia].
  rewrite compare_cont_Z.
  change (- (-52)) with 52 in Hm.
  destruct (Z.compare_spec (Z.pos m) (Z.pos c)) as [_|_|Hgt];
    [reflexivity|reflexivity|lia].
Qed.

Lemma positive_ltb x : positiveFloat x -> Num.ltb Num.zero x = true.
Proof. intros (m & e & ->). reflexivity. Qed.

Lemma digits_mono a b : 0 < a <= b -> Zdigits2 a <= Zdigits2 b.
Proof.
  intros [Ha Hab]. destruct (Zdigits2_spec a Ha) as [Hlo _].
  destruct (Zdigits2_spec b ltac:(lia)) as [_ Hhi].
  pose proof (Zdigits2_pos b ltac:(lia)).
  assert (Zdigits2 a - 1 < Zdigits2 b); [|lia].
  apply (Z.pow_lt_mono_r_iff 2); lia.
Qed.

Lemma digits_le_53 z : 0 < z < 2 ^ 53 -> 1 <= Zdigits2 z <= 53.
Proof.
  intros [Hpos Hlt]. destruct (Zdigits2_spec z Hpos) as [Hlo _].
  pose proof (Zdigits2_pos z Hpos).
  assert (Zdigits2 z - 1 < 53); [|lia].
  apply (Z.pow_lt_mono_r_iff 2); lia.
Qed.

End FloatFacts.

(** ** Claims about the convergence rate *)

Section Convergence.
Import Analyzer Obs.

(** The quotient of two counts, the first at most the second. *)
Lemma div_counts_unit u t :
  0 < u <= t -> t < 2 ^ 53 ->
  unitFloat (Num.div (Num.ofZ u) (Num.ofZ t)).
Proof.
  intros [Hu Hut] Ht.
  destruct (ofZ_form u ltac:(lia)) as (mu & eu & -> & Hdu & Heu & Hmu).
  destruct (ofZ_form t ltac:(lia)) as (mt & et & -> & Hdt & Het & Hmt).
  pose proof (digits_mono u t ltac:(lia)).
  pose proof (digits_le_53 u ltac:(lia)).
  pose proof (digits_le_53 t ltac:(lia)).
  apply div_unit; try assumption; try lia.
  rewrite Hmu, Hmt.
  replace (- eu) with (- et + (et - eu)) by lia.
  rewrite Z.pow_add_r by lia.
  assert (0 < 2 ^ (- et)) by (apply Z.pow_pos_nonneg; lia).
  assert (0 < 2 ^ (et - eu)) by (apply Z.pow_pos_nonneg; lia).
  nia.
Qed.

Lemma rate_unit u t :
  (0 < t -> 0 < u <= t) -> t < 2 ^ 53 -> unitFloat (rate u t).
Proof.
  intros Hu Ht. unfold rate. destruct (Z.ltb_spec 0 t) as [Hpos|_].
  - apply sub_one_unit, div_counts_unit; auto.
  - right. exists 4503599627370496%positive, (-53). rewrite half_eq.
    split; [reflexivity|]. split; [lia|].
    change (2 ^ (- -53)) with 9007199254740992. lia.
Qed.

(** With the neutral rate the estimate is always computed. *)
Lemma estimate_half n :
  0 < n < 2 ^ 53 -> estimate Num.half n = Some (neutralEstimate n).
Proof.
  intros Hn. unfold estimate, neutralEstimate.
  assert (Num.ltb Num.zero Num.half = true) as -> by reflexivity.
  destruct (ofZ_form n Hn) as (m & e & Hof & Hd & He & Hm).
  pose proof (digits_le_53 n Hn).
  assert (Hp : positiveFloat (Num.div Num.half (Num.ofZ n))).
  { rewrite Hof, half_eq. apply div_unit; try assumption; try lia.
    - reflexivity.
    - rewrite Hm. change (Z.pos 4503599627370496) with (2 ^ 52).
      rewrite <- Z.mul_assoc, <- Z.pow_add_r by lia.
      replace (- e + (e - -53)) with 53 by lia.
      change (2 ^ 53) with (2 * 2 ^ 52).
      pose proof (Z.pow_pos_nonneg 2 52). nia. }
  rewrite (positive_ltb _ Hp). reflexivity.
Qed.

Lemma sameFloat_eq x y : sameFloat x y = true -> x = y.
Proof.
  destruct x as [a|a| |a m e], y as [b|b| |b m' e']; cbn; try discriminate.
  - intros H. apply Bool.eqb_prop in H. congruence.
  - intros H. apply Bool.eqb_prop in H. congruence.
  - reflexivity.
  - intros H. apply andb_true_iff in H as [H He].
    apply andb_true_iff in H as [Hs Hm].
    apply Bool.eqb_prop in Hs. apply Pos.eqb_eq in Hm. apply Z.eqb_eq in He.
    congruence.
Qed.

(** Up to 48 records the estimate equals the number of records. *)
Lemma shortLengths_estimate :
  forallb (fun n => sameFloat (neutralEstimate n) (Num.ofZ n)) shortLengths
  = true.
Proof. vm_compute. reflexivity. Qed.

Lemma neutralEstimate_short n :
  3 <= n <= 48 -> neutralEstimate n = Num.ofZ n.
Proof.
  intros Hn. apply sameFloat_eq.
  pose proof shortLengths_estimate as T. rewrite forallb_forall in T.
  apply T. unfold shortLengths. apply in_map_iff.
  exists (Z.to_nat n). split; [lia|]. apply in_seq. lia.
Qed.

Lemma distinct_le_total history :
  (distinctSignatures history <= List.length (signatures history))%nat
  /\ (signatures history <> [] -> (0 < distinctSignatures history)%nat).
Proof.
  unfold distinctSignatures. split.
  - apply NoDup_incl_length; [apply NoDup_nodup|].
    intros x Hx. apply nodup_In in Hx. exact Hx.
  - destruct (signatures history) as [|x l] eqn:E; [congruence|]. intros _.
    assert (In x (nodup jsstring_eq_dec (x :: l)))
      by (apply nodup_In; left; reflexivity).
    destruct (nodup jsstring_eq_dec (x :: l)); [contradiction|cbn; lia].
Qed.

Lemma analyze_rate history :
  (3 <= List.length history)%nat ->
  convergenceRate (analyze history) =
    rate (Z.of_nat (distinctSignatures history))
         (Z.of_nat (List.length (signatures history)))
  /\ estimatedIterationsRemaining (analyze history) =
     estimate (convergenceRate (analyze history))
              (Z.of_nat (List.length history)).
Proof.
  intros Hlen. unfold analyze.
  destruct (Z.ltb_spec (Z.of_nat (List.length history)) 3); [lia|].
  cbn [convergenceRate estimatedIterationsRemaining].
  destruct (loop_errors (Z.of_nat (List.length history)) history 0 locals0)
    as [-> ->].
  cbn [locals0 errorFrequency totalErrors]. rewrite size_fold_bump.
  split; reflexivity.
Qed.

(** C9, as the code has it.  For every history of length [n >= 3]
    (below the bounds up to which JavaScript counts exactly):
    [convergenceRate] is [1 - distinct / total], computed in double
    arithmetic, when the total number of error occurrences is positive
    and exactly 0.5 otherwise; it always lies in [0, 1]; and in the
    zero-error case [estimatedIterationsRemaining] is defined and is
    [Math.ceil((1 - 0.5) / (0.5 / n))] evaluated in double arithmetic,
    which is [n] for [n <= 48] (but not for every [n]: rounding makes
    it 50 for [n = 49]). *)
Theorem C9_convergence_rate history :
  (3 <= List.length history)%nat ->
  Z.of_nat (List.length history) < 2 ^ 32 ->
  Z.of_nat (List.length (signatures history)) < 2 ^ 53 ->
  let m := analyze history in
  let total := Z.of_nat (List.length (signatures history)) in
  let distinct := Z.of_nat (distinctSignatures history) in
  let n := Z.of_nat (List.length history) in
  convergenceRate m =
    (if 0 <? total
     then Num.sub Num.one (Num.div (Num.ofZ distinct) (Num.ofZ total))
     else Num.half)
  /\ Num.leb Num.zero (convergenceRate m) = true
  /\ Num.leb (convergenceRate m) Num.one = true
  /\ (total = 0 ->
      convergenceRate m = Num.half
      /\ estimatedIterationsRemaining m = Some (neutralEstimate n)
      /\ (n <= 48 -> estimatedIterationsRemaining m = Some (Num.ofZ n))).
Proof.
  intros Hlen Hn Htotal m total distinct n.
  destruct (analyze_rate history Hlen) as [Hrate Hest].
  fold m in Hrate, Hest. fold total distinct in Hrate. fold n in Hest.
  destruct (distinct_le_total history) as [Hle Hpos].
  assert (Hunit : unitFloat (convergenceRate m)).
  { rewrite Hrate. apply rate_unit; [|exact Htotal].
    intros Ht. subst distinct total.
    assert (signatures history <> [])
      by (intros E; rewrite E in Ht; cbn in Ht; lia).
    specialize (Hpos ltac:(assumption)). lia. }
  destruct (unit_leb _ Hunit) as [H0 H1].
  split; [exact Hrate|]. split; [exact H0|]. split; [exact H1|].
  intros Hzero.
  assert (Hhalf : convergenceRate m = Num.half).
  { rewrite Hrate. unfold rate. rewrite Hzero. reflexivity. }
  assert (Hdef : estimatedIterationsRemaining m = Some (neutralEstimate n)).
  { rewrite Hest, Hhalf. apply estimate_half.
    change (2 ^ 53) with (2097152 * 2 ^ 32). subst n. lia. }
  split; [exact Hhalf|]. split; [exact Hdef|].
  intros Hshort. rewrite Hdef. f_equal. apply neutralEstimate_short.
  subst n. lia.
Qed.

Lemma C9_convergence_rate_witness :
  let history :=
    [ record 1 (js "first") (Some [js "Error at /a/b.js:10:4"]);
      record 2 (js "second, longer")
             (Some [js "Error at /x/y.js:99:1"; js "timeout after 30 s"]);
      record 3 (js "third") None ] in
  (3 <= List.length history)%nat
  /\ Z.of_nat (List.length history) < 2 ^ 32
  /\ Z.of_nat (List.length (signatures history)) < 2 ^ 53
  /\ convergenceRate (analyze history) =
     Num.sub Num.one (Num.div (Num.ofZ 2) (Num.ofZ 3))
  /\ Num.leb Num.zero (convergenceRate (analyze history)) = true
  /\ Num.leb (convergenceRate (analyze history)) Num.one = true.
Proof.
  intros history.
  assert (H1 : (3 <= List.length history)%nat) by (cbn; lia).
  assert (H2 : Z.of_nat (List.length history) < 2 ^ 32)
    by (vm_compute; reflexivity).
  assert (H3 : Z.of_nat (List.length (signatures history)) < 2 ^ 53)
    by (vm_compute; reflexivity).
  split; [exact H1|]. split; [exact H2|]. split; [exact H3|].
  destruct (C9_convergence_rate history H1 H2 H3) as (Hr & Hlo & Hhi & _).
  split; [exact Hr|]. split; [exact Hlo|exact Hhi].
Defined.

(** C9 as stated fails: for a history of 49 records without errors the
    rate is 0.5 and the estimate is 50, not 49, because
    [0.5 / (0.5 / 49)] is 49.00000000000001 in double arithmetic. *)
Lemma C9_counterexample :
  let history := repeat (record 1 (js "no errors") None) 49 in
  List.length history = 49%nat
  /\ signatures history = []
  /\ convergenceRate (analyze history) = Num.half
  /\ estimatedIterationsRemaining (analyze history) = Some (Num.ofZ 50)
  /\ Num.ofZ 50 <> Num.ofZ 49.
Proof.
  intros history. repeat split; try (vm_compute; reflexivity).
  vm_compute. discriminate.
Qed.

End Convergence.

(** ** Integer lengths in double arithmetic *)

Section Exact.
Import Obs.

Lemma sticky_zero_exact mrs :
  sticky mrs = 0 -> loc_of_shr_record mrs = loc_Exact.
Proof.
  destruct mrs as [m [|] [|]]; unfold sticky; cbn; try discriminate;
    reflexivity.
Qed.

Lemma sticky_nonneg mrs : 0 <= sticky mrs.
Proof. unfold sticky. destruct (_ || _); lia. Qed.

(** A mantissa of 53 digits followed by zeros is rounded to itself. *)
Lemma binary_round_aux_exact sx W E n :
  0 < W -> Zdigits2 W = 53 -> 0 <= n -> -1074 <= E <= 971 ->
  binary_round_aux 53 1024 sx (W * 2 ^ n) (E - n) loc_Exact
  = S754_finite sx (Z.to_pos W) E.
Proof.
  intros HW Hd Hn HE. unfold binary_round_aux, shr_fexp.
  rewrite digits_mul_pow2, Hd by lia.
  assert (H1 : fexp 53 1024 (53 + n + (E - n)) - (E - n) = n)
    by (rewrite fexp_eq; lia).
  rewrite H1.
  assert (0 < 2 ^ n) by (apply Z.pow_pos_nonneg; lia).
  pose proof (shr_spec (shr_record_of_loc (W * 2 ^ n) loc_Exact) (E - n) n W
                Hn ltac:(cbn; lia) ltac:(cbn; lia)) as Hs.
  destruct (shr _ (E - n) n) as [mrs' e'].
  destruct Hs as (He' & Hm & Hb). cbn [shr_record_of_loc shr_m] in Hm.
  rewrite Z.div_mul in Hm by lia.
  pose proof (sticky_nonneg mrs').
  rewrite (sticky_zero_exact mrs') by lia.
  rewrite Hm. cbn [round_nearest_even]. rewrite Hd.
  assert (e' = E) as -> by lia.
  assert (H2 : fexp 53 1024 (53 + E) - E = 0) by (rewrite fexp_eq; lia).
  rewrite H2. cbn [shr shr_record_of_loc shr_m].
  destruct W as [|w|w]; try lia.
  assert ((E <=? 1024 - 53) = true) as -> by (apply Z.leb_le; lia).
  reflexivity.
Qed.

(** Rounding an integer below 2^53 given with trailing zeros. *)
Lemma binary_round_canon s p k a :
  0 <= k -> Z.pos p = a * 2 ^ k -> 0 < a < 2 ^ 53 ->
  binary_round 53 1024 s p (- k) = canon s a.
Proof.
  intros Hk Hp Ha. unfold binary_round, canon.
  pose proof (digits_le_53 a Ha) as Hda.
  assert (Hdp : Z.pos (digits2_pos p) = Zdigits2 a + k).
  { change (Z.pos (digits2_pos p)) with (Zdigits2 (Z.pos p)).
    rewrite Hp. apply digits_mul_pow2; lia. }
  rewrite Hdp.
  set (E := Zdigits2 a - 53).
  assert (HE : fexp 53 1024 (Zdigits2 a + k + - k) = E)
    by (rewrite fexp_eq; subst E; lia).
  rewrite HE.
  pose proof (shl_align_spec p (- k) E) as Hshl.
  destruct (shl_align p (- k) E) as [mz ez]. destruct Hshl as [Hez Hmz].
  set (W := a * 2 ^ (53 - Zdigits2 a)).
  assert (HW : 0 < W)
    by (subst W; apply Z.mul_pos_pos; [lia|apply Z.pow_pos_nonneg; lia]).
  assert (HdW : Zdigits2 W = 53)
    by (subst W; rewrite digits_mul_pow2 by lia; lia).
  set (n := Z.max 0 (k + E)).
  assert (Hmz' : Z.pos mz = W * 2 ^ n /\ ez = E - n).
  { subst W n. rewrite Hmz, Hp. split; [|lia].
    rewrite <- !Z.mul_assoc, <- !Z.pow_add_r by lia.
    f_equal. f_equal. lia. }
  destruct Hmz' as [-> ->].
  apply binary_round_aux_exact; subst E; lia.
Qed.

Lemma ofZ_canon z : 0 < z < 2 ^ 53 -> Num.ofZ z = canon false z.
Proof.
  intros Hz. destruct (ofZ_form z Hz) as (m & e & -> & _ & -> & Hm).
  unfold canon. f_equal.
  replace (- (Zdigits2 z - 53)) with (53 - Zdigits2 z) in Hm by lia.
  rewrite <- Hm. symmetry. apply Pos2Z.id.
Qed.

(** Subtraction of integers below 2^53 is exact. *)
Lemma sub_integers_exact a b :
  0 <= a < 2 ^ 53 -> 0 <= b < 2 ^ 53 ->
  Num.abs (Num.sub (Num.ofZ a) (Num.ofZ b)) = Num.ofZ (Z.abs (a - b)).
Proof.
  intros Ha Hb.
  destruct (Z.eq_dec a 0) as [->|Ha0]; [|destruct (Z.eq_dec b 0) as [->|Hb0]].
  - destruct (Z.eq_dec b 0) as [->|Hb0]; [reflexivity|].
    rewrite Z.sub_0_l, Z.abs_opp, Z.abs_eq by lia.
    rewrite (ofZ_canon b) by lia. reflexivity.
  - rewrite Z.sub_0_r, Z.abs_eq by lia.
    rewrite (ofZ_canon a) by lia. reflexivity.
  - destruct (ofZ_form a ltac:(lia)) as (ma & ea & -> & _ & Hea & Hma).
    destruct (ofZ_form b ltac:(lia)) as (mb & eb & -> & _ & Heb & Hmb).
    pose proof (digits_le_53 a ltac:(lia)).
    pose proof (digits_le_53 b ltac:(lia)).
    unfold Num.sub, SFsub. cbv zeta. cbn [cond_Zopp].
    pose proof (shl_align_spec ma ea (Z.min ea eb)) as H1.
    pose proof (shl_align_spec mb eb (Z.min ea eb)) as H2.
    destruct (shl_align ma ea (Z.min ea eb)) as [xa za].
    destruct (shl_align mb eb (Z.min ea eb)) as [xb zb]. cbn [fst].
    destruct H1 as [Hza Hxa]. destruct H2 as [Hzb Hxb].
    set (k := - Z.min ea eb) in *.
    assert (Hk : 0 <= k) by (subst k; lia).
    assert (Hxa' : Z.pos xa = a * 2 ^ k).
    { rewrite Hxa, Hma, <- Z.mul_assoc, <- Z.pow_add_r by lia.
      f_equal. f_equal. lia. }
    assert (Hxb' : Z.pos xb = b * 2 ^ k).
    { rewrite Hxb, Hmb, <- Z.mul_assoc, <- Z.pow_add_r by lia.
      f_equal. f_equal. lia. }
    assert (0 < 2 ^ k) by (apply Z.pow_pos_nonneg; lia).
    replace (Z.min ea eb) with (- k) by (subst k; lia).
    unfold binary_normalize.
    change Num.prec with 53. change Num.emax with 1024.
    destruct (Z.pos xa - Z.pos xb) as [|p|p] eqn:Hdiff.
    + assert (a = b) by nia. subst b. rewrite Z.sub_diag. reflexivity.
    + assert (Hp : Z.pos p = (a - b) * 2 ^ k) by lia.
      assert (0 < a - b) by nia.
      rewrite (binary_round_canon false p k (a - b)) by lia.
      rewrite Z.abs_eq, ofZ_canon by lia. reflexivity.
    + assert (Hp : Z.pos p = (b - a) * 2 ^ k) by lia.
      assert (0 < b - a) by nia.
      rewrite (binary_round_canon true p k (b - a)) by lia.
      rewrite Z.abs_neq, ofZ_canon by lia.
      replace (- (a - b)) with (b - a) by lia. reflexivity.
Qed.

(** Addition of positive integers is exact as long as the sum is
    below 2^53. *)
Lemma add_integers_exact a b :
  0 < a -> 0 < b -> a + b < 2 ^ 53 ->
  Num.add (Num.ofZ a) (Num.ofZ b) = Num.ofZ (a + b).
Proof.
  intros Ha Hb Hsum.
  destruct (ofZ_form a ltac:(lia)) as (ma & ea & -> & _ & Hea & Hma).
  destruct (ofZ_form b ltac:(lia)) as (mb & eb & -> & _ & Heb & Hmb).
  pose proof (digits_le_53 a ltac:(lia)).
  pose proof (digits_le_53 b ltac:(lia)).
  unfold Num.add, SFadd. cbv zeta. cbn [cond_Zopp].
  pose proof (shl_align_spec ma ea (Z.min ea eb)) as H1.
  pose proof (shl_align_spec mb eb (Z.min ea eb)) as H2.
  destruct (shl_align ma ea (Z.min ea eb)) as [xa za].
  destruct (shl_align mb eb (Z.min ea eb)) as [xb zb]. cbn [fst].
  destruct H1 as [Hza Hxa]. destruct H2 as [Hzb Hxb].
  set (k := - Z.min ea eb) in *.
  assert (Hk : 0 <= k) by (subst k; lia).
  assert (Hxa' : Z.pos xa = a * 2 ^ k).
  { rewrite Hxa, Hma, <- Z.mul_assoc, <- Z.pow_add_r by lia.
    f_equal. f_equal. lia. }
  assert (Hxb' : Z.pos xb = b * 2 ^ k).
  { rewrite Hxb, Hmb, <- Z.mul_assoc, <- Z.pow_add_r by lia.
    f_equal. f_equal. lia. }
  assert (0 < 2 ^ k) by (apply Z.pow_pos_nonneg; lia).
  replace (Z.min ea eb) with (- k) by (subst k; lia).
  unfold binary_normalize.
  change Num.prec with 53. change Num.emax with 1024.
  destruct (Z.pos xa + Z.pos xb) as [|p|p] eqn:Hs; try lia.
  assert (Hp : Z.pos p = (a + b) * 2 ^ k) by lia.
  rewrite (binary_round_canon false p k (a + b)) by lia.
  rewrite ofZ_canon by lia. reflexivity.
Qed.

(** Comparing an integer with a positive double is monotone in the
    integer. *)
Lemma ltb_ofZ_mono d d' mb eb :
  0 <= d <= d' -> d' < 2 ^ 53 ->
  Num.ltb (Num.ofZ d') (S754_finite false mb eb) = true ->
  Num.ltb (Num.ofZ d) (S754_finite false mb eb) = true.
Proof.
  intros Hd Hd'. destruct (Z.eq_dec d 0) as [->|Hd0]; [reflexivity|].
  destruct (ofZ_form d ltac:(lia)) as (m & e & -> & _ & He & Hm).
  destruct (ofZ_form d' ltac:(lia)) as (m' & e' & -> & _ & He' & Hm').
  pose proof (digits_mono d d' ltac:(lia)) as Hmono.
  pose proof (digits_le_53 d ltac:(lia)).
  pose proof (digits_le_53 d' ltac:(lia)).
  assert (Hlex : e = e' -> Z.pos m <= Z.pos m').
  { intros <-. rewrite Hm, Hm'.
    apply Z.mul_le_mono_nonneg_r; [apply Z.pow_nonneg|]; lia. }
  unfold Num.ltb, SFltb, SFcompare. rewrite !compare_cont_Z.
  destruct (Z.compare_spec e' eb) as [Heq|Hlt|Hgt];
    destruct (Z.compare_spec e eb) as [Heq2|Hlt2|Hgt2];
    try reflexivity; try discriminate; try lia.
  destruct (Z.compare_spec (Z.pos m') (Z.pos mb)); try discriminate.
  destruct (Z.compare_spec (Z.pos m) (Z.pos mb)); try reflexivity;
    intros _; specialize (Hlex ltac:(lia)); lia.
Qed.

Lemma ltb_ofZ_zero d :
  0 <= d < 2 ^ 53 -> Num.ltb (Num.ofZ d) (S754_zero false) = false.
Proof.
  intros Hd. destruct (Z.eq_dec d 0) as [->|Hd0]; [reflexivity|].
  destruct (ofZ_form d ltac:(lia)) as (m & e & -> & _). reflexivity.
Qed.

Lemma thresholdTable_true :
  forall len, In len storedLengths -> thresholdOk len = true.
Proof. apply forallb_forall. vm_compute. reflexivity. Qed.

Lemma thresholdOk_stored len : 1 <= len <= 1000 -> thresholdOk len = true.
Proof.
  intros Hlen. apply thresholdTable_true. unfold storedLengths.
  apply in_map_iff. exists (Z.to_nat len). split; [lia|].
  apply in_seq. lia.
Qed.

(** On stored lengths the double test agrees with the integer one. *)
Lemma similarLength_stored avgLength len :
  storedLength avgLength -> storedLength len ->
  Analyzer.similarLength avgLength len = similarLengthExact avgLength len.
Proof.
  unfold storedLength. intros Ha Hl.
  unfold Analyzer.similarLength, similarLengthExact.
  assert (Hpow : 1000 < 2 ^ 53) by reflexivity.
  rewrite sub_integers_exact by lia.
  set (d := Z.abs (len - avgLength)).
  assert (Hd : 0 <= d <= 1000) by (subst d; lia).
  destruct (Z.eq_dec len 0) as [->|Hl0].
  - change (Num.mul (Num.ofZ 0) Num.tenth) with (S754_zero false).
    rewrite ltb_ofZ_zero by lia. symmetry. apply Z.ltb_ge. lia.
  - pose proof (thresholdOk_stored len ltac:(lia)) as Hok.
    unfold thresholdOk in Hok. cbv zeta in Hok.
    destruct (Num.mul (Num.ofZ len) Num.tenth) as [| | |[|] mb eb];
      try discriminate.
    apply andb_true_iff in Hok. destruct Hok as [Hlo Hhi].
    apply negb_true_iff in Hhi.
    pose proof (Z.div_mod (len - 1) 10 ltac:(lia)) as Hdm.
    pose proof (Z.mod_pos_bound (len - 1) 10 ltac:(lia)) as Hmb.
    set (T := (len - 1) / 10) in *.
    destruct (Z.ltb_spec (10 * d) len) as [Hlt|Hge].
    + apply (ltb_ofZ_mono d T); [lia|lia|exact Hlo].
    + destruct (Num.ltb (Num.ofZ d) _) eqn:Hcmp; [|reflexivity].
      rewrite (ltb_ofZ_mono (T + 1) d mb eb) in Hhi;
        [discriminate|lia|lia|exact Hcmp].
Qed.

End Exact.

(** ** Claims about output-shape stagnation *)

Section SimilarOutputs.
Import Analyzer Obs.

Lemma loop_recent len rest : forall i l,
  i + Z.of_nat (List.length rest) = len -> 0 <= i ->
  recentLengths (loop len i rest l) =
    recentLengths l ++ map outputLength (skipn (Z.to_nat (len - 3 - i)) rest)
  /\ recentCompletions (loop len i rest l) =
    recentCompletions l
    ++ map completionDetected (skipn (Z.to_nat (len - 3 - i)) rest).
Proof.
  induction rest as [|e rest IH]; intros i l Hlen Hi; cbn [loop].
  - rewrite skipn_nil. cbn. rewrite !app_nil_r. auto.
  - cbn [List.length] in Hlen.
    destruct (IH (i + 1) (visit len i e l) ltac:(lia) ltac:(lia)) as [-> ->].
    unfold visit. destruct (fold_left _ _ _) as [freq total].
    cbn [recentLengths recentCompletions].
    destruct (Z.leb_spec (len - 3) i) as [Hrecent|Hold].
    + replace (Z.to_nat (len - 3 - i)) with O by lia.
      replace (Z.to_nat (len - 3 - (i + 1))) with O by lia.
      cbn [skipn map]. rewrite <- !app_assoc. auto.
    + replace (Z.to_nat (len - 3 - i))
        with (S (Z.to_nat (len - 3 - (i + 1)))) by lia.
      cbn [skipn]. auto.
Qed.

Lemma lastThree_length history :
  (3 <= List.length history)%nat -> List.length (lastThree history) = 3%nat.
Proof. intros H. unfold lastThree. rewrite length_skipn. lia. Qed.

Lemma loop_recent_history history :
  (3 <= List.length history)%nat ->
  let l := loop (Z.of_nat (List.length history)) 0 history locals0 in
  recentLengths l = map outputLength (lastThree history)
  /\ recentCompletions l = map completionDetected (lastThree history).
Proof.
  intros Hlen l.
  destruct (loop_recent (Z.of_nat (List.length history)) history 0 locals0
              ltac:(lia) ltac:(lia)) as [H1 H2].
  fold l in H1, H2. rewrite H1, H2.
  cbn [locals0 recentLengths recentCompletions app].
  unfold lastThree.
  replace (Z.to_nat (Z.of_nat (List.length history) - 3 - 0))
    with (List.length history - 3)%nat by lia.
  auto.
Qed.

Lemma forallb_map_comp {A B} (f : B -> bool) (g : A -> B) l :
  forallb f (map g l) = forallb (fun x => f (g x)) l.
Proof. induction l as [|x l IH]; cbn; [reflexivity|]. rewrite IH. reflexivity. Qed.

(** What the two stagnation checks leave in the metrics. *)
Lemma analyze_stagnation history :
  (3 <= List.length history)%nat ->
  let m := analyze history in
  let repeated :=
    negb (match repeatedErrors m with [] => true | _ => false end) in
  stagnationDetected m = repeated || similarTrigger history
  /\ stagnationReason m =
     (if similarTrigger history then Some reasonSimilar
      else if repeated then Some (reasonRepeated (repeatedErrors m))
           else None)
  /\ suggestedActions m =
     (if repeated then actionsRepeated else [])
     ++ (if similarTrigger history then actionsSimilar else []).
Proof.
  intros Hlen m repeated. subst m repeated.
  rewrite analyze_repeatedErrors by assumption.
  unfold analyze.
  destruct (Z.ltb_spec (Z.of_nat (List.length history)) 3); [lia|].
  cbn [stagnationDetected stagnationReason suggestedActions].
  destruct (loop_recent_history history Hlen) as [HL HC].
  destruct (loop_errors (Z.of_nat (List.length history)) history 0 locals0)
    as [HE _].
  set (l := loop (Z.of_nat (List.length history)) 0 history locals0) in *.
  cbn [locals0 errorFrequency] in HE.
  assert (Htrig : (List.length (recentLengths l) =? 3)%nat = true
                  /\ forallb (similarLength (nth 0 (recentLengths l) 0))
                             (recentLengths l)
                     && forallb negb (recentCompletions l)
                     = similarTrigger history).
  { rewrite HL, HC, length_map, lastThree_length by assumption.
    split; [reflexivity|]. unfold similarTrigger, firstRecentLength.
    rewrite !forallb_map_comp.
    destruct (lastThree history) as [|e0 rest]; reflexivity. }
  destruct Htrig as [H3 Htrig].
  unfold flagSimilar. rewrite H3, Htrig.
  unfold flagRepeated. cbn [repeatedErrors]. rewrite HE.
  destruct (findRepeated _) as [|r rs];
    destruct (similarTrigger history); cbn; auto using app_nil_r.
Qed.

Lemma reasonSimilar_distinct repeated :
  reasonRepeated repeated <> reasonSimilar.
Proof. unfold reasonRepeated. vm_compute. discriminate. Qed.

(** The output a record keeps is at most 1000 code units long. *)
Lemma nextEntry_stored w s lastOutput metadata :
  storedLength (outputLength (nextEntry w s lastOutput metadata)).
Proof.
  unfold storedLength, outputLength, strLength, nextEntry. cbn [output].
  unfold JsString.substring0. rewrite length_firstn. lia.
Qed.

Lemma firstRecentLength_stored history :
  (3 <= List.length history)%nat ->
  (forall e, In e (lastThree history) -> storedLength (outputLength e)) ->
  storedLength (firstRecentLength history).
Proof.
  intros Hlen Hall. pose proof (lastThree_length history Hlen) as H3.
  unfold firstRecentLength. destruct (lastThree history) as [|e rest].
  - discriminate.
  - apply Hall. left. reflexivity.
Qed.

Lemma similarTrigger_false_length history e :
  In e (lastThree history) ->
  similarLength (firstRecentLength history) (outputLength e) = false ->
  similarTrigger history = false.
Proof.
  intros He Hfalse. unfold similarTrigger. apply andb_false_iff. left.
  apply not_true_is_false. intros Hall.
  rewrite forallb_forall in Hall. specialize (Hall e He). congruence.
Qed.

Lemma similarTrigger_false_completion history e :
  In e (lastThree history) -> completionDetected e = true ->
  similarTrigger history = false.
Proof.
  intros He Hdone. unfold similarTrigger. apply andb_false_iff. right.
  apply not_true_is_false. intros Hall.
  rewrite forallb_forall in Hall. specialize (Hall e He).
  rewrite Hdone in Hall. discriminate.
Qed.

(** What [analyze] returns when the output-shape trigger does not
    fire. *)
Lemma analyze_not_similar history :
  (3 <= List.length history)%nat ->
  similarTrigger history = false ->
  let m := analyze history in
  let repeated :=
    negb (match repeatedErrors m with [] => true | _ => false end) in
  stagnationDetected m = repeated
  /\ stagnationReason m <> Some reasonSimilar
  /\ suggestedActions m = if repeated then actionsRepeated else [].
Proof.
  intros Hlen Ht m repeated.
  destruct (analyze_stagnation history Hlen) as (Hflag & Hreason & Hact).
  fold m in Hflag, Hreason, Hact. fold repeated in Hflag, Hreason, Hact.
  rewrite Ht in Hflag, Hreason, Hact.
  rewrite Hflag, Hreason, Hact, orb_false_r, app_nil_r.
  split; [reflexivity|]. split; [|reflexivity].
  clearbody repeated. destruct repeated; [|discriminate].
  intros H. apply (reasonSimilar_distinct (repeatedErrors m)).
  congruence.
Qed.

(** C8, as the code has it.  For every history of length at least 3:
    if each of the last three records passes the code's length test
    against the first of the three - [|len - first| < len * 0.1] in
    double arithmetic, a strict bound relative to the record's own
    length and not to the first length - and none of the three has
    [completionDetected = true], then [analyze]
    returns [stagnationDetected = true] with the reason "Output length
    and structure similar across last 3 iterations - may be stuck in
    loop" and the two corresponding actions appended after those of the
    repeated-error check; if any of the three has
    [completionDetected = true], or fails the length test, the trigger
    does not fire: the reason is not that one, no such action is added,
    and stagnation is flagged only by repeated errors.  On the lengths
    a stored output can have, 0 to 1000, the double test is exactly
    [10 * |len - first| < len] on integers. *)
Theorem C8_similar_output_lengths history :
  (3 <= List.length history)%nat ->
  let m := analyze history in
  let repeated :=
    negb (match repeatedErrors m with [] => true | _ => false end) in
  let first := firstRecentLength history in
  ((forall e, In e (lastThree history) ->
              similarLength first (outputLength e) = true) ->
   (forall e, In e (lastThree history) -> completionDetected e = false) ->
   stagnationDetected m = true
   /\ stagnationReason m = Some reasonSimilar
   /\ suggestedActions m =
      (if repeated then actionsRepeated else []) ++ actionsSimilar)
  /\ ((exists e, In e (lastThree history)
                 /\ (completionDetected e = true
                     \/ similarLength first (outputLength e) = false)) ->
      stagnationDetected m = repeated
      /\ stagnationReason m <> Some reasonSimilar
      /\ suggestedActions m = if repeated then actionsRepeated else [])
  /\ ((forall e, In e (lastThree history) ->
                 storedLength (outputLength e)) ->
      forall e, In e (lastThree history) ->
        similarLength first (outputLength e) = true
        <-> 10 * Z.abs (outputLength e - first) < outputLength e).
Proof.
  intros Hlen m repeated first. split; [|split].
  - destruct (analyze_stagnation history Hlen) as (Hflag & Hreason & Hact).
    fold m in Hflag, Hreason, Hact. fold repeated in Hflag, Hreason, Hact.
    intros Hsim Hnone.
    assert (Ht : similarTrigger history = true).
    { unfold similarTrigger. apply andb_true_iff. split.
      - apply forallb_forall. exact Hsim.
      - apply forallb_forall. intros e He. rewrite (Hnone e He).
        reflexivity. }
    rewrite Ht in Hflag, Hreason, Hact.
    rewrite Hflag, Hreason, Hact, orb_true_r. auto.
  - intros (e & He & [Hdone|Hfar]);
      apply (analyze_not_similar history Hlen);
      eauto using similarTrigger_false_completion,
                  similarTrigger_false_length.
  - intros Hstored e He.
    rewrite similarLength_stored;
      [|apply firstRecentLength_stored; assumption|apply Hstored; exact He].
    unfold similarLengthExact. apply Z.ltb_lt.
Qed.

Lemma C8_similar_output_lengths_witness :
  let history :=
    [ record 1 (js "tried approach A") None;
      record 2 (js "tried approach B, failed again") None;
      record 3 (js "tried approach C, failed again") None;
      record 4 (js "tried approach D, failed agai") None ] in
  (3 <= List.length history)%nat
  /\ (forall e, In e (lastThree history) ->
                similarLength (firstRecentLength history) (outputLength e)
                = true)
  /\ (forall e, In e (lastThree history) -> completionDetected e = false)
  /\ stagnationDetected (analyze history) = true
  /\ stagnationReason (analyze history) = Some reasonSimilar.
Proof.
  intros history.
  assert (H1 : (3 <= List.length history)%nat) by (cbn; lia).
  assert (H2 : forall e, In e (lastThree history) ->
                 similarLength (firstRecentLength history) (outputLength e)
                 = true).
  { intros e [<-|[<-|[<-|[]]]]; vm_compute; reflexivity. }
  assert (H3 : forall e, In e (lastThree history) ->
                 completionDetected e = false).
  { intros e [<-|[<-|[<-|[]]]]; reflexivity. }
  split; [exact H1|]. split; [exact H2|]. split; [exact H3|].
  destruct (proj1 (C8_similar_output_lengths history H1) H2 H3)
    as (Ha & Hb & _).
  split; [exact Ha|exact Hb].
Defined.

(** C8 as stated fails: with output lengths 1000, 909, 1000 every
    length is within 10% of the first (the differences are 0, 91 and 0,
    against a bound of 100), no completion was detected, and yet
    [analyze] reports no stagnation, because 91 is not below a tenth of
    909.  Three empty outputs are not flagged either. *)
Lemma C8_counterexample :
  let history :=
    [ record 1 (repeat 97%N 1000) None;
      record 2 (repeat 97%N 909) None;
      record 3 (repeat 97%N 1000) None ] in
  Forall (fun e => 10 * Z.abs (outputLength e - firstRecentLength history)
                   <= firstRecentLength history
                   /\ completionDetected e = false) (lastThree history)
  /\ stagnationDetected (analyze history) = false
  /\ stagnationDetected
       (analyze [record 1 [] None; record 2 [] None; record 3 [] None])
     = false.
Proof.
  intros history. split.
  - repeat constructor; vm_compute; congruence.
  - split; vm_compute; reflexivity.
Qed.

End SimilarOutputs.

(** ** Comparing integers as doubles *)

Section Compare.
Import Obs.

Lemma ofZ_neg p :
  Z.pos p < 2 ^ 53 -> Num.ofZ (Z.neg p) = canon true (Z.pos p).
Proof.
  intros Hp. unfold Num.ofZ, binary_normalize.
  change 0 with (- 0).
  apply (binary_round_canon true p 0 (Z.pos p)); lia.
Qed.

Lemma canon_compare a b :
  0 < a < 2 ^ 53 -> 0 < b < 2 ^ 53 ->
  match Z.compare (Zdigits2 a - 53) (Zdigits2 b - 53) with
  | Lt => Lt
  | Gt => Gt
  | Eq => Z.compare (Z.pos (Z.to_pos (a * 2 ^ (53 - Zdigits2 a))))
                    (Z.pos (Z.to_pos (b * 2 ^ (53 - Zdigits2 b))))
  end = Z.compare a b.
Proof.
  intros Ha Hb.
  pose proof (digits_le_53 a Ha). pose proof (digits_le_53 b Hb).
  destruct (Zdigits2_spec a ltac:(lia)) as [Hla Hua].
  destruct (Zdigits2_spec b ltac:(lia)) as [Hlb Hub].
  destruct (Z.compare_spec (Zdigits2 a - 53) (Zdigits2 b - 53)) as [E|E|E].
  - assert (Zdigits2 a = Zdigits2 b) as Hd by lia. rewrite Hd.
    assert (0 < 2 ^ (53 - Zdigits2 b)) by (apply Z.pow_pos_nonneg; lia).
    rewrite !Z2Pos.id by nia.
    destruct (Z.compare_spec a b) as [F|F|F].
    + subst. apply Z.compare_refl.
    + apply Z.compare_lt_iff. nia.
    + apply Z.compare_gt_iff. nia.
  - symmetry. apply Z.compare_lt_iff.
    assert (2 ^ Zdigits2 a <= 2 ^ (Zdigits2 b - 1))
      by (apply Z.pow_le_mono_r; lia).
    lia.
  - symmetry. apply Z.compare_gt_iff.
    assert (2 ^ Zdigits2 b <= 2 ^ (Zdigits2 a - 1))
      by (apply Z.pow_le_mono_r; lia).
    lia.
Qed.

(** Integers below 2^53 compare as doubles the way they compare as
    integers. *)
Lemma ofZ_compare a b :
  - 2 ^ 53 < a < 2 ^ 53 -> - 2 ^ 53 < b < 2 ^ 53 ->
  SFcompare (Num.ofZ a) (Num.ofZ b) = Some (Z.compare a b).
Proof.
  intros Ha Hb.
  assert (Hpos : forall p, Z.pos p < 2 ^ 53 ->
            Num.ofZ (Z.pos p) = canon false (Z.pos p))
    by (intros p Hp; apply ofZ_canon; lia).
  destruct a as [|p|p], b as [|q|q];
    rewrite ?Hpos, ?ofZ_neg by lia; try reflexivity.
  - unfold canon, SFcompare. rewrite compare_cont_Z.
    rewrite (canon_compare (Z.pos p) (Z.pos q)) by lia. reflexivity.
  - unfold canon, SFcompare. rewrite compare_cont_Z.
    pose proof (canon_compare (Z.pos p) (Z.pos q) ltac:(lia) ltac:(lia)) as H.
    cbn [Z.compare] in H |- *.
    destruct (Z.compare (Zdigits2 (Z.pos p) - 53) (Zdigits2 (Z.pos q) - 53));
      rewrite <- H; reflexivity.
Qed.

Lemma ofZ_ltb a b :
  - 2 ^ 53 < a < 2 ^ 53 -> - 2 ^ 53 < b < 2 ^ 53 ->
  Num.ltb (Num.ofZ a) (Num.ofZ b) = (a <? b).
Proof.
  intros Ha Hb. unfold Num.ltb, SFltb. rewrite ofZ_compare by assumption.
  unfold Z.ltb. destruct (a ?= b); reflexivity.
Qed.

Lemma canon_integer s a :
  0 < a < 2 ^ 53 ->
  Num.isInteger (canon s a) = true
  /\ Num.toZ (canon s a) = (if s then - a else a).
Proof.
  intros Ha. pose proof (digits_le_53 a Ha).
  assert (Hp : 0 < 2 ^ (53 - Zdigits2 a)) by (apply Z.pow_pos_nonneg; lia).
  unfold canon, Num.isInteger, Num.toZ.
  rewrite !Z2Pos.id by nia.
  replace (- (Zdigits2 a - 53)) with (53 - Zdigits2 a) by lia.
  rewrite Z.mod_mul, Z.div_mul by lia. split.
  - apply orb_true_r.
  - destruct (Z.leb_spec 0 (Zdigits2 a - 53)); [|reflexivity].
    replace (Zdigits2 a - 53) with 0 by lia.
    replace (53 - Zdigits2 a) with 0 by lia.
    rewrite !Z.pow_0_r, !Z.mul_1_r. reflexivity.
Qed.

Lemma ofZ_integer n :
  - 2 ^ 53 < n < 2 ^ 53 ->
  Num.isInteger (Num.ofZ n) = true /\ Num.toZ (Num.ofZ n) = n.
Proof.
  intros Hn. destruct n as [|p|p].
  - split; reflexivity.
  - rewrite ofZ_canon by lia. apply (canon_integer false). lia.
  - rewrite ofZ_neg by lia.
    destruct (canon_integer true (Z.pos p) ltac:(lia)) as [H1 H2].
    split; [exact H1|]. rewrite H2. reflexivity.
Qed.

End Compare.

(** ** Further properties of the loop manager *)

Section ManagerExtras.
Import Analyzer Manager Obs Lifecycle.

Lemma cancelLoop_files w :
  historyFile (run cancelLoop w) = historyFile w
  /\ throws (run cancelLoop w) = throws w.
Proof.
  destruct (activeState w) as [s|] eqn:Ha.
  - destruct w as [st last sf hf log clk tk thr calls]. io. rewrite Ha. cbn.
    destruct sf; cbn; [destruct (thr _ _)|]; auto.
  - unfold run. rewrite (cancelLoop_idle w Ha). auto.
Qed.

Lemma newManager_files readable w :
  historyFile (run (newManager readable) w) = historyFile w
  /\ stateFile (run (newManager readable) w) = stateFile w
  /\ lastIterationStartTime (run (newManager readable) w) = None
  /\ state (run (newManager readable) w) =
     match stateFile w with
     | Some data => if readable then data else None
     | None => None
     end.
Proof.
  destruct w as [st last sf hf log clk tk thr calls].
  unfold newManager, loadState. io. cbn.
  destruct sf; [destruct readable|]; cbn; auto.
Qed.

Lemma perform_historyFile c w :
  exists added,
    historyFile (perform c w) = historyFile w ++ added
    /\ (List.length added <= if isProcessIteration c then 1 else 0)%nat.
Proof.
  destruct c as [p m cp g a| |lastOutput metadata|readable]; cbn [perform].
  - exists []. rewrite app_nil_r.
    destruct (startLoop_state w p m cp g a) as (_ & _ & _ & _ & _ & _ & _ & _ & H).
    split; [exact H|cbn; lia].
  - exists []. rewrite app_nil_r. split; [apply cancelLoop_files|cbn; lia].
  - destruct (activeState w) as [s|] eqn:Ha.
    + rewrite (step_historyFile w s lastOutput metadata Ha).
      destruct (appendOk w).
      * eexists. split; [reflexivity|cbn; lia].
      * exists []. rewrite app_nil_r. split; [reflexivity|cbn; lia].
    + unfold run. rewrite (processIteration_idle w lastOutput metadata Ha).
      exists []. rewrite app_nil_r. split; [reflexivity|cbn; lia].
  - exists []. rewrite app_nil_r. split; [apply newManager_files|cbn; lia].
Qed.

(** X1. The history log is append-only: whatever sequence of
    [startLoop], [cancelLoop], [processIteration] calls and manager
    restarts is made, the history file afterwards is the history file
    before followed by new lines, at most one per [processIteration]
    call.  In particular starting a new loop does not clear the log of
    the previous one. *)
Theorem X1_history_log_append_only calls : forall w,
  exists added,
    historyFile (performAll calls w) = historyFile w ++ added
    /\ (List.length added <= List.length (filter isProcessIteration calls))%nat.
Proof.
  induction calls as [|c rest IH]; intros w.
  - exists []. rewrite app_nil_r. split; [reflexivity|cbn; lia].
  - cbn [performAll fold_left]. fold (performAll rest (perform c w)).
    destruct (IH (perform c w)) as (added2 & H2 & L2).
    destruct (perform_historyFile c w) as (added1 & H1 & L1).
    exists (added1 ++ added2). rewrite H2, H1, <- app_assoc.
    split; [reflexivity|]. rewrite length_app. cbn [filter].
    destruct (isProcessIteration c); cbn [List.length]; lia.
Qed.

(** A loop without a usable promise and without a limit. *)
Lemma unlimited_step s lastOutput :
  maxIterations s <= 0 ->
  completionPromise s = None \/ completionPromise s = Some [] ->
  detectCompletion (completionPromise s) lastOutput = false
  /\ maxReached s = false.
Proof.
  intros Hmax Hcp. split.
  - unfold detectCompletion. destruct Hcp as [-> | ->]; reflexivity.
  - unfold maxReached. apply andb_false_iff. left. apply Z.ltb_ge. exact Hmax.
Qed.

Lemma unlimited_run calls : forall w s,
  activeState w = Some s ->
  maxIterations s <= 0 ->
  completionPromise s = None \/ completionPromise s = Some [] ->
  Forall (fun r => completed r = false) (result (processAll calls) w)
  /\ exists s',
       activeState (run (processAll calls) w) = Some s'
       /\ iteration s' = iteration s + Z.of_nat (List.length calls).
Proof.
  induction calls as [|c rest IH]; intros w s Ha Hmax Hcp.
  - split; [constructor|]. exists s. cbn. split; [exact Ha|lia].
  - destruct (processAll_cons c rest w) as [Hr Hw]. rewrite Hr, Hw.
    destruct (unlimited_step s (call_output c) Hmax Hcp)
      as [Hd Hm].
    destruct (step_continue w s (call_output c) (call_metadata c) Ha Hd Hm)
      as (Hres & Hs & _).
    destruct (activeState_Some _ _ Ha) as [_ Hact].
    pose proof (activeState_intro _ _ Hs Hact) as Ha'.
    destruct (IH _ _ Ha' Hmax Hcp) as (Hall & s' & Hs' & Hi).
    split.
    + constructor; [rewrite Hres; reflexivity|exact Hall].
    + exists s'. split; [exact Hs'|].
      rewrite Hi. cbn [iteration setIteration List.length]. lia.
Qed.

(** X2. A loop with [maxIterations <= 0] whose completion promise is
    [null] or the empty string never ends by itself: every
    [processIteration] call, whatever its output, returns
    [completed = false] and leaves the loop active.  As long as the
    counter, starting at 1 or above, stays below 2^53, [n] calls
    advance it by [n]: every sum [iteration + 1] of the source is
    exact there.  At 2^53 the sum of the source is 2^53 again. *)
Theorem X2_unlimited_loop_never_ends calls : forall w s,
  activeState w = Some s ->
  maxIterations s <= 0 ->
  completionPromise s = None \/ completionPromise s = Some [] ->
  Forall (fun r => completed r = false) (result (processAll calls) w)
  /\ (exists s',
        activeState (run (processAll calls) w) = Some s'
        /\ (1 <= iteration s ->
            iteration s + Z.of_nat (List.length calls) < 2 ^ 53 ->
            iteration s' = iteration s + Z.of_nat (List.length calls)
            /\ forall k,
                 (k < List.length calls)%nat ->
                 nextIteration (iteration s + Z.of_nat k)
                 = Num.ofZ (iteration s + Z.of_nat k + 1)))
  /\ nextIteration (2 ^ 53) = Num.ofZ (2 ^ 53).
Proof.
  intros w s Ha Hmax Hcp.
  destruct (unlimited_run calls w s Ha Hmax Hcp) as (Hall & s' & Hs' & Hi).
  split; [exact Hall|]. split; [|vm_compute; reflexivity].
  exists s'. split; [exact Hs'|]. intros Hlow Hhigh.
  split; [exact Hi|]. intros k Hk. unfold nextIteration, Num.one.
  apply add_integers_exact; lia.
Qed.

Lemma X2_unlimited_loop_never_ends_witness :
  let w := run (startLoop (js "task") 0 (Some []) true false) idleWorld in
  let s := result (startLoop (js "task") 0 (Some []) true false) idleWorld in
  let calls := [ {| call_output := js "<promise></promise>";
                    call_metadata := None |};
                 {| call_output := js "done"; call_metadata := None |} ] in
  activeState w = Some s
  /\ Forall (fun r => completed r = false) (result (processAll calls) w)
  /\ exists s',
       activeState (run (processAll calls) w) = Some s'
       /\ iteration s' = 3
       /\ nextIteration 1 = Num.ofZ 2 /\ nextIteration 2 = Num.ofZ 3.
Proof.
  intros w s calls.
  assert (Ha : activeState w = Some s) by (vm_compute; reflexivity).
  split; [exact Ha|].
  destruct (X2_unlimited_loop_never_ends calls w s Ha
              ltac:(vm_compute; discriminate)
              ltac:(right; vm_compute; reflexivity))
    as (Hall & (s' & Hs' & Hcount) & _).
  split; [exact Hall|]. exists s'. split; [exact Hs'|].
  destruct (Hcount ltac:(vm_compute; discriminate) ltac:(reflexivity))
    as (Hi & Hexact).
  split; [exact Hi|].
  split; [exact (Hexact 0%nat ltac:(cbn; lia))
         |exact (Hexact 1%nat ltac:(cbn; lia))].
Defined.

(** The records [n] continuing calls add to the history. *)
Lemma processAll_records calls : forall w s,
  activeState w = Some s ->
  Forall (fun r => completed r = false) (result (processAll calls) w) ->
  exists s' added,
    activeState (run (processAll calls) w) = Some s'
    /\ history s' = history s ++ added
    /\ map entry_iteration added =
       map (fun k => iteration s + Z.of_nat k) (seq 0 (List.length calls))
    /\ map output added =
       map (fun c => JsString.substring0 1000 (call_output c)) calls.
Proof.
  induction calls as [|c rest IH]; intros w s Ha Hall.
  - exists s, []. cbn. rewrite app_nil_r. auto.
  - destruct (processAll_cons c rest w) as [Hr Hw].
    rewrite Hr in Hall. inversion Hall as [|? ? Hc Hrest]; subst.
    destruct (not_completed_inv _ _ _ _ Ha Hc) as [Hd Hm].
    destruct (step_continue w s (call_output c) (call_metadata c) Ha Hd Hm)
      as (_ & Hs & _).
    destruct (activeState_Some _ _ Ha) as [_ Hact].
    specialize (IH _ _ (activeState_intro _ _ Hs Hact) Hrest).
    destruct IH as (s' & added & Ha' & Hh & Hi & Ho).
    exists s', (nextEntry w s (call_output c) (call_metadata c) :: added).
    rewrite Hw. split; [exact Ha'|].
    cbn [history setIteration pushHistory iteration] in *.
    rewrite Hh, <- app_assoc. split; [reflexivity|].
    cbn [List.length seq map]. rewrite Hi, Ho. split.
    + f_equal; [cbn; lia|]. rewrite <- seq_shift, map_map.
      apply map_ext. intros k. lia.
    + reflexivity.
Qed.

(** X3. After [startLoop] and [n] consecutive [processIteration] calls
    that each return [completed = false], the in-memory history holds
    one record per call, in call order: the records carry the iteration
    numbers 1, 2, ..., n, and each keeps the first 1000 code units of
    the output it was called with. *)
Theorem X3_history_records_calls w p m cp g a calls :
  let w1 := run (startLoop p m cp g a) w in
  Forall (fun r => completed r = false) (result (processAll calls) w1) ->
  exists s,
    activeState (run (processAll calls) w1) = Some s
    /\ map entry_iteration (history s) =
       map Z.of_nat (seq 1 (List.length calls))
    /\ map output (history s) =
       map (fun c => JsString.substring0 1000 (call_output c)) calls.
Proof.
  intros w1 Hall.
  destruct (startLoop_state w p m cp g a) as (_ & Ha & _ & Hi & Hh & _).
  fold w1 in Ha.
  destruct (processAll_records calls w1 _ Ha Hall)
    as (s & added & Hs & Hhist & Hnum & Hout).
  exists s. split; [exact Hs|]. rewrite Hhist, Hh, Hi in *. cbn [app].
  split.
  - rewrite Hnum, <- seq_shift, map_map. apply map_ext. intros k. lia.
  - exact Hout.
Qed.

Lemma X3_history_records_calls_witness :
  let calls := [ {| call_output := js "first"; call_metadata := None |};
                 {| call_output := js "second"; call_metadata := None |} ] in
  let w1 := run (startLoop (js "task") 0 None true false) idleWorld in
  Forall (fun r => completed r = false) (result (processAll calls) w1)
  /\ exists s,
       activeState (run (processAll calls) w1) = Some s
       /\ map entry_iteration (history s) =
          map Z.of_nat (seq 1 (List.length calls))
       /\ map output (history s) =
          map (fun c => JsString.substring0 1000 (call_output c)) calls.
Proof.
  intros calls w1.
  assert (H : Forall (fun r => completed r = false)
                     (result (processAll calls) w1))
    by (vm_compute; repeat constructor).
  split; [exact H|].
  exact (X3_history_records_calls idleWorld (js "task") 0 None true false
           calls H).
Defined.

(** *** Which promises can be detected *)

Lemma trimStart_split x :
  exists a, x = a ++ JsString.trimStart x
            /\ forallb JsString.isWhiteSpace a = true.
Proof.
  induction x as [|c x (a & Hx & Ha)]; [exists []; auto|]. cbn.
  destruct (JsString.isWhiteSpace c) eqn:E.
  - exists (c :: a). cbn. rewrite E, Ha. split; [congruence|reflexivity].
  - exists []. auto.
Qed.

Lemma trimStart_head x c rest :
  JsString.trimStart x = c :: rest -> JsString.isWhiteSpace c = false.
Proof.
  induction x as [|d x IH]; cbn; [discriminate|].
  destruct (JsString.isWhiteSpace d) eqn:E; [exact IH|].
  intros [= <- _]. exact E.
Qed.

Lemma trimStart_fixed c rest :
  JsString.isWhiteSpace c = false ->
  JsString.trimStart (c :: rest) = c :: rest.
Proof. intros E. cbn. rewrite E. reflexivity. Qed.

(** The trimmed string is what is left between two runs of white
    space, and neither begins nor ends with white space. *)
Lemma trim_split x :
  exists a b, x = a ++ JsString.trim x ++ b
              /\ forallb JsString.isWhiteSpace a = true
              /\ forallb JsString.isWhiteSpace b = true.
Proof.
  unfold JsString.trim, JsString.trimEnd.
  destruct (trimStart_split x) as (a & Hx & Ha).
  destruct (trimStart_split (rev (JsString.trimStart x))) as (b & Hy & Hb).
  exists a, (rev b). split; [|split].
  - rewrite Hx at 1. f_equal. rewrite <- rev_app_distr, <- Hy, rev_involutive.
    reflexivity.
  - exact Ha.
  - rewrite forallb_forall in *. intros c Hc. apply Hb, in_rev, Hc.
Qed.

Lemma trim_not_padded x : ~ padded (JsString.trim x).
Proof.
  unfold JsString.trim, JsString.trimEnd.
  set (y := JsString.trimStart x).
  destruct (trimStart_split (rev y)) as (b & Hy & Hb).
  set (z := JsString.trimStart (rev y)) in *.
  intros [(c & rest & Hc & Hws)|(rest & c & Hc & Hws)].
  - (* the first code unit of the result *)
    destruct z as [|d z'] eqn:Hz; [discriminate|].
    pose proof (trimStart_head _ _ _ Hz) as Hd. fold z in Hz.
    assert (Hyy : y = rev z' ++ d :: rev b).
    { rewrite <- (rev_involutive y), Hy, rev_app_distr. cbn.
      rewrite <- app_assoc. reflexivity. }
    cbn in Hc. destruct (rev z') as [|e r] eqn:Hr.
    + cbn in Hc. injection Hc as <- _. congruence.
    + cbn in Hc. injection Hc as <- _.
      cbn in Hyy. unfold y in Hyy.
      pose proof (trimStart_head _ _ _ Hyy). congruence.
  - destruct z as [|d z'] eqn:Hz.
    + destruct rest; discriminate.
    + pose proof (trimStart_head _ _ _ Hz) as Hd.
      cbn in Hc. apply app_inj_tail in Hc as [_ <-]. congruence.
Qed.

Lemma trim_fixed x : x <> [] -> ~ padded x -> JsString.trim x = x.
Proof.
  intros Hne Hp. unfold JsString.trim, JsString.trimEnd.
  destruct x as [|c rest]; [contradiction|].
  assert (Hc : JsString.isWhiteSpace c = false).
  { destruct (JsString.isWhiteSpace c) eqn:E; [|reflexivity].
    exfalso. apply Hp. left. eauto. }
  rewrite (trimStart_fixed c rest Hc).
  destruct (rev (c :: rest)) as [|d r] eqn:Hr.
  - apply (f_equal (@List.length _)) in Hr. rewrite length_rev in Hr.
    discriminate.
  - assert (Hd : JsString.isWhiteSpace d = false).
    { destruct (JsString.isWhiteSpace d) eqn:E; [|reflexivity].
      exfalso. apply Hp. right. exists (rev r), d. split; [|exact E].
      rewrite <- (rev_involutive (c :: rest)), Hr. reflexivity. }
    rewrite (trimStart_fixed d r Hd), <- Hr. apply rev_involutive.
Qed.

(** The general form of the completion check. *)
Lemma detectCompletion_iff p lastOutput :
  detectCompletion (Some p) lastOutput = true <->
  p <> []
  /\ exists pre inner post,
       FirstSpan lastOutput pre inner post /\ JsString.trim inner = p.
Proof.
  unfold detectCompletion. destruct p as [|c p].
  - split; [discriminate|]. intros [H _]. contradiction.
  - destruct (matchPromise lastOutput) as [group1|] eqn:Hm.
    + apply matchPromise_spec in Hm as (pre & post & Hspan).
      rewrite eqb_eq. split.
      * intros H. split; [discriminate|]. exists pre, group1, post. auto.
      * intros (_ & pre' & inner & post' & Hspan' & Htrim).
        assert (Hm1 : matchPromise lastOutput = Some group1)
          by (apply matchPromise_spec; eauto).
        assert (Hm2 : matchPromise lastOutput = Some inner)
          by (apply matchPromise_spec; eauto).
        congruence.
    + split; [discriminate|].
      intros (_ & pre & inner & post & Hspan & _).
      assert (Hm2 : matchPromise lastOutput = Some inner)
        by (apply matchPromise_spec; eauto).
      congruence.
Qed.

(** X4. For every completion promise, [processIteration] on an active
    loop completes it with [completionDetected = true] exactly when the
    promise is not the empty string and the first
    [<promise>...</promise>] span of the output - from the leftmost
    opening tag to the first closing tag after it - has trimmed
    contents equal to the promise. *)
Theorem X4_promise_detection w s p lastOutput metadata :
  activeState w = Some s ->
  completionPromise s = Some p ->
  completesByPromise (result (processIteration lastOutput metadata) w) <->
  p <> []
  /\ exists pre inner post,
       FirstSpan lastOutput pre inner post /\ JsString.trim inner = p.
Proof.
  intros Ha Hcp.
  rewrite (completes_iff_detected w s lastOutput metadata Ha), Hcp.
  apply detectCompletion_iff.
Qed.

Lemma X4_promise_detection_witness :
  let w := run (startLoop (js "task") 0 (Some (js "ALL TESTS PASS")) true false)
               idleWorld in
  let s := result (startLoop (js "task") 0 (Some (js "ALL TESTS PASS"))
                             true false) idleWorld in
  let lastOutput := js "ok <promise> ALL TESTS PASS </promise>" in
  activeState w = Some s
  /\ completionPromise s = Some (js "ALL TESTS PASS")
  /\ (completesByPromise (result (processIteration lastOutput None) w) <->
      js "ALL TESTS PASS" <> []
      /\ exists pre inner post,
           FirstSpan lastOutput pre inner post
           /\ JsString.trim inner = js "ALL TESTS PASS").
Proof.
  intros w s lastOutput.
  assert (Ha : activeState w = Some s) by (vm_compute; reflexivity).
  assert (Hcp : completionPromise s = Some (js "ALL TESTS PASS"))
    by (vm_compute; reflexivity).
  split; [exact Ha|]. split; [exact Hcp|].
  exact (X4_promise_detection w s _ lastOutput None Ha Hcp).
Defined.

(** X5. Some promises can never be detected.  If the completion
    promise of an active loop is the empty string, begins or ends with
    white space, or contains [</promise>], then no output makes
    [processIteration] complete the loop by its promise: the call
    completes only when the iteration limit is reached. *)
Theorem X5_undetectable_promise w s p lastOutput metadata :
  activeState w = Some s ->
  completionPromise s = Some p ->
  p = [] \/ padded p \/ occursIn closeTag p ->
  let r := result (processIteration lastOutput metadata) w in
  ~ completesByPromise r /\ completed r = maxReached s.
Proof.
  intros Ha Hcp Hbad r.
  assert (Hd : detectCompletion (completionPromise s) lastOutput = false).
  { rewrite Hcp. apply not_true_is_false. intros Hdet.
    apply detectCompletion_iff in Hdet
      as (Hne & pre & inner & post & (Hs & _ & Hclose) & Htrim).
    destruct Hbad as [Hnil|[Hpad|(u & v & Hocc)]].
    - contradiction.
    - apply (trim_not_padded inner). rewrite Htrim. exact Hpad.
    - destruct (trim_split inner) as (a & b & Hinner & _).
      rewrite Htrim, Hocc in Hinner.
      specialize (Hclose (List.length (a ++ u))).
      assert (Hlt : (List.length (a ++ u) < List.length inner)%nat).
      { rewrite Hinner. rewrite !length_app.
        assert (0 < List.length closeTag)%nat by (vm_compute; lia). lia. }
      specialize (Hclose Hlt).
      assert (Hpre : JsString.startsWith closeTag
                (skipn (List.length (a ++ u)) (inner ++ closeTag ++ post))
              = true).
      { apply startsWith_iff. exists (v ++ b ++ closeTag ++ post).
        rewrite Hinner.
        replace (((a ++ (u ++ closeTag ++ v) ++ b) ++ closeTag ++ post))
          with ((a ++ u) ++ closeTag ++ v ++ b ++ closeTag ++ post)
          by (rewrite <- !app_assoc; reflexivity).
        rewrite skipn_app, Nat.sub_diag, skipn_all. reflexivity. }
      congruence. }
  split.
  - intros Hc. apply (completes_iff_detected w s lastOutput metadata Ha) in Hc.
    congruence.
  - subst r. destruct (maxReached s) eqn:Hm.
    + apply (step_max w s lastOutput metadata Ha Hd Hm).
    + destruct (step_continue w s lastOutput metadata Ha Hd Hm) as (-> & _).
      reflexivity.
Qed.

Lemma X5_undetectable_promise_witness :
  let w := run (startLoop (js "task") 0 (Some (js "DONE ")) true false)
               idleWorld in
  let s := result (startLoop (js "task") 0 (Some (js "DONE ")) true false)
                  idleWorld in
  activeState w = Some s
  /\ completionPromise s = Some (js "DONE ")
  /\ padded (js "DONE ")
  /\ ~ completesByPromise
        (result (processIteration (js "<promise>DONE </promise>") None) w).
Proof.
  intros w s.
  assert (Ha : activeState w = Some s) by (vm_compute; reflexivity).
  assert (Hcp : completionPromise s = Some (js "DONE "))
    by (vm_compute; reflexivity).
  assert (Hpad : padded (js "DONE ")).
  { right. exists (js "DONE"), 32%N. split; vm_compute; reflexivity. }
  split; [exact Ha|]. split; [exact Hcp|]. split; [exact Hpad|].
  exact (proj1 (X5_undetectable_promise w s _ (js "<promise>DONE </promise>")
                  None Ha Hcp (or_intror (or_introl Hpad)))).
Defined.

(** X6. When [processIteration] ends an active loop - by its promise
    or by the iteration limit - the manager forgets the loop and its
    in-memory history: [getHistory] returns the empty list,
    [isLoopActive] is false and [getState] returns [null].  For a
    manager whose history path differs from its state path, the
    record of the final call is then kept only in the history file,
    when the append succeeded. *)
Theorem X6_history_dropped_at_end w s lastOutput metadata :
  activeState w = Some s ->
  completed (result (processIteration lastOutput metadata) w) = true ->
  let w' := run (processIteration lastOutput metadata) w in
  result getHistory w' = []
  /\ result isLoopActive w' = false
  /\ result getState w' = None
  /\ forall stateFilePath,
       separateFiles stateFilePath ->
       historyFile w' =
       if appendOk w
       then historyFile w ++ [nextEntry w s lastOutput metadata]
       else historyFile w.
Proof.
  intros Ha Hc w'.
  assert (Hs : state w' = None).
  { subst w'.
    destruct (detectCompletion (completionPromise s) lastOutput) eqn:Hd.
    - apply (step_promise w s lastOutput metadata Ha Hd).
    - destruct (maxReached s) eqn:Hm.
      + apply (step_max w s lastOutput metadata Ha Hd Hm).
      + destruct (step_continue w s lastOutput metadata Ha Hd Hm)
          as (Hr & _).
        rewrite Hr in Hc. discriminate. }
  split; [|split; [|split]].
  - unfold result, getHistory. cbn. rewrite Hs. reflexivity.
  - unfold result, isLoopActive, activeState. cbn. rewrite Hs. reflexivity.
  - unfold result, getState, getField. cbn. exact Hs.
  - intros stateFilePath _. apply step_historyFile, Ha.
Qed.

Lemma X6_history_dropped_at_end_witness :
  let w := run (startLoop (js "task") 1 None true false) idleWorld in
  let s := result (startLoop (js "task") 1 None true false) idleWorld in
  let w' := run (processIteration (js "only call") None) w in
  activeState w = Some s
  /\ completed (result (processIteration (js "only call") None) w) = true
  /\ separateFiles defaultStateFilePath
  /\ result getHistory w' = []
  /\ historyFile w' = historyFile w ++ [nextEntry w s (js "only call") None].
Proof.
  intros w s w'.
  assert (Ha : activeState w = Some s) by (vm_compute; reflexivity).
  assert (Hc : completed (result (processIteration (js "only call") None) w)
               = true) by (vm_compute; reflexivity).
  assert (Hsep : separateFiles defaultStateFilePath)
    by (vm_compute; discriminate).
  split; [exact Ha|]. split; [exact Hc|]. split; [exact Hsep|].
  split.
  - exact (proj1 (X6_history_dropped_at_end w s (js "only call") None Ha Hc)).
  - exact (proj2 (proj2 (proj2
             (X6_history_dropped_at_end w s (js "only call") None Ha Hc)))
             defaultStateFilePath Hsep).
Defined.

(** *** The list of repeated errors *)

Lemma In_get k v m :
  NoDup (map fst m) -> In (k, v) m -> StrMap.get k m = Some v.
Proof.
  induction m as [|[k' v'] m IH]; cbn; [contradiction|].
  intros Hnd Hin. inversion Hnd as [|? ? Hnot Hnd']; subst.
  destruct (JsString.eqb k k') eqn:E.
  - apply eqb_eq in E. subst k'. destruct Hin as [[= ->]|Hin]; [reflexivity|].
    exfalso. apply Hnot. change k with (fst (k, v)). apply in_map, Hin.
  - destruct Hin as [[= -> ->]|Hin]; [|auto].
    rewrite (proj2 (eqb_eq k k) eq_refl) in E. discriminate.
Qed.

Lemma NoDup_keys_filter (f : jsstring * Z -> bool) m :
  NoDup (map fst m) -> NoDup (map fst (filter f m)).
Proof.
  induction m as [|kv m IH]; cbn; [auto|].
  intros Hnd. inversion Hnd as [|? ? Hnot Hnd']; subst.
  destruct (f kv); cbn; [|auto]. constructor; [|auto].
  intros Hin. apply Hnot. apply in_map_iff in Hin as (kv' & Hk & Hin).
  apply filter_In in Hin as [Hin _]. rewrite <- Hk. apply in_map, Hin.
Qed.

(** X7. [repeatedErrors] is exact: a signature is listed if and only
    if the history has at least three records and the signature occurs
    at least three times among all their errors; and no signature is
    listed twice. *)
Theorem X7_repeated_errors_exact history :
  NoDup (repeatedErrors (analyze history))
  /\ forall sig,
       In sig (repeatedErrors (analyze history)) <->
       (3 <= List.length history)%nat
       /\ (3 <= occurrences sig history)%nat.
Proof.
  destruct (Nat.lt_ge_cases (List.length history) 3) as [Hshort|Hlen].
  - assert (Hm : analyze history = metrics0).
    { unfold analyze.
      destruct (Z.ltb_spec (Z.of_nat (List.length history)) 3);
        [reflexivity|lia]. }
    rewrite Hm. cbn. split; [constructor|]. intros sig. split; [tauto|lia].
  - rewrite analyze_repeatedErrors by assumption.
    destruct (keys_fold_bump (signatures history) [] (NoDup_nil _))
      as [Hnd _].
    set (freq := fold_left bump (signatures history) []) in *.
    split; [apply NoDup_keys_filter, Hnd|].
    intros sig. split.
    + intros Hin. split; [assumption|]. unfold findRepeated in Hin.
      apply in_map_iff in Hin as ([k v] & Hk & Hin). cbn in Hk. subst k.
      apply filter_In in Hin as [Hin Hv]. cbn in Hv. apply Z.leb_le in Hv.
      apply (In_get _ _ _ Hnd) in Hin.
      pose proof (get_fold_bump sig (signatures history) []) as Hget.
      fold freq in Hget. rewrite Hin in Hget. unfold occurrences.
      destruct (count_occ jsstring_eq_dec (signatures history) sig);
        [discriminate|].
      cbn [StrMap.get] in Hget. injection Hget as ->. lia.
    + intros [_ Hocc].
      pose proof (get_fold_bump sig (signatures history) []) as Hget.
      fold freq in Hget. unfold occurrences in Hocc.
      destruct (count_occ jsstring_eq_dec (signatures history) sig) as [|n];
        [lia|].
      cbn [StrMap.get] in Hget.
      apply (findRepeated_In sig freq _ Hget). lia.
Qed.

(** *** The files of the manager *)

Lemma replaceFirst_eq pattern replacement s :
  replaceFirst pattern replacement s =
  if JsString.startsWith pattern s
  then replacement ++ skipn (List.length pattern) s
  else match s with
       | [] => []
       | c :: s' => c :: replaceFirst pattern replacement s'
       end.
Proof. destruct s; reflexivity. Qed.

Lemma skipn_app_length {A} (a b : list A) : skipn (List.length a) (a ++ b) = b.
Proof. rewrite skipn_app, Nat.sub_diag, skipn_all. reflexivity. Qed.

(** Either the pattern does not occur and the string is returned as it
    is, or its first occurrence is replaced. *)
Lemma replaceFirst_spec pattern replacement s :
  ((forall k, JsString.startsWith pattern (skipn k s) = false)
   /\ replaceFirst pattern replacement s = s)
  \/ exists pre post,
       s = pre ++ pattern ++ post
       /\ (forall k, (k < List.length pre)%nat ->
                     JsString.startsWith pattern (skipn k s) = false)
       /\ replaceFirst pattern replacement s = pre ++ replacement ++ post.
Proof.
  induction s as [|c s IH]; rewrite replaceFirst_eq.
  - destruct (JsString.startsWith pattern []) eqn:E.
    + right. exists [], []. apply startsWith_iff in E as [t Ht].
      destruct pattern; [|discriminate]. destruct t; [|discriminate].
      cbn. split; [reflexivity|]. split; [intros k Hk; inversion Hk|reflexivity].
    + left. split; [|reflexivity]. intros k. rewrite skipn_nil. exact E.
  - destruct (JsString.startsWith pattern (c :: s)) eqn:E.
    + right. apply startsWith_iff in E as [t Ht]. exists [], t. rewrite Ht.
      rewrite skipn_app_length. cbn [app List.length].
      split; [reflexivity|]. split; [intros k Hk; inversion Hk|reflexivity].
    + destruct IH as [[Hno Hsame]|(pre & post & Hs & Hfirst & Hrep)].
      * left. split; [|rewrite Hsame; reflexivity].
        intros [|k]; [exact E|apply Hno].
      * right. exists (c :: pre), post. rewrite Hrep, Hs. cbn [app].
        split; [reflexivity|]. split; [|reflexivity].
        intros [|k] Hk; [rewrite <- Hs; exact E|].
        cbn [skipn]. rewrite <- Hs. apply Hfirst. cbn in Hk. lia.
Qed.

Lemma occursIn_startsWith pattern s :
  occursIn pattern s <->
  exists k, JsString.startsWith pattern (skipn k s) = true.
Proof.
  split.
  - intros (pre & post & ->). exists (List.length pre).
    rewrite skipn_app_length. apply startsWith_iff. eauto.
  - intros (k & Hk). apply startsWith_iff in Hk as [t Ht].
    exists (firstn k s), t. rewrite <- Ht. symmetry. apply firstn_skipn.
Qed.

(** X8. The history log path is the snapshot path with its first
    [-state.json] replaced by [-history.jsonl].  When the snapshot
    path does not contain [-state.json], the two paths are the same:
    the log and the snapshot are then one file; and only then. *)
Theorem X8_history_file_path stateFilePath :
  (forall pre post,
     stateFilePath = pre ++ js "-state.json" ++ post ->
     (forall k, (k < List.length pre)%nat ->
        JsString.startsWith (js "-state.json") (skipn k stateFilePath)
        = false) ->
     historyFilePath stateFilePath = pre ++ js "-history.jsonl" ++ post)
  /\ (historyFilePath stateFilePath = stateFilePath <->
      ~ occursIn (js "-state.json") stateFilePath).
Proof.
  unfold historyFilePath.
  set (pattern := js "-state.json"). set (replacement := js "-history.jsonl").
  destruct (replaceFirst_spec pattern replacement stateFilePath)
    as [[Hno Hsame]|(pre & post & Hs & Hfirst & Hrep)].
  - assert (Habsent : ~ occursIn pattern stateFilePath).
    { intros H. apply occursIn_startsWith in H as [k Hk].
      rewrite Hno in Hk. discriminate. }
    split; [|tauto].
    intros pre post Hs _. exfalso. apply Habsent. exists pre, post. exact Hs.
  - assert (Hat : forall pre0 post0,
              stateFilePath = pre0 ++ pattern ++ post0 ->
              JsString.startsWith pattern
                (skipn (List.length pre0) stateFilePath) = true).
    { intros pre0 post0 ->. rewrite skipn_app_length.
      apply startsWith_iff. eauto. }
    split.
    + intros pre' post' Hs' Hearly. rewrite Hrep.
      assert (Hlen : List.length pre = List.length pre').
      { destruct (Nat.lt_trichotomy (List.length pre) (List.length pre'))
          as [Hlt|[Heq|Hgt]]; [|exact Heq|]; exfalso.
        - specialize (Hearly _ Hlt). rewrite (Hat _ _ Hs) in Hearly.
          discriminate.
        - specialize (Hfirst _ Hgt). rewrite (Hat _ _ Hs') in Hfirst.
          discriminate. }
      assert (Hpre : pre = pre').
      { pose proof (f_equal (firstn (List.length pre)) Hs) as H1.
        pose proof (f_equal (firstn (List.length pre)) Hs') as H2.
        rewrite firstn_app, Nat.sub_diag, firstn_all in H1.
        rewrite Hlen in H2 at 2.
        rewrite firstn_app, Nat.sub_diag, firstn_all in H2.
        cbn in H1, H2. rewrite app_nil_r in H1, H2. congruence. }
      subst pre'. rewrite Hs in Hs'.
      apply app_inv_head in Hs'. apply app_inv_head in Hs'. subst. reflexivity.
    + split.
      * intros Hsame. exfalso. rewrite Hrep in Hsame.
        apply (f_equal (@List.length _)) in Hsame.
        rewrite Hs in Hsame. rewrite !length_app in Hsame.
        assert (List.length replacement = 14%nat) by reflexivity.
        assert (List.length pattern = 11%nat) by reflexivity. lia.
      * intros Habsent. exfalso. apply Habsent. exists pre, post. exact Hs.
Qed.

Lemma X8_history_file_path_witness :
  historyFilePath (js "/tmp/loops/ralph-loop-state.json")
  = js "/tmp/loops/ralph-loop" ++ js "-history.jsonl" ++ [].
Proof.
  apply (proj1 (X8_history_file_path (js "/tmp/loops/ralph-loop-state.json"))
               (js "/tmp/loops/ralph-loop") []).
  - vm_compute. reflexivity.
  - intros k Hk.
    assert (Hk' : (k < 21)%nat) by exact Hk.
    do 21 (destruct k as [|k]; [vm_compute; reflexivity|]). lia.
Defined.

(** *** A new manager over the same files *)



(** X10. [cancelLoop] on an active loop returns [true] and clears
    the manager even when the snapshot file cannot be deleted; the
    snapshot then stays on disk, and a manager constructed afterwards
    loads it: the cancelled loop is active again, in the state of its
    last snapshot.  When the deletion succeeds the new manager has no
    loop. *)
Theorem X10_cancelled_loop_comes_back w s snapshot :
  activeState w = Some s ->
  stateFile w = Some (Some snapshot) ->
  active snapshot = true ->
  let w1 := run cancelLoop w in
  result cancelLoop w = true
  /\ result isLoopActive w1 = false
  /\ activeState (run (newManager true) w1) =
     if throws w OpUnlinkState (fs_calls w) then Some snapshot else None.
Proof.
  intros Ha Hfile Hact w1.
  destruct (cancelLoop_active w s Ha) as [Hr Hs]. fold w1 in Hs.
  split; [exact Hr|]. split.
  - unfold result, isLoopActive, activeState. cbn. rewrite Hs. reflexivity.
  - destruct (newManager_files true w1) as (_ & _ & _ & Hst).
    assert (Hf1 : stateFile w1 =
                  if throws w OpUnlinkState (fs_calls w)
                  then Some (Some snapshot) else None).
    { subst w1. destruct w as [st last sf hf log clk tk thr calls].
      io. world_fields. rewrite Ha. cbn. subst sf. cbn.
      destruct (thr OpUnlinkState calls); reflexivity. }
    rewrite Hf1 in Hst. unfold activeState. rewrite Hst.
    destruct (throws w OpUnlinkState (fs_calls w)); [|reflexivity].
    rewrite Hact. reflexivity.
Qed.

Lemma X10_cancelled_loop_comes_back_witness :
  let w := run (startLoop (js "task") 0 None true false) stickyWorld in
  let s := result (startLoop (js "task") 0 None true false) stickyWorld in
  activeState w = Some s
  /\ stateFile w = Some (Some s)
  /\ active s = true
  /\ result cancelLoop w = true
  /\ activeState (run (newManager true) (run cancelLoop w)) = Some s.
Proof.
  intros w s.
  assert (Ha : activeState w = Some s) by (vm_compute; reflexivity).
  assert (Hf : stateFile w = Some (Some s)) by (vm_compute; reflexivity).
  assert (Hact : active s = true) by (vm_compute; reflexivity).
  split; [exact Ha|]. split; [exact Hf|]. split; [exact Hact|].
  destruct (X10_cancelled_loop_comes_back w s s Ha Hf Hact) as (H1 & _ & H3).
  split; [exact H1|exact H3].
Defined.

End ManagerExtras.

(** ** Properties of the git integration *)

Section GitExtras.
Import Obs Lifecycle Git.

(** *** Messages *)

Lemma filter_idem {A} (f : A -> bool) l : filter f (filter f l) = filter f l.
Proof.
  induction l as [|x l IH]; cbn; [reflexivity|].
  destruct (f x) eqn:E; cbn; rewrite ?E, IH; reflexivity.
Qed.

Lemma filter_all {A} (f : A -> bool) l :
  (forall x, In x l -> f x = true) -> filter f l = l.
Proof.
  induction l as [|x l IH]; cbn; [reflexivity|]. intros H.
  rewrite (H x (or_introl eq_refl)). f_equal. apply IH. auto.
Qed.

Lemma In_firstn {A} n (l : list A) x : In x (firstn n l) -> In x l.
Proof.
  intros H. rewrite <- (firstn_skipn n l). apply in_or_app. left. exact H.
Qed.

Lemma sanitize_safe message :
  (List.length (sanitize message) <= 200)%nat
  /\ (forall c, In c (sanitize message) -> dangerous c = false).
Proof.
  unfold sanitize, JsString.substring0. split.
  - rewrite length_firstn. lia.
  - intros c Hc. apply In_firstn, filter_In in Hc as [_ Hc].
    apply negb_true_iff, Hc.
Qed.

(** X11. [stash] starts one process, git, without a shell - and none
    when the manager is disabled.  Its arguments are [stash] alone
    when there is no message or nothing is left of it, and
    [stash push -m <text>] otherwise, where the text is the message
    with the characters double quote, single quote, backtick, [$],
    [;], [<], [>], [|], [&] removed and then cut to 200 code units:
    the text is a prefix of what the removal leaves and is shorter
    than that only when it has 200 code units.  The answer is [true]
    exactly when the process exited with status 0.  A line feed is
    not removed. *)
Theorem X11_stash_sanitized_message enabled message sh :
  let text := stashText message in
  commands (snd (stash enabled message sh)) =
    commands sh ++ (if enabled then [stashCommand text] else [])
  /\ fst (stash enabled message sh) =
     enabled
     && exitedWithZero
          (spawnResult sh (List.length (commands sh)) (js "git")
             (stashArgs text))
  /\ (List.length text <= 200)%nat
  /\ (forall c, In c text -> dangerous c = false)
  /\ (forall m,
        message = Some m ->
        exists rest,
          filter (fun c => negb (dangerous c)) m = text ++ rest
          /\ (rest <> [] -> List.length text = 200%nat))
  /\ dangerous 10%N = false.
Proof.
  intros text.
  assert (Hrun : stash enabled message sh =
            if enabled
            then (exitedWithZero
                    (spawnResult sh (List.length (commands sh)) (js "git")
                       (stashArgs text)),
                  snd (spawnSync (js "git") (stashArgs text) sh))
            else (false, sh)).
  { subst text. unfold stash, stashText. destruct enabled; [|reflexivity].
    cbn [negb]. unfold sbind, sret, spawnSync.
    destruct message as [[|c m]|]; cbn [stashArgs fst snd];
      destruct (spawnResult sh _ _ _) as [?|[[|?|?]|] ? ?]; reflexivity. }
  split; [|split].
  - rewrite Hrun. destruct enabled; cbn [snd];
      [reflexivity|rewrite app_nil_r; reflexivity].
  - rewrite Hrun. destruct enabled; reflexivity.
  - subst text. unfold stashText.
    destruct message as [m|];
      [|repeat split; try (cbn; lia); try contradiction; discriminate].
    destruct (sanitize_safe m) as [Hlen Hsafe].
    split; [exact Hlen|]. split; [exact Hsafe|]. split; [|reflexivity].
    intros m' [= <-]. unfold sanitize, JsString.substring0.
    set (kept := filter (fun c => negb (dangerous c)) m).
    exists (skipn (Z.to_nat 200) kept). split.
    + symmetry. apply firstn_skipn.
    + intros Hrest. rewrite length_firstn.
      destruct (Nat.le_gt_cases (List.length kept) (Z.to_nat 200))
        as [Hle|Hgt].
      * rewrite skipn_all2 in Hrest by exact Hle. contradiction.
      * change (Z.to_nat 200) with 200%nat in *. lia.
Qed.

Lemma X11_stash_sanitized_message_witness :
  let message := Some (js "wip; rm -rf $HOME & `done`") in
  let sh := quietShell [] in
  stashText message = js "wip rm -rf HOME  done"
  /\ commands (snd (stash true message sh)) =
     [Spawn (js "git")
        [js "stash"; js "push"; js "-m"; js "wip rm -rf HOME  done"]]
  /\ fst (stash true message sh) = true
  /\ exists rest,
       filter (fun c => negb (dangerous c)) (js "wip; rm -rf $HOME & `done`")
       = stashText message ++ rest
       /\ (rest <> [] -> List.length (stashText message) = 200%nat).
Proof.
  intros message sh.
  pose proof (X11_stash_sanitized_message true message sh) as H.
  destruct H as (Hcmd & Hres & _ & _ & Hprefix & _).
  split; [vm_compute; reflexivity|].
  split; [exact Hcmd|]. split; [exact Hres|].
  exact (Hprefix _ eq_refl).
Defined.

(** *** Quoting *)

Lemma escape_body arg :
  let body :=
    flat_map (fun c => if N.eqb c 34 then [92; 34]%N else [c])
      (flat_map (fun c => if N.eqb c 92 then [92; 92]%N else [c]) arg) in
  bareQuote body = false /\ unescape body = arg.
Proof.
  induction arg as [|c arg [IH1 IH2]]; [split; reflexivity|].
  cbn [flat_map].
  destruct (N.eqb c 92) eqn:E92.
  - apply N.eqb_eq in E92. subst c. cbn. auto using f_equal.
  - destruct (N.eqb c 34) eqn:E34.
    + apply N.eqb_eq in E34. subst c. cbn. auto using f_equal.
    + cbn. rewrite E34. cbn. rewrite E34, E92. cbn. auto using f_equal.
Qed.

(** X12. [escapeShellArg] puts its argument between double quotes in
    a form that cannot close them and that loses nothing: in the text
    between the quotes no double quote stands unescaped, and undoing
    the backslash escapes gives the argument back; hence two different
    arguments never get the same quoted form. *)
Theorem X12_escapeShellArg_round_trip arg :
  (exists body,
     escapeShellArg arg = [34%N] ++ body ++ [34%N]
     /\ bareQuote body = false
     /\ unescape body = arg)
  /\ forall arg', escapeShellArg arg = escapeShellArg arg' -> arg = arg'.
Proof.
  split.
  - eexists. split; [reflexivity|]. apply escape_body.
  - intros arg' H. unfold escapeShellArg in H.
    apply app_inv_head in H. apply app_inv_tail in H.
    destruct (escape_body arg) as [_ H1].
    destruct (escape_body arg') as [_ H2].
    cbv zeta in H1, H2. rewrite H in H1. congruence.
Qed.

(** *** The status of the working tree *)

Lemma parseStatus_fold lines : forall m a d u,
  fold_left statusLine lines (m, a, d, u) =
  let entries := filter nonEmpty lines in
  (m ++ map pathOf (filter (fun l => includes 77 (statusOf l)) entries),
   a ++ map pathOf (filter (fun l => includes 65 (statusOf l)) entries),
   d ++ map pathOf (filter (fun l => includes 68 (statusOf l)) entries),
   u ++ map pathOf
          (filter (fun l => JsString.eqb (statusOf l) (js "??")) entries)).
Proof.
  induction lines as [|line lines IH]; intros m a d u; cbn [fold_left].
  - cbn. rewrite !app_nil_r. reflexivity.
  - destruct line as [|c line].
    + cbn [statusLine filter nonEmpty]. apply IH.
    + cbn [statusLine]. rewrite IH. cbv zeta. cbn [filter nonEmpty].
      fold (statusOf (c :: line)). fold (pathOf (c :: line)).
      destruct (includes 77 (statusOf (c :: line)));
        destruct (includes 65 (statusOf (c :: line)));
        destruct (includes 68 (statusOf (c :: line)));
        destruct (JsString.eqb (statusOf (c :: line)) (js "??"));
        cbn [map app]; rewrite <- ?app_assoc; reflexivity.
Qed.

(** X13. What [getStatus] reports.  When the manager is enabled and
    its three git queries succeed, the branch and the commit are the
    trimmed outputs, and each non-empty line of the porcelain output
    is listed, by its text from the fourth code unit on, under
    [modified], [added], [deleted] for each of the letters M, A, D
    that its two status columns contain, and under [untracked] when
    the columns are [??]; the lists keep the order of the output.  A
    line whose columns hold none of these - a rename, a copy - is in
    no list. *)
Theorem X13_getStatus_lists sh branchOut commitOut statusOutput :
  let n := List.length (commands sh) in
  execResult sh n (js "git rev-parse --abbrev-ref HEAD")
    = ExecReturned branchOut ->
  execResult sh (S n) (js "git rev-parse HEAD") = ExecReturned commitOut ->
  execResult sh (S (S n)) (js "git status --porcelain")
    = ExecReturned statusOutput ->
  let entries := filter nonEmpty (splitOn 10 statusOutput) in
  let listed (p : jsstring -> bool) := map pathOf (filter p entries) in
  fst (getStatus true sh) =
    {| exists_ := true;
       branch := Some (JsString.trim branchOut);
       commit := Some (JsString.trim commitOut);
       modified := listed (fun l => includes 77 (statusOf l));
       added := listed (fun l => includes 65 (statusOf l));
       deleted := listed (fun l => includes 68 (statusOf l));
       untracked := listed (fun l => JsString.eqb (statusOf l) (js "??")) |}.
Proof.
  intros n Hb Hc Hs entries listed.
  destruct sh as [cmds ex sp]. cbn in n, Hb, Hc, Hs. subst n.
  unfold getStatus, execSync, sbind, sret. cbn.
  rewrite Hb. cbn. rewrite length_app. cbn [List.length].
  rewrite Nat.add_1_r, Hc. cbn.
  rewrite !length_app. cbn [List.length]. rewrite !Nat.add_1_r, Hs.
  unfold parseStatus. rewrite parseStatus_fold. reflexivity.
Qed.

Lemma X13_getStatus_lists_witness :
  let status :=
    fst (getStatus true (quietShell samplePorcelain)) in
  modified status = [js "src/a.ts"]
  /\ added status = []
  /\ deleted status = []
  /\ untracked status = [js "notes.txt"].
Proof.
  intros status.
  pose proof (X13_getStatus_lists
                (quietShell samplePorcelain)
                (js "0123abc") (js "0123abc") _
                eq_refl eq_refl eq_refl) as H.
  fold status in H. rewrite H. vm_compute. auto.
Defined.

(** *** The commands [createCommit] and [stash] run *)

Ltac open_shell sh :=
  destruct sh as [cmds ex sp];
  unfold createCommit, stash, getLog, getRalphContext, isClean, getStatus,
    execSync, spawnSync, sbind, sret;
  cbn [fst snd commands execResult spawnResult negb].

Lemma commitMessage_shape message iteration :
  exists text,
    commitMessage message iteration =
      js "[ralph-iter-" ++ JsString.ofZ iteration ++ js "] " ++ text
    /\ (List.length text <= 200)%nat
    /\ forall c, In c text -> dangerous c = false.
Proof.
  exists (sanitize message).
  destruct (sanitize_safe message) as (H1 & H2).
  split; [reflexivity|]. auto.
Qed.

Ltac shell_cases ex sp :=
  repeat (cbn [fst snd commands execResult spawnResult negb orb andb
               modified added deleted untracked nonEmpty];
          match goal with
          | |- context [ex ?n ?c] => destruct (ex n c) as [?|?]
          | |- context [sp ?n ?f ?a] =>
              destruct (sp n f a) as [?|[[|?|?]|] ? [[|? ?]|]]
          | |- context [parseStatus ?o] =>
              destruct (parseStatus o) as [[[[|? ?] [|? ?]] [|? ?]] ?]
          end).

Ltac solve_whitelist :=
  let c := fresh "c" in
  let Hc := fresh "Hc" in
  intros c Hc; cbn [In app] in Hc;
  repeat (destruct Hc as [<-|Hc];
          [first [left; unfold fixedCommands; cbn [In]; tauto
                 |right; reflexivity]|]);
  contradiction.

(** X14. [createCommit] runs nothing but four fixed command lines
    and the process [git commit -m <text>], started without a shell.
    The text is [[ralph-iter-N] ] followed by the sanitized message,
    which has at most 200 code units and none of the removed
    characters.  A disabled manager runs nothing, and a successful
    result means the commit process was run. *)
Theorem X14_createCommit_commands enabled message iteration sh :
  let r := fst (createCommit enabled message iteration sh) in
  let sh' := snd (createCommit enabled message iteration sh) in
  (exists trace,
     commands sh' = commands sh ++ trace
     /\ (forall c, In c trace ->
           In c fixedCommands \/ c = commitCommand message iteration)
     /\ (enabled = false -> trace = [])
     /\ (success r = true -> In (commitCommand message iteration) trace))
  /\ exists text,
       commitMessage message iteration =
         js "[ralph-iter-" ++ JsString.ofZ iteration ++ js "] " ++ text
       /\ (List.length text <= 200)%nat
       /\ forall c, In c text -> dangerous c = false.
Proof.
  cbv zeta. split; [|apply commitMessage_shape].
  fold (commitCommand message iteration).
  destruct enabled.
  2:{ exists []. open_shell sh. rewrite app_nil_r.
      repeat split; try reflexivity; try contradiction; discriminate. }
  open_shell sh. fold (commitCommand message iteration).
  shell_cases ex sp;
    rewrite <- ?app_assoc; cbn [app];
    (eexists; split; [reflexivity|];
     split; [solve_whitelist|];
     split; [discriminate|];
     cbn [success failure]; first [discriminate|intros _; cbn [In]; tauto]).
Qed.

Lemma listed_none (p : jsstring -> bool) lines :
  (forall line, In line lines -> p line = false) ->
  map pathOf (filter p (filter nonEmpty lines)) = [].
Proof.
  induction lines as [|l ls IH]; intros Hp; [reflexivity|].
  cbn [filter]. destruct (nonEmpty l).
  - cbn [filter]. rewrite (Hp l (or_introl eq_refl)).
    apply IH. intros line Hl. apply Hp. right. exact Hl.
  - apply IH. intros line Hl. apply Hp. right. exact Hl.
Qed.

(** X15. [createCommit] answers "No changes to commit", and starts no
    commit, whenever - after a successful [git add -A] - its status
    query lists nothing as modified, added or deleted.  That is the
    case when one of the three status queries fails, and when no
    line of the porcelain output has an M, A or D in its status
    columns, as when all changes are renames. *)
Theorem X15_no_changes_to_commit message iteration sh out :
  execResult sh (List.length (commands sh)) (js "git add -A")
    = ExecReturned out ->
  let sh1 := snd (execSync (js "git add -A") sh) in
  let status := fst (getStatus true sh1) in
  (modified status = [] -> added status = [] -> deleted status = [] ->
   createCommit true message iteration sh =
     (failure (js "No changes to commit"), snd (getStatus true sh1)))
  /\ (status = unknownStatus ->
      fst (createCommit true message iteration sh) =
        failure (js "No changes to commit"))
  /\ forall statusOutput,
       (forall line, In line (splitOn 10 statusOutput) ->
          includes 77 (statusOf line) = false
          /\ includes 65 (statusOf line) = false
          /\ includes 68 (statusOf line) = false) ->
       exists u, parseStatus statusOutput = ([], [], [], u).
Proof.
  intros Hadd sh1 status.
  assert (Hmain : modified status = [] -> added status = [] ->
            deleted status = [] ->
            createCommit true message iteration sh =
              (failure (js "No changes to commit"),
               snd (getStatus true sh1))).
  { intros Hm Ha Hd. subst status sh1.
    unfold createCommit, sbind, sret. cbn [negb].
    destruct sh as [cmds ex sp]. unfold execSync at 1 2.
    cbn [fst snd commands execResult spawnResult] in *.
    rewrite Hadd.
    destruct (getStatus true _) as [st sh2]. cbn [fst snd] in *.
    rewrite Hm, Ha, Hd. reflexivity. }
  split; [exact Hmain|]. split.
  - intros Hu. rewrite Hmain; [reflexivity| | |]; rewrite Hu; reflexivity.
  - intros statusOutput Hfree. unfold parseStatus.
    rewrite parseStatus_fold. cbv zeta. cbn [app].
    rewrite !listed_none by (intros line Hl; apply (Hfree line Hl)).
    eexists. reflexivity.
Qed.

Lemma X15_no_changes_to_commit_witness :
  let sh := quietShell (js "R  old.ts -> new.ts") in
  execResult sh (List.length (commands sh)) (js "git add -A")
    = ExecReturned (js "0123abc")
  /\ fst (createCommit true (js "rename module") 3 sh) =
       failure (js "No changes to commit").
Proof.
  intros sh. split; [reflexivity|].
  rewrite (proj1 (X15_no_changes_to_commit (js "rename module") 3 sh
                    (js "0123abc") eq_refl));
    vm_compute; reflexivity.
Defined.

(** X16. [isClean] cannot tell a clean working tree from an unknown
    one: it answers [true] when the manager is disabled, without
    running anything, and when any of the three status queries
    fails. *)
Theorem X16_isClean_when_unknown sh :
  let n := List.length (commands sh) in
  isClean false sh = (true, sh)
  /\ (forall m,
        execResult sh n (js "git rev-parse --abbrev-ref HEAD") = ExecThrew m ->
        fst (isClean true sh) = true)
  /\ (forall b m,
        execResult sh n (js "git rev-parse --abbrev-ref HEAD")
          = ExecReturned b ->
        execResult sh (S n) (js "git rev-parse HEAD") = ExecThrew m ->
        fst (isClean true sh) = true)
  /\ (forall b c m,
        execResult sh n (js "git rev-parse --abbrev-ref HEAD")
          = ExecReturned b ->
        execResult sh (S n) (js "git rev-parse HEAD") = ExecReturned c ->
        execResult sh (S (S n)) (js "git status --porcelain") = ExecThrew m ->
        fst (isClean true sh) = true).
Proof.
  intros n. subst n. open_shell sh. split; [reflexivity|].
  split; [|split].
  - intros m ->. reflexivity.
  - intros b m -> H. cbn. rewrite length_app, Nat.add_1_r. cbn.
    rewrite H. reflexivity.
  - intros b c m -> H1 H2. cbn. rewrite length_app, Nat.add_1_r. cbn.
    rewrite H1. cbn. rewrite !length_app, !Nat.add_1_r. cbn.
    rewrite H2. reflexivity.
Qed.

Lemma X16_isClean_when_unknown_witness :
  let sh := {| commands := [];
               execResult := fun _ _ => ExecThrew (js "not a git repository");
               spawnResult := fun _ _ _ => SpawnThrew [] |} in
  fst (isClean true sh) = true.
Proof.
  intros sh.
  exact (proj1 (proj2 (X16_isClean_when_unknown sh))
               (js "not a git repository") eq_refl).
Defined.

(** *** The log *)

Lemma validateNumber_ofZ n lo hi :
  - 2 ^ 53 < n < 2 ^ 53 -> - 2 ^ 53 < lo < 2 ^ 53 ->
  - 2 ^ 53 < hi < 2 ^ 53 ->
  validateNumber (Num.ofZ n) lo hi =
  if (lo <=? n) && (n <=? hi) then Some (Num.ofZ n) else None.
Proof.
  intros Hn Hlo Hhi. unfold validateNumber.
  rewrite (proj1 (ofZ_integer n Hn)), !ofZ_ltb by assumption.
  cbn [negb orb].
  destruct (Z.ltb_spec n lo), (Z.ltb_spec hi n),
    (Z.leb_spec lo n), (Z.leb_spec n hi); cbn; try reflexivity; lia.
Qed.

(** X17. [getLog] and [getRalphContext] start git only for a count
    that is an integer within 1..100, respectively 1..50; the process
    is then [git log -n <count> ...] with the count in decimal.  For
    any other count - a fraction, NaN, an integer out of range - they
    run nothing and answer the empty list, respectively the text
    "Unable to retrieve Ralph context from git". *)
Theorem X17_log_count_validated count sh :
  (Num.isInteger count = false ->
   getLog true count sh = ([], sh)
   /\ getRalphContext true count sh = (unableToRetrieve, sh))
  /\ forall n,
       count = Num.ofZ n -> - 2 ^ 53 < n < 2 ^ 53 ->
       (~ 1 <= n <= 100 -> getLog true count sh = ([], sh))
       /\ (1 <= n <= 100 ->
           commands (snd (getLog true count sh)) =
             commands sh ++ [logCommand n])
       /\ (~ 1 <= n <= 50 ->
           getRalphContext true count sh = (unableToRetrieve, sh))
       /\ (1 <= n <= 50 ->
           commands (snd (getRalphContext true count sh)) =
             commands sh ++ [contextCommand n]).
Proof.
  split.
  - intros Hint. unfold getLog, getRalphContext, validateNumber.
    rewrite Hint. auto.
  - intros n -> Hn.
    assert (H53 : 100 < 2 ^ 53) by reflexivity.
    unfold getLog, getRalphContext.
    rewrite !validateNumber_ofZ by lia.
    pose proof (proj2 (ofZ_integer n Hn)) as HtoZ.
    destruct sh as [cmds ex sp].
    unfold spawnSync, sbind, sret, logCommand, contextCommand.
    cbn [fst snd commands execResult spawnResult negb].
    repeat split; intros Hr.
    + destruct (Z.leb_spec 1 n), (Z.leb_spec n 100); cbn; try reflexivity;
        lia.
    + destruct (Z.leb_spec 1 n), (Z.leb_spec n 100); cbn; try lia.
      rewrite HtoZ.
      destruct (sp _ _ _) as [?|[[|?|?]|] ? ?]; reflexivity.
    + destruct (Z.leb_spec 1 n), (Z.leb_spec n 50); cbn; try reflexivity;
        lia.
    + destruct (Z.leb_spec 1 n), (Z.leb_spec n 50); cbn; try lia.
      rewrite HtoZ.
      destruct (sp _ _ _) as [?|[[|?|?]|] ? ?]; try reflexivity.
      destruct (logLines _); reflexivity.
Qed.

Lemma X17_log_count_validated_witness :
  let sh := quietShell [] in
  getLog true (Num.ofZ 999999) sh = ([], sh)
  /\ getLog true (Num.ofZ (-1)) sh = ([], sh)
  /\ getLog true (Num.div (Num.ofZ 5) (Num.ofZ 2)) sh = ([], sh)
  /\ commands (snd (getLog true (Num.ofZ 10) sh)) = [logCommand 10].
Proof.
  intros sh.
  assert (Hbig : - 2 ^ 53 < 999999 < 2 ^ 53) by (split; reflexivity).
  assert (Hneg : - 2 ^ 53 < -1 < 2 ^ 53) by (split; reflexivity).
  assert (Hten : - 2 ^ 53 < 10 < 2 ^ 53) by (split; reflexivity).
  split; [|split; [|split]].
  - apply (proj2 (X17_log_count_validated (Num.ofZ 999999) sh) 999999
                 eq_refl Hbig). lia.
  - apply (proj2 (X17_log_count_validated (Num.ofZ (-1)) sh) (-1)
                 eq_refl Hneg). lia.
  - apply (proj1 (X17_log_count_validated
                    (Num.div (Num.ofZ 5) (Num.ofZ 2)) sh)).
    vm_compute. reflexivity.
  - apply (proj2 (X17_log_count_validated (Num.ofZ 10) sh) 10
                 eq_refl Hten). lia.
Defined.

Lemma splitOn_plain sep p :
  ~ In sep p -> splitOn sep p = [p].
Proof.
  induction p as [|c p IH]; intros Hno; [reflexivity|]. cbn.
  destruct (N.eqb_spec c sep) as [->|Hne]; [exfalso; apply Hno; left; auto|].
  rewrite IH; [reflexivity|]. intros H. apply Hno. right. exact H.
Qed.

Lemma splitOn_app sep p rest :
  ~ In sep p -> splitOn sep (p ++ sep :: rest) = p :: splitOn sep rest.
Proof.
  induction p as [|c p IH]; intros Hno; cbn.
  - rewrite N.eqb_refl. reflexivity.
  - destruct (N.eqb_spec c sep) as [->|Hne];
      [exfalso; apply Hno; left; auto|].
    rewrite IH; [reflexivity|]. intros H. apply Hno. right. exact H.
Qed.

(** Splitting undoes joining, for pieces free of the separator. *)
Lemma splitOn_join sep piece pieces :
  (forall p, In p (piece :: pieces) -> ~ In sep p) ->
  splitOn sep (JsString.join [sep] (piece :: pieces)) = piece :: pieces.
Proof.
  revert piece. induction pieces as [|q pieces IH]; intros piece Hno.
  - cbn. apply splitOn_plain, Hno. left. reflexivity.
  - change (JsString.join [sep] (piece :: q :: pieces))
      with (piece ++ [sep] ++ JsString.join [sep] (q :: pieces)).
    cbn [app]. rewrite splitOn_app by (apply Hno; left; reflexivity).
    f_equal. apply IH. intros p Hp. apply Hno. right. exact Hp.
Qed.

Lemma trim_keeps c l :
  In c l -> JsString.isWhiteSpace c = false -> JsString.trim l <> [].
Proof.
  intros Hin Hc Hnil.
  destruct (trim_split l) as (a & b & Hl & Ha & Hb).
  rewrite Hnil in Hl. cbn in Hl. rewrite Hl in Hin.
  apply in_app_or in Hin. rewrite forallb_forall in Ha, Hb.
  destruct Hin as [Hin|Hin]; [apply Ha in Hin|apply Hb in Hin]; congruence.
Qed.

Lemma logRecord_fields entry :
  plainEntry entry ->
  splitOn 124 (logRecord entry) =
    [fst (fst entry); snd (fst entry); snd entry]
  /\ ~ In 10%N (logRecord entry)
  /\ nonBlank (logRecord entry) = true.
Proof.
  destruct entry as [[h s] d]. unfold plainEntry, logRecord. intros Hplain.
  assert (Hfield : forall c, In c h \/ In c s \/ In c d ->
                             c <> 124%N /\ c <> 10%N).
  { intros c Hc. apply Hplain. rewrite !in_app_iff. tauto. }
  assert (Hsep : forall c, c = 124%N \/ c = 10%N ->
                           ~ In c h /\ ~ In c s /\ ~ In c d).
  { intros c Hc. repeat split; intros Hin;
      (destruct (Hfield c) as [H1 H2]; [tauto|]); destruct Hc; congruence. }
  destruct (Hsep 124%N (or_introl eq_refl)) as (Hh & Hs & Hd).
  destruct (Hsep 10%N (or_intror eq_refl)) as (Hh' & Hs' & Hd').
  split; [|split].
  - change (js "|") with [124%N]. cbn [app fst snd].
    rewrite !splitOn_app, splitOn_plain by assumption. reflexivity.
  - change (js "|") with [124%N]. rewrite !in_app_iff. cbn [In].
    intros [H|[[H|[]]|[H|[[H|[]]|H]]]]; try discriminate; tauto.
  - unfold nonBlank.
    destruct (JsString.trim (h ++ js "|" ++ s ++ js "|" ++ d)) eqn:E;
      [|reflexivity].
    exfalso. revert E. apply (trim_keeps 124%N); [|reflexivity].
    change (js "|") with [124%N]. rewrite !in_app_iff. cbn. auto.
Qed.

Lemma logLines_records entries :
  Forall plainEntry entries ->
  logLines (JsString.join [10%N] (map logRecord entries))
  = map logRecord entries.
Proof.
  intros Hplain. unfold logLines. destruct entries as [|e entries].
  - reflexivity.
  - cbn [map]. rewrite splitOn_join.
    + apply filter_all. intros l Hl. change (In l (map logRecord (e :: entries))) in Hl.
      apply in_map_iff in Hl as (x & <- & Hx).
      rewrite Forall_forall in Hplain.
      apply (logRecord_fields x (Hplain x Hx)).
    + intros p Hp. change (In p (map logRecord (e :: entries))) in Hp.
      apply in_map_iff in Hp as (x & <- & Hx).
      rewrite Forall_forall in Hplain.
      apply (logRecord_fields x (Hplain x Hx)).
Qed.

(** X18. [getLog] renders the log one commit per line.  When git
    prints the entries [hash|subject|date] separated by line feeds,
    with fields that contain neither [|] nor a line feed, [getLog]
    returns, in the same order, the texts [hash - subject (date)]. *)
Theorem X18_getLog_renders_entries n sh entries stderr :
  1 <= n <= 100 ->
  Forall plainEntry entries ->
  spawnResult sh (List.length (commands sh)) (js "git")
    [js "log"; js "-n"; JsString.ofZ n; js "--pretty=format:%h|%s|%ci"]
  = SpawnReturned (Some 0)
      (JsString.join [10%N] (map logRecord entries)) stderr ->
  fst (getLog true (Num.ofZ n) sh) = map renderedRecord entries.
Proof.
  intros Hn Hplain Hgit.
  assert (H53 : 100 < 2 ^ 53) by reflexivity.
  unfold getLog. rewrite validateNumber_ofZ by lia.
  destruct (Z.leb_spec 1 n), (Z.leb_spec n 100); try lia. cbn [andb negb].
  rewrite (proj2 (ofZ_integer n ltac:(lia))).
  destruct sh as [cmds ex sp]. unfold spawnSync, sbind, sret.
  cbn [fst snd commands execResult spawnResult] in *. rewrite Hgit.
  cbn [fst]. rewrite logLines_records by assumption.
  rewrite map_map. apply map_ext_in. intros e He.
  rewrite Forall_forall in Hplain.
  destruct (logRecord_fields e (Hplain e He)) as (Hsplit & _).
  unfold formatLogLine, logField. rewrite Hsplit.
  destruct e as [[h s] d]. reflexivity.
Qed.

Lemma X18_getLog_renders_entries_witness :
  let entries := [ (js "a1b2c3d", js "[ralph-iter-2] Iteration 2",
                    js "2024-05-01 10:00:00 +0000");
                   (js "9f8e7d6", js "initial import",
                    js "2024-04-30 09:00:00 +0000") ] in
  let sh := {| commands := [];
               execResult := fun _ _ => ExecReturned [];
               spawnResult := fun _ _ _ =>
                 SpawnReturned (Some 0)
                   (JsString.join [10%N] (map logRecord entries)) None |} in
  fst (getLog true (Num.ofZ 5) sh)
  = [ js "a1b2c3d - [ralph-iter-2] Iteration 2 (2024-05-01 10:00:00 +0000)";
      js "9f8e7d6 - initial import (2024-04-30 09:00:00 +0000)" ].
Proof.
  intros entries sh.
  rewrite (X18_getLog_renders_entries 5 sh entries None).
  - vm_compute. reflexivity.
  - lia.
  - apply Forall_cons; [|apply Forall_cons; [|apply Forall_nil]];
      unfold plainEntry; intros c Hc; vm_compute in Hc;
      repeat (destruct Hc as [<-|Hc]; [split; discriminate|]);
      contradiction.
  - reflexivity.
Defined.

End GitExtras.

(** ** Properties of the request handlers *)

Section HandlerExtras.
Import Manager Obs Lifecycle Git Handlers.

Variable numberToString : Num.number -> jsstring.

Lemma runTools_spec presets : forall env,
  runTools presets env =
  (resultsFrom (presetResult env) (List.length (presetsRun env))
               (presetNames presets),
   {| manager := manager env; shell := shell env;
      gitAvailable := gitAvailable env;
      presetsRun := presetsRun env ++ presetNames presets;
      presetResult := presetResult env |}).
Proof.
  induction presets as [|p presets IH]; intros env.
  - cbn. rewrite app_nil_r. destruct env; reflexivity.
  - destruct p; cbn [runTools presetNames]; try apply IH.
    unfold sbind, runPreset. rewrite IH. cbn.
    rewrite length_app, Nat.add_1_r, <- app_assoc. reflexivity.
Qed.

Lemma onManager_idle {A} (c : IO A) env a :
  c (manager env) = (a, manager env) -> onManager c env = (a, env).
Proof. intros H. unfold onManager. rewrite H. destruct env; reflexivity. Qed.

Lemma isLoopActive_spec w :
  isLoopActive w =
  (match activeState w with Some _ => true | None => false end, w).
Proof. reflexivity. Qed.

(** X19. [handleRalphIterate] checks before it acts.  A
    [last_output] that is not a string makes it throw, and with no
    active loop it answers "No active Ralph loop found"; in both
    cases nothing has happened: no preset was run, no git command,
    and the manager and its files are as before. *)
Theorem X19_iterate_checks_first args env :
  ((forall text, arg_last_output args <> VString text) ->
   handleRalphIterate numberToString args env = (inl lastOutputRequired, env))
  /\ (forall text,
        arg_last_output args = VString text ->
        activeState (manager env) = None ->
        handleRalphIterate numberToString args env = (inr noLoopReply, env)).
Proof.
  unfold handleRalphIterate. split.
  - intros Hno. destruct (arg_last_output args); try reflexivity.
    exfalso. apply (Hno s). reflexivity.
  - intros text -> Hidle. unfold sbind.
    rewrite (onManager_idle isLoopActive env false); [reflexivity|].
    rewrite isLoopActive_spec, Hidle. reflexivity.
Qed.

(** *** An iteration on an active loop *)

(** What [handleRalphIterate] does on an active loop, step by step. *)
Lemma handleRalphIterate_active args env s text :
  arg_last_output args = VString text ->
  activeState (manager env) = Some s ->
  let results := collectedResults args env in
  let committed :=
    if commitsAutomatically s env
    then iterationCommit s (shell env)
    else (failure [], shell env) in
  let hash :=
    if commitsAutomatically s env then recordedCommit (fst committed)
    else None in
  let metadata := iterationMetadata args results hash in
  let step := processIteration text (Some metadata) (manager env) in
  handleRalphIterate numberToString args env =
  (inr (if completed (fst step)
        then completedReply numberToString (fst step)
               (match state (snd step) with
                | Some s' => history s'
                | None => []
                end)
        else continueReply numberToString s (fst step)),
   {| manager := snd step;
      shell := snd committed;
      gitAvailable := gitAvailable env;
      presetsRun := presetsRun env ++ presetNames (requestedPresets args);
      presetResult := presetResult env |}).
Proof.
  intros Hout Ha results committed hash metadata step.
  subst step metadata hash committed results.
  unfold collectedResults, commitsAutomatically, iterationCommit.
  destruct (activeState_Some _ _ Ha) as [Hs _].
  unfold handleRalphIterate. rewrite Hout. unfold sbind at 1.
  rewrite (onManager_idle isLoopActive env true)
    by (rewrite isLoopActive_spec, Ha; reflexivity).
  cbn [negb]. unfold sbind at 1.
  rewrite (onManager_idle getState env (Some s))
    by (unfold getState, getField; rewrite Hs; reflexivity).
  unfold sbind at 1. fold (requestedPresets args). rewrite runTools_spec.
  destruct env as [w sh git runs oracle].
  cbn [manager shell gitAvailable presetsRun presetResult] in *.
  unfold sbind at 1, autoCommitStep.
  cbn [manager shell gitAvailable presetsRun presetResult].
  destruct (autoCommit s && gitEnabled s && git) eqn:Hauto.
  - assert (Hgit : git = true)
      by (apply andb_true_iff in Hauto as [_ H]; exact H).
    subst git.
    unfold sbind, sret, onShell, onManager, recordedCommit.
    cbn [manager shell gitAvailable presetsRun presetResult].
    destruct (createCommit true _ _ sh) as [r sh']. cbn [fst snd].
    cbn [manager shell gitAvailable presetsRun presetResult].
    destruct (processIteration text _ w) as [res w']. cbn [fst snd].
    destruct (completed res); cbn [manager]; [|reflexivity].
    unfold getHistory. cbn [fst snd manager]. reflexivity.
  - unfold sbind, sret, onManager.
    cbn [manager shell gitAvailable presetsRun presetResult fst snd].
    destruct (processIteration text _ w) as [res w']. cbn [fst snd].
    destruct (completed res); cbn [manager]; [|reflexivity].
    unfold getHistory. cbn [fst snd manager]. reflexivity.
Qed.

(** X20. On an active loop [handleRalphIterate] runs every preset of
    [run_tools] that is a string, once and in order, and records the
    iteration with what it gathered: the record's errors are the
    reported errors followed by "<name> failed" for each tool result
    whose exit code is not zero (absent when there are none), its
    tool results are the collected ones, and a preset whose run
    rejects adds neither results nor an error. *)
Theorem X20_iterate_records_tools args env s text :
  arg_last_output args = VString text ->
  activeState (manager env) = Some s ->
  let env' := snd (handleRalphIterate numberToString args env) in
  let results := collectedResults args env in
  presetsRun env' = presetsRun env ++ presetNames (requestedPresets args)
  /\ exists e,
       historyFile (manager env') =
         (if appendOk (manager env)
          then historyFile (manager env) ++ [e]
          else historyFile (manager env))
       /\ errors e =
          orUndefined (match arg_errors args with
                       | Some reported => reported
                       | None => []
                       end
                       ++ map (fun r => tool_name r ++ js " failed")
                            (filter (fun r => negb (tool_exitCode r =? 0))
                                    results))
       /\ externalToolsRun e = orUndefined results
       /\ filesModified e = arg_files_modified args
       /\ commandsRun e = arg_commands_run args
       /\ output e = JsString.substring0 1000 text.
Proof.
  intros Hout Ha env' results. subst env'.
  rewrite (handleRalphIterate_active args env s text Hout Ha).
  cbn [snd presetsRun manager]. split; [reflexivity|].
  eexists. split.
  - apply (step_historyFile (manager env) s text _ Ha).
  - unfold nextEntry, iterationMetadata, md.
    cbn [errors externalToolsRun filesModified commandsRun output
         md_errors md_externalToolsRun md_filesModified md_commandsRun].
    auto.
Qed.

(** X21. The automatic commit comes before the iteration is
    processed.  On an active loop with [autoCommit] and [gitEnabled]
    set and git available, [handleRalphIterate] runs [createCommit]
    with the message "Iteration N" for the iteration number N the
    loop has before the call - also in the call that ends the loop -
    and records the hash when the commit succeeded with a non-empty
    hash.  If one of the three conditions fails it runs no git
    command and records no hash. *)
Theorem X21_iterate_commits_first args env s text :
  arg_last_output args = VString text ->
  activeState (manager env) = Some s ->
  let env' := snd (handleRalphIterate numberToString args env) in
  let attempt := iterationCommit s (shell env) in
  exists e,
    historyFile (manager env') =
      (if appendOk (manager env)
       then historyFile (manager env) ++ [e]
       else historyFile (manager env))
    /\ entry_iteration e = iteration s
    /\ if autoCommit s && gitEnabled s && gitAvailable env
       then shell env' = snd attempt
            /\ gitCommit e = recordedCommit (fst attempt)
       else shell env' = shell env /\ gitCommit e = None.
Proof.
  intros Hout Ha env' attempt. subst env'.
  rewrite (handleRalphIterate_active args env s text Hout Ha).
  cbn [snd shell manager]. eexists. split; [|split].
  - apply (step_historyFile (manager env) s text _ Ha).
  - reflexivity.
  - fold (commitsAutomatically s env).
    unfold nextEntry, iterationMetadata, md. cbn [gitCommit md_gitCommit].
    destruct (commitsAutomatically s env); auto.
Qed.

(** X22. The reply that ends a loop never contains a session
    summary.  When [handleRalphIterate] is called on an active loop
    and the call ends it, the manager has already dropped its history
    when the reply is built: [getHistory] returns the empty list, and
    the reply is exactly five lines - the headline, an empty line, the
    reason of the manager (the detected promise, or the iteration
    limit that was reached), an empty line and the closing line. *)
Theorem X22_no_session_summary args env s text :
  arg_last_output args = VString text ->
  activeState (manager env) = Some s ->
  let reply := fst (handleRalphIterate numberToString args env) in
  let env' := snd (handleRalphIterate numberToString args env) in
  activeState (manager env') = None ->
  result getHistory (manager env') = []
  /\ reply =
     inr (JsString.join [10%N]
            (if detectCompletion (completionPromise s) text
             then [ Glyph.done ++ js " Ralph loop completed!"; [];
                    js "Completion promise detected: <promise>"
                    ++ match completionPromise s with
                       | Some p => p
                       | None => []
                       end
                    ++ js "</promise>";
                    []; loopEnded ]
             else [ Glyph.stop ++ js " Ralph loop stopped."; [];
                    js "Max iterations (" ++ JsString.ofZ (maxIterations s)
                    ++ js ") reached";
                    []; loopEnded ])).
Proof.
  intros Hout Ha reply env' Hend. subst reply env'.
  rewrite (handleRalphIterate_active args env s text Hout Ha) in *.
  cbn [fst snd manager] in *.
  set (metadata := Some (iterationMetadata _ _ _)) in *.
  destruct (detectCompletion (completionPromise s) text) eqn:Hd.
  - destruct (step_promise (manager env) s text metadata Ha Hd)
      as (Hc & Hdet & _ & Hst & _).
    pose proof (step_promise_reason (manager env) s text metadata Ha Hd)
      as Hreason.
    unfold result, run in Hc, Hdet, Hst, Hreason. split.
    + unfold result, getHistory. cbn [fst]. rewrite Hst. reflexivity.
    + rewrite Hc, Hst. unfold completedReply.
      rewrite Hdet, Hreason. reflexivity.
  - destruct (maxReached s) eqn:Hm.
    + destruct (step_max (manager env) s text metadata Ha Hd Hm)
        as (Hc & Hdet & _ & Hreason & Hst & _).
      unfold result, run in Hc, Hdet, Hst, Hreason. split.
      * unfold result, getHistory. cbn [fst]. rewrite Hst. reflexivity.
      * rewrite Hc, Hst. unfold completedReply.
        rewrite Hdet, Hreason. reflexivity.
    + exfalso.
      destruct (step_continue (manager env) s text metadata Ha Hd Hm)
        as (_ & Hst & _).
      unfold run in Hst. destruct (activeState_Some _ _ Ha) as [_ Hact].
      rewrite (activeState_intro _ _ Hst Hact) in Hend. discriminate.
Qed.

(** *** Cancelling *)

(** X23. [handleRalphCancel] never answers "Failed to cancel Ralph
    loop.".  With no active loop it answers "No active Ralph loop
    found." and changes nothing; with an active loop it answers
    "Cancelled Ralph loop (was at iteration N)" for the loop's current
    iteration N, after which the manager has no loop - whether or not
    the snapshot file could be deleted. *)
Theorem X23_cancel_never_fails env :
  fst (handleRalphCancel env) <> js "Failed to cancel Ralph loop."
  /\ (activeState (manager env) = None ->
      handleRalphCancel env = (js "No active Ralph loop found.", env))
  /\ (forall s,
        activeState (manager env) = Some s ->
        fst (handleRalphCancel env) =
          Glyph.done ++ js " Cancelled Ralph loop (was at iteration "
          ++ JsString.ofZ (iteration s) ++ js ")"
        /\ state (manager (snd (handleRalphCancel env))) = None).
Proof.
  assert (Hidle : activeState (manager env) = None ->
            handleRalphCancel env = (js "No active Ralph loop found.", env)).
  { intros Ha. unfold handleRalphCancel, sbind.
    rewrite (onManager_idle isLoopActive env false); [reflexivity|].
    rewrite isLoopActive_spec, Ha. reflexivity. }
  assert (Hbusy : forall s,
            activeState (manager env) = Some s ->
            fst (handleRalphCancel env) =
              Glyph.done ++ js " Cancelled Ralph loop (was at iteration "
              ++ JsString.ofZ (iteration s) ++ js ")"
            /\ state (manager (snd (handleRalphCancel env))) = None).
  { intros s Ha. destruct (activeState_Some _ _ Ha) as [Hs _].
    destruct (cancelLoop_active _ _ Ha) as [Hr Hnone].
    assert (Heq : handleRalphCancel env =
              (Glyph.done ++ js " Cancelled Ralph loop (was at iteration "
               ++ JsString.ofZ (iteration s) ++ js ")",
               {| manager := run cancelLoop (manager env);
                  shell := shell env; gitAvailable := gitAvailable env;
                  presetsRun := presetsRun env;
                  presetResult := presetResult env |})).
    { unfold handleRalphCancel. unfold sbind at 1.
      rewrite (onManager_idle isLoopActive env true)
        by (rewrite isLoopActive_spec, Ha; reflexivity).
      cbn [negb]. unfold sbind at 1.
      rewrite (onManager_idle getState env (Some s))
        by (unfold getState, getField; rewrite Hs; reflexivity).
      unfold sbind, onManager, sret. unfold result, run in Hr |- *.
      destruct (cancelLoop (manager env)) as [cancelled w'].
      cbn [fst snd] in *. subst cancelled. reflexivity. }
    rewrite Heq. cbn [fst snd manager]. auto. }
  split; [|split; [exact Hidle|exact Hbusy]].
  destruct (activeState (manager env)) as [s|] eqn:Ha.
  - rewrite (proj1 (Hbusy s eq_refl)). discriminate.
  - rewrite (Hidle eq_refl). discriminate.
Qed.

(** *** The git handlers *)

(** X24. [handleGitContext] accepts counts that the git manager then
    refuses.  It rejects only a count that is not a number or is
    below 1; a number that passes but is not an integer within 1..50
    - a fraction, NaN, 51 - gives the reply "Unable to retrieve Ralph
    context from git", and no git command is run. *)
Theorem X24_context_count_mismatch env x :
  gitAvailable env = true ->
  Num.ltb x (Num.ofZ 1) = false ->
  (Num.isInteger x = false
   \/ exists n, x = Num.ofZ n /\ 50 < n < 2 ^ 53) ->
  handleGitContext (VNumber x) env = (inr unableToRetrieve, env).
Proof.
  intros Hgit Hlt Hbad. unfold handleGitContext.
  rewrite Hgit. cbn [negb Server.withDefault]. rewrite Hlt.
  assert (Hv : validateNumber x 1 50 = None).
  { destruct Hbad as [Hint|(n & -> & Hn)].
    - unfold validateNumber. rewrite Hint. reflexivity.
    - assert (H53 : 50 < 2 ^ 53) by reflexivity.
      rewrite validateNumber_ofZ by lia.
      destruct (Z.leb_spec 1 n), (Z.leb_spec n 50); cbn; try reflexivity.
      lia. }
  unfold sbind, onShell, getRalphContext, sret. rewrite Hgit, Hv.
  cbn [negb]. destruct env as [w sh git runs oracle].
  cbn [gitAvailable] in Hgit. subst git. reflexivity.
Qed.

(** X25. The git handlers look at git before they look at their
    arguments: when git is not available, [handleGitCommit] and
    [handleGitContext] answer "Git is not available or not in a git
    repository." whatever the arguments are - an invalid message or
    count raises no error - and nothing is run.  When git is
    available, [handleGitCommit] with a message that is not blank
    runs [createCommit] for the iteration of the current loop state,
    and for iteration 0 when there is none. *)
Theorem X25_git_checked_first env :
  (gitAvailable env = false ->
   forall v,
     handleGitCommit v env = (inr gitUnavailable, env)
     /\ handleGitContext v env = (inr gitUnavailable, env))
  /\ (gitAvailable env = true ->
      forall text,
        JsString.trim text <> [] ->
        let n := match state (manager env) with
                 | Some s => iteration s
                 | None => 0
                 end in
        shell (snd (handleGitCommit (VString text) env)) =
          snd (createCommit true text n (shell env))
        /\ manager (snd (handleGitCommit (VString text) env)) = manager env).
Proof.
  split.
  - intros Hgit v. unfold handleGitCommit, handleGitContext.
    rewrite Hgit. auto.
  - intros Hgit text Htrim n. subst n.
    destruct (handleGitCommit (VString text) env) as [reply env'] eqn:E.
    cbn [snd]. unfold handleGitCommit in E.
    rewrite Hgit in E. cbn [negb] in E.
    destruct (JsString.eqb (JsString.trim text) []) eqn:Hblank.
    { apply eqb_eq in Hblank. contradiction. }
    unfold sbind at 1 in E.
    rewrite (onManager_idle getState env (state (manager env))) in E
      by reflexivity.
    unfold sbind, onShell, sret in E.
    destruct (createCommit true text _ (shell env)) as [r sh'].
    cbn [fst snd]. destruct (success r); injection E as _ <-; auto.
Qed.

End HandlerExtras.

Lemma X19_iterate_checks_first_witness :
  let args := {| Handlers.arg_last_output := VNumber (Num.ofZ 7);
                 Handlers.arg_files_modified := None;
                 Handlers.arg_commands_run := None;
                 Handlers.arg_errors := None;
                 Handlers.arg_run_tools := Some [VString (js "lint")] |} in
  let env := Handlers.sampleEnv Obs.idleWorld in
  Handlers.handleRalphIterate Handlers.decimal args env
  = (inl Handlers.lastOutputRequired, env).
Proof.
  intros args env.
  apply (proj1 (X19_iterate_checks_first Handlers.decimal args env)).
  intros text H. discriminate.
Defined.

Lemma X20_iterate_records_tools_witness :
  let env := Handlers.sampleEnv (Handlers.startedWorld 0) in
  Handlers.arg_last_output Handlers.sampleArgs
    = VString (js "tests still failing")
  /\ Manager.activeState (Handlers.manager env)
     = Some (Handlers.startedState 0)
  /\ Handlers.presetsRun
       (snd (Handlers.handleRalphIterate Handlers.decimal
               Handlers.sampleArgs env))
     = Handlers.presetsRun env
       ++ Handlers.presetNames
            (Handlers.requestedPresets Handlers.sampleArgs).
Proof.
  intros env.
  assert (H1 : Handlers.arg_last_output Handlers.sampleArgs
               = VString (js "tests still failing")) by reflexivity.
  assert (H2 : Manager.activeState (Handlers.manager env)
               = Some (Handlers.startedState 0))
    by (vm_compute; reflexivity).
  split; [exact H1|]. split; [exact H2|].
  exact (proj1 (X20_iterate_records_tools Handlers.decimal
                  Handlers.sampleArgs env _ _ H1 H2)).
Defined.

Lemma X21_iterate_commits_first_witness :
  let env := Handlers.sampleEnv (Handlers.startedWorld 1) in
  let env' := snd (Handlers.handleRalphIterate Handlers.decimal
                     Handlers.sampleArgs env) in
  Handlers.arg_last_output Handlers.sampleArgs
    = VString (js "tests still failing")
  /\ Manager.activeState (Handlers.manager env)
     = Some (Handlers.startedState 1)
  /\ exists e,
       historyFile (Handlers.manager env') =
         (if Obs.appendOk (Handlers.manager env)
          then historyFile (Handlers.manager env) ++ [e]
          else historyFile (Handlers.manager env))
       /\ entry_iteration e = iteration (Handlers.startedState 1)
       /\ if autoCommit (Handlers.startedState 1)
             && gitEnabled (Handlers.startedState 1)
             && Handlers.gitAvailable env
          then Handlers.shell env'
               = snd (Handlers.iterationCommit (Handlers.startedState 1)
                        (Handlers.shell env))
               /\ gitCommit e
                  = Handlers.recordedCommit
                      (fst (Handlers.iterationCommit
                              (Handlers.startedState 1)
                              (Handlers.shell env)))
          else Handlers.shell env' = Handlers.shell env
               /\ gitCommit e = None.
Proof.
  intros env env'.
  assert (H1 : Handlers.arg_last_output Handlers.sampleArgs
               = VString (js "tests still failing")) by reflexivity.
  assert (H2 : Manager.activeState (Handlers.manager env)
               = Some (Handlers.startedState 1))
    by (vm_compute; reflexivity).
  split; [exact H1|]. split; [exact H2|].
  exact (X21_iterate_commits_first Handlers.decimal
           Handlers.sampleArgs env _ _ H1 H2).
Defined.

Lemma X22_no_session_summary_witness :
  let env := Handlers.sampleEnv (Handlers.startedWorld 1) in
  let reply := fst (Handlers.handleRalphIterate Handlers.decimal
                      Handlers.sampleArgs env) in
  let env' := snd (Handlers.handleRalphIterate Handlers.decimal
                     Handlers.sampleArgs env) in
  Manager.activeState (Handlers.manager env)
    = Some (Handlers.startedState 1)
  /\ Manager.activeState (Handlers.manager env') = None
  /\ result Manager.getHistory (Handlers.manager env') = []
  /\ reply = inr (JsString.join [10%N]
                    [ Glyph.stop ++ js " Ralph loop stopped."; [];
                      js "Max iterations (1) reached"; [];
                      Handlers.loopEnded ]).
Proof.
  intros env reply env'.
  assert (H1 : Handlers.arg_last_output Handlers.sampleArgs
               = VString (js "tests still failing")) by reflexivity.
  assert (H2 : Manager.activeState (Handlers.manager env)
               = Some (Handlers.startedState 1))
    by (vm_compute; reflexivity).
  assert (H3 : Manager.activeState (Handlers.manager env') = None)
    by (vm_compute; reflexivity).
  split; [exact H2|]. split; [exact H3|].
  exact (X22_no_session_summary Handlers.decimal
           Handlers.sampleArgs env _ _ H1 H2 H3).
Defined.

Lemma X23_cancel_never_fails_witness :
  let env := Handlers.sampleEnv (Handlers.startedWorld 0) in
  Manager.activeState (Handlers.manager env)
    = Some (Handlers.startedState 0)
  /\ fst (Handlers.handleRalphCancel env) =
       Glyph.done ++ js " Cancelled Ralph loop (was at iteration "
       ++ JsString.ofZ (iteration (Handlers.startedState 0)) ++ js ")"
  /\ state (Handlers.manager (snd (Handlers.handleRalphCancel env))) = None.
Proof.
  intros env.
  assert (H : Manager.activeState (Handlers.manager env)
              = Some (Handlers.startedState 0))
    by (vm_compute; reflexivity).
  split; [exact H|].
  exact (proj2 (proj2 (X23_cancel_never_fails env)) _ H).
Defined.

Lemma X24_context_count_mismatch_witness :
  let env := Handlers.sampleEnv Obs.idleWorld in
  let x := Num.div (Num.ofZ 3) (Num.ofZ 2) in
  Handlers.gitAvailable env = true
  /\ Num.ltb x (Num.ofZ 1) = false
  /\ Num.isInteger x = false
  /\ Handlers.handleGitContext (VNumber x) env
     = (inr Git.unableToRetrieve, env).
Proof.
  intros env x.
  assert (H1 : Handlers.gitAvailable env = true) by reflexivity.
  assert (H2 : Num.ltb x (Num.ofZ 1) = false) by (vm_compute; reflexivity).
  assert (H3 : Num.isInteger x = false) by (vm_compute; reflexivity).
  split; [exact H1|]. split; [exact H2|]. split; [exact H3|].
  exact (X24_context_count_mismatch env x H1 H2 (or_introl H3)).
Defined.

Lemma X25_git_checked_first_witness :
  let env := {| Handlers.manager := Obs.idleWorld;
                Handlers.shell := Git.quietShell [];
                Handlers.gitAvailable := false;
                Handlers.presetsRun := [];
                Handlers.presetResult := fun _ _ => None |} in
  Handlers.gitAvailable env = false
  /\ Handlers.handleGitCommit VUndefined env
     = (inr Handlers.gitUnavailable, env)
  /\ Handlers.handleGitContext (VString (js "many")) env
     = (inr Handlers.gitUnavailable, env).
Proof.
  intros env.
  assert (H : Handlers.gitAvailable env = false) by reflexivity.
  split; [exact H|]. split.
  - exact (proj1 (proj1 (X25_git_checked_first env) H VUndefined)).
  - exact (proj2 (proj1 (X25_git_checked_first env) H
                        (VString (js "many")))).
Defined.

(** ** Starting from a template, and the first iterations *)

Section TemplateExtras.
Import Manager Server Obs.

Variable getTemplate : jsstring -> option LoopTemplate.

Lemma startLoop_flags w p m cp g a :
  let s := result (startLoop p m cp g a) w in
  gitEnabled s = g /\ autoCommit s = a.
Proof.
  unfold result. destruct w. io. cbn. auto.
Qed.

(** X26. A template takes the place of every explicit argument.
    When [template_id] is a non-empty string, [handleRalphLoop] throws
    "Unknown template: <id>" - before any effect, and even when a
    valid prompt was given - if there is no such template; otherwise
    the loop it starts has the template's prompt, iteration limit,
    completion promise and git settings, whatever [prompt],
    [max_iterations], [completion_promise], [git_enabled] and
    [auto_commit] the request carries. *)
Theorem X26_template_overrides args w c id :
  arg_template_id args = VString (c :: id) ->
  (getTemplate (c :: id) = None ->
   handleRalphLoop getTemplate args w =
     (Threw (Error (js "Unknown template: " ++ c :: id)), w))
  /\ (forall t n,
        getTemplate (c :: id) = Some t ->
        JsString.trim (template_prompt t) <> [] ->
        nonNegativeInteger (VNumber (suggestedMaxIterations t)) n ->
        activeState w = None ->
        exists s,
          result (handleRalphLoop getTemplate args) w = Activated s
          /\ activeState (run (handleRalphLoop getTemplate args) w) = Some s
          /\ prompt s = template_prompt t
          /\ maxIterations s = n
          /\ completionPromise s = Some (suggestedCompletionPromise t)
          /\ gitEnabled s = template_gitEnabled t
          /\ autoCommit s = template_autoCommit t).
Proof.
  intros Hid. split.
  - intros Hnone. unfold handleRalphLoop, resolve. rewrite Hid, Hnone.
    reflexivity.
  - intros t n Hsome Htrim (x & Hx & Hint & Hn) Hidle.
    injection Hx as <-.
    assert (Hvalid : invalidMaxIterations (VNumber (suggestedMaxIterations t))
                     = false).
    { apply invalidMaxIterations_spec. exists n, (suggestedMaxIterations t).
      auto. }
    assert (He : JsString.eqb (JsString.trim (template_prompt t)) [] = false).
    { destruct (JsString.eqb _ []) eqn:E; [|reflexivity].
      apply eqb_eq in E. contradiction. }
    assert (Ht : truthy (VString (template_prompt t)) = true).
    { destruct (template_prompt t); [contradiction Htrim; reflexivity|].
      reflexivity. }
    unfold handleRalphLoop, resolve, result, run. rewrite Hid, Hsome, Ht.
    cbn [negb]. rewrite He, Hvalid. cbn [invalidCompletionPromise].
    unfold bind, isLoopActive. cbn [fst snd]. rewrite Hidle.
    rewrite (toZ_integerValue _ _ Hint). cbn [truthy].
    destruct (startLoop_state w (template_prompt t) n
                (Some (suggestedCompletionPromise t))
                (template_gitEnabled t) (template_autoCommit t))
      as (_ & Ha & _ & _ & _ & Hpr & Hm & Hc & _).
    destruct (startLoop_flags w (template_prompt t) n
                (Some (suggestedCompletionPromise t))
                (template_gitEnabled t) (template_autoCommit t))
      as (Hg & Hau).
    unfold result, run in *.
    destruct (startLoop (template_prompt t) n _ _ _ w) as [s w'].
    cbn [fst snd ret] in *. exists s. auto 10.
Qed.

End TemplateExtras.

Section EarlyProgress.
Import Analyzer Manager Obs.

(** X27. No stagnation can be reported before the third record.
    The progress metrics of a [processIteration] call that continues
    the loop are computed on the history with the record of that call
    already added; while the loop has had fewer than two records
    before the call - in particular in the first two calls after
    [startLoop] - they are the defaults: no stagnation, no repeated
    errors, convergence rate 0 and no estimate, whatever errors were
    reported. *)
Theorem X27_no_progress_before_third w s lastOutput metadata :
  activeState w = Some s ->
  completed (result (processIteration lastOutput metadata) w) = false ->
  let r := result (processIteration lastOutput metadata) w in
  progress r =
    Some (analyze (history s ++ [nextEntry w s lastOutput metadata]))
  /\ ((List.length (history s) < 2)%nat -> progress r = Some metrics0).
Proof.
  intros Ha Hc r.
  destruct (not_completed_inv _ _ _ _ Ha Hc) as [Hd Hm].
  destruct (step_continue w s lastOutput metadata Ha Hd Hm) as (Hr & _).
  subst r. rewrite Hr. cbn [progress]. split; [reflexivity|].
  intros Hshort. f_equal. unfold analyze.
  rewrite length_app. cbn [List.length].
  destruct (Z.ltb_spec (Z.of_nat (List.length (history s) + 1)) 3);
    [reflexivity|lia].
Qed.

End EarlyProgress.

Lemma X26_template_overrides_witness :
  let template := {| template_prompt := js "Refactor the module";
                     suggestedCompletionPromise := js "REFACTORED";
                     suggestedMaxIterations := Num.ofZ 20;
                     template_gitEnabled := true;
                     template_autoCommit := true |} in
  let getTemplate := fun id =>
    if JsString.eqb id (js "refactor") then Some template else None in
  let args := {| arg_prompt := VString (js "something else");
                 arg_template_id := VString (js "refactor");
                 arg_max_iterations := VNumber (Num.ofZ 3);
                 arg_completion_promise := VNull;
                 arg_git_enabled := VBool false;
                 arg_auto_commit := VBool false |} in
  exists s,
    result (Server.handleRalphLoop getTemplate args) Obs.idleWorld
      = Activated s
    /\ prompt s = js "Refactor the module"
    /\ maxIterations s = 20
    /\ completionPromise s = Some (js "REFACTORED")
    /\ autoCommit s = true.
Proof.
  intros template getTemplate args.
  destruct (proj2 (X26_template_overrides getTemplate args Obs.idleWorld
                     114%N (js "efactor") eq_refl)
                  template 20 eq_refl
                  ltac:(vm_compute; discriminate)
                  ltac:(exists (Num.ofZ 20);
                        split; [reflexivity
                               |split; [vm_compute; reflexivity|lia]])
                  eq_refl)
    as (s & H1 & _ & H3 & H4 & H5 & _ & H7).
  exists s. auto.
Defined.

Lemma X27_no_progress_before_third_witness :
  let w := run (Manager.startLoop (js "task") 0 None true false)
               Obs.idleWorld in
  let s := result (Manager.startLoop (js "task") 0 None true false)
                  Obs.idleWorld in
  let metadata := Some {| md_filesModified := None; md_commandsRun := None;
                          md_errors := Some [js "E1"; js "E1"; js "E1"];
                          md_gitCommit := None;
                          md_externalToolsRun := None |} in
  Manager.activeState w = Some s
  /\ progress (result (Manager.processIteration (js "first") metadata) w)
     = Some Analyzer.metrics0.
Proof.
  intros w s metadata.
  assert (Ha : Manager.activeState w = Some s) by (vm_compute; reflexivity).
  split; [exact Ha|].
  apply (proj2 (X27_no_progress_before_third w s (js "first") metadata Ha
                  ltac:(vm_compute; reflexivity))).
  vm_compute. lia.
Defined.

(** ** Properties of the diff statistics *)

Section DiffExtras.
Import Obs Lifecycle Git.

(** *** Stat lines *)

Lemma In_skipn {A} n (l : list A) x : In x (skipn n l) -> In x l.
Proof.
  intros H. rewrite <- (firstn_skipn n l). apply in_or_app. right. exact H.
Qed.

Lemma last_In {A} (l : list A) d : l <> [] -> In (last l d) l.
Proof.
  intros Hne. rewrite (app_removelast_last d Hne) at 2.
  apply in_or_app. right. left. reflexivity.
Qed.

Lemma not_padded_ends name :
  name <> [] -> ~ padded name ->
  JsString.isWhiteSpace (last name 0%N) = false
  /\ exists c rest, name = c :: rest /\ JsString.isWhiteSpace c = false.
Proof.
  intros Hne Hp. split.
  - destruct (JsString.isWhiteSpace (last name 0%N)) eqn:E; [|reflexivity].
    exfalso. apply Hp. right.
    exists (removelast name), (last name 0%N). split; [|exact E].
    apply app_removelast_last, Hne.
  - destruct name as [|c rest]; [contradiction|]. exists c, rest.
    split; [reflexivity|].
    destruct (JsString.isWhiteSpace c) eqn:E; [|reflexivity].
    exfalso. apply Hp. left. exists c, rest. auto.
Qed.

Lemma digit_cases c :
  isDigit c = true ->
  JsString.isWhiteSpace c = false /\ isPlusMinus c = false
  /\ c <> 10%N /\ c <> 124%N.
Proof.
  unfold isDigit. intros H. apply andb_prop in H as [Hlo Hhi].
  apply N.leb_le in Hlo, Hhi.
  assert (Hc : In c [48; 49; 50; 51; 52; 53; 54; 55; 56; 57]%N).
  { cbn. lia. }
  cbn in Hc.
  repeat (destruct Hc as [<-|Hc];
          [repeat split; (reflexivity || discriminate)|]).
  contradiction.
Qed.

Lemma sign_cases c :
  isPlusMinus c = true ->
  JsString.isWhiteSpace c = false /\ isDigit c = false
  /\ c <> 10%N /\ c <> 124%N /\ c <> 32%N.
Proof.
  unfold isPlusMinus. intros H. apply orb_prop in H.
  destruct H as [H|H]; apply N.eqb_eq in H; subst c;
    repeat split; (reflexivity || discriminate).
Qed.

(** After a run of white space that ends inside a text without bar,
    the end of the pattern does not match. *)
Lemma spaceRun_first b tail :
  (exists c, In c b /\ JsString.isWhiteSpace c = false) ->
  exists c rest,
    In c b /\ skipn (spaceRun (b ++ tail)) (b ++ tail) = c :: rest.
Proof.
  induction b as [|d b IH]; intros (c & Hin & Hc); [destruct Hin|].
  cbn [app spaceRun]. destruct (JsString.isWhiteSpace d) eqn:E.
  - destruct Hin as [->|Hin]; [congruence|].
    destruct IH as (c' & rest & Hin' & Hskip); [exists c; auto|].
    exists c', rest. split; [right; exact Hin'|exact Hskip].
  - exists d, (b ++ tail). split; [left; reflexivity|reflexivity].
Qed.

Lemma statTail_blocked b tail :
  b <> [] -> (forall c, In c b -> c <> 124%N) ->
  JsString.isWhiteSpace (last b 0%N) = false ->
  statTail (b ++ tail) = false.
Proof.
  intros Hne Hbar Hlast.
  destruct (spaceRun_first b tail) as (c & rest & Hin & Hskip).
  { exists (last b 0%N). split; [apply last_In, Hne|exact Hlast]. }
  unfold statTail. unfold char in *.
  destruct (spaceRun (b ++ tail)) as [|k]; [reflexivity|].
  rewrite Hskip.
  apply Hbar in Hin. apply N.eqb_neq in Hin. rewrite Hin. reflexivity.
Qed.

(** The end of a stat line matches the end of the pattern. *)
Lemma statTail_stat digits rest :
  digits <> [] -> forallb isDigit digits = true ->
  match rest with
  | [] => True
  | c :: marks =>
      c = 32%N /\ marks <> [] /\ forallb isPlusMinus marks = true
  end ->
  statTail ([32; 124; 32]%N ++ digits ++ rest) = true.
Proof.
  intros Hne Hds Hrest.
  destruct digits as [|d ds]; [contradiction|].
  assert (Hd : isDigit d = true).
  { cbn in Hds. apply andb_prop in Hds as [Hd _]. exact Hd. }
  destruct (digit_cases d Hd) as (Hws & _).
  assert (Hrun : digitRun ((d :: ds) ++ rest) = S (List.length ds)).
  { apply (digitRun_app (d :: ds)); [exact Hds|].
    destruct rest as [|c marks]; [exact I|].
    destruct Hrest as (-> & _). reflexivity. }
  unfold statTail. cbn [app spaceRun skipn].
  change (JsString.isWhiteSpace 32%N) with true.
  change (JsString.isWhiteSpace 124%N) with false.
  cbv iota. cbn [skipn spaceRun].
  change (N.eqb 124%N 124%N) with true. cbn [andb].
  change (JsString.isWhiteSpace 32%N) with true. rewrite Hws.
  cbv iota. cbn [skipn].
  change (d :: ds ++ rest) with ((d :: ds) ++ rest). rewrite Hrun.
  rewrite skipn_app_length.
  destruct rest as [|c marks]; [reflexivity|].
  destruct Hrest as (-> & Hmne & Hms).
  destruct marks as [|m ms]; [contradiction|].
  assert (Hm : isPlusMinus m = true).
  { cbn in Hms. apply andb_prop in Hms as [Hm _]. exact Hm. }
  destruct (sign_cases m Hm) as (Hmws & _).
  cbn [spaceRun]. change (JsString.isWhiteSpace 32%N) with true.
  rewrite Hmws. cbn [skipn nonEmpty andb]. exact Hms.
Qed.

Lemma lazyName_name b tail :
  b <> [] ->
  (forall c, In c b -> c <> 124%N /\ isLineTerminator c = false) ->
  JsString.isWhiteSpace (last b 0%N) = false ->
  statTail tail = true ->
  lazyName (b ++ tail) = Some b.
Proof.
  intros Hne Hin Hlast Htail. induction b as [|c b IH]; [contradiction|].
  cbn [app lazyName].
  destruct (Hin c (or_introl eq_refl)) as [_ ->].
  destruct b as [|c' b].
  - cbn [app]. rewrite Htail. reflexivity.
  - rewrite statTail_blocked; [|discriminate| |exact Hlast].
    + rewrite IH; [reflexivity|discriminate| |exact Hlast].
      intros x Hx. apply Hin. right. exact Hx.
    + intros x Hx. apply Hin. right. exact Hx.
Qed.

(** The name of a well-formed stat line is what the pattern
    captures. *)
Lemma statName_file name digits marks :
  wellFormed (FileLine name digits marks) ->
  statName (rendered (FileLine name digits marks)) = Some name.
Proof.
  intros (Hne & Hpad & Hin & Hdne & Hds & Hms).
  destruct (not_padded_ends name Hne Hpad) as (Hlast & c & rest & -> & Hc).
  unfold statName, rendered. cbn [app spaceRun].
  change (JsString.isWhiteSpace 32%N) with true. rewrite Hc.
  cbn [statNameFrom skipn].
  match goal with
  | |- context [lazyName (c :: rest ++ ?t)] =>
      assert (Hname : lazyName ((c :: rest) ++ t) = Some (c :: rest))
  end.
  { apply lazyName_name; [exact Hne|exact Hin|exact Hlast|].
    apply (statTail_stat digits); [exact Hdne|exact Hds|].
    destruct marks as [|m ms]; [exact I|].
    split; [reflexivity|]. split; [discriminate|exact Hms]. }
  cbn [app] in Hname. rewrite Hname. reflexivity.
Qed.

(** A line without a bar is no stat line. *)
Lemma statTail_bar s : statTail s = true -> In 124%N s.
Proof.
  unfold statTail. destruct (spaceRun s) as [|k]; [discriminate|].
  destruct (skipn (S k) s) as [|c s1] eqn:E; [discriminate|].
  intros H. apply andb_prop in H as [H _]. apply N.eqb_eq in H. subst c.
  apply (In_skipn (S k)). unfold char in *. rewrite E. left. reflexivity.
Qed.

Lemma lazyName_bar s name : lazyName s = Some name -> In 124%N s.
Proof.
  revert name. induction s as [|c s IH]; intros name H; [discriminate H|].
  cbn [lazyName] in H. right.
  destruct (isLineTerminator c); [discriminate H|].
  destruct (statTail s) eqn:E; [apply statTail_bar, E|].
  destruct (lazyName s) as [n|]; [|discriminate H].
  apply (IH n). reflexivity.
Qed.

Lemma statName_other text : ~ In 124%N text -> statName text = None.
Proof.
  intros Hno. unfold statName. generalize (spaceRun text) as i.
  induction i as [|i IH]; cbn [statNameFrom];
    match goal with
    | |- context [lazyName ?x] => destruct (lazyName x) as [n|] eqn:E
    end; try reflexivity; try exact IH;
    exfalso; apply Hno; apply lazyName_bar in E;
    apply In_skipn in E; exact E.
Qed.

(** *** The lines of the output *)

Lemma countOf_app c a b : countOf c (a ++ b) = countOf c a + countOf c b.
Proof.
  unfold countOf. rewrite count_occ_app. apply Nat2Z.inj_add.
Qed.

Lemma countOf_none c l : ~ In c l -> countOf c l = 0.
Proof.
  intros H. unfold countOf.
  rewrite (proj1 (count_occ_not_In N.eq_dec l c) H). reflexivity.
Qed.

(** A sign is counted in the name and in the marks of a stat line. *)
Lemma countOf_file c name digits marks :
  isPlusMinus c = true -> forallb isDigit digits = true ->
  countOf c (rendered (FileLine name digits marks))
  = countOf c name + countOf c marks.
Proof.
  intros Hc Hds. destruct (sign_cases c Hc) as (_ & Hd & _ & Hbar & Hsp).
  assert (Hdigits : countOf c digits = 0).
  { apply countOf_none. intros Hin.
    rewrite forallb_forall in Hds. apply Hds in Hin. congruence. }
  assert (Hfix : forall d, d <> c -> countOf c [d] = 0).
  { intros d Hd'. apply countOf_none. intros [->|[]]. congruence. }
  unfold rendered. rewrite !countOf_app, Hdigits.
  change (js " | ") with ([32%N] ++ [124%N] ++ [32%N]).
  rewrite !countOf_app, !Hfix by congruence.
  destruct marks as [|m ms].
  - change (countOf c []) with 0. lia.
  - rewrite countOf_app, Hfix by congruence. lia.
Qed.

Lemma nonBlank_file name digits marks :
  wellFormed (FileLine name digits marks) ->
  nonBlank (rendered (FileLine name digits marks)) = true.
Proof.
  intros (Hne & Hpad & _).
  destruct (not_padded_ends name Hne Hpad) as (_ & c & rest & -> & Hc).
  unfold nonBlank.
  destruct (JsString.trim (rendered (FileLine (c :: rest) digits marks)))
    eqn:E; [|reflexivity].
  exfalso. revert E. apply (trim_keeps c); [|exact Hc].
  cbn. right. left. reflexivity.
Qed.

Lemma rendered_one_line e : wellFormed e -> ~ In 10%N (rendered e).
Proof.
  destruct e as [name digits marks|text]; [|intros [_ H]; exact H].
  intros (_ & _ & Hname & _ & Hds & Hms) Hin.
  rewrite forallb_forall in Hds, Hms.
  unfold rendered in Hin.
  change (js " | ") with [32; 124; 32]%N in Hin.
  repeat (apply in_app_or in Hin; destruct Hin as [Hin|Hin]).
  - destruct Hin as [Hin|[]]. discriminate Hin.
  - apply Hname in Hin as [_ Hin]. discriminate Hin.
  - cbn in Hin. repeat (destruct Hin as [Hin|Hin]; [discriminate Hin|]).
    exact Hin.
  - apply Hds in Hin. discriminate Hin.
  - destruct marks as [|m ms]; [destruct Hin|].
    destruct Hin as [Hin|Hin]; [discriminate Hin|].
    apply Hms in Hin. discriminate Hin.
Qed.

(** The loop of [getDiff] over the lines of a well-formed output. *)
Lemma diffLine_fold entries :
  Forall wellFormed entries ->
  forall fs a d,
    fold_left diffLine (filter nonBlank (map rendered entries)) (fs, a, d)
    = (fs ++ fileNames entries, a + signs 43 entries, d + signs 45 entries).
Proof.
  induction 1 as [|e entries He _ IH]; intros fs a d.
  - cbn. rewrite app_nil_r, !Z.add_0_r. reflexivity.
  - destruct e as [name digits marks|text].
    + cbn [map filter]. rewrite (nonBlank_file _ _ _ He).
      cbn [fold_left]. unfold diffLine at 2.
      rewrite (statName_file _ _ _ He).
      destruct He as (Hne & Hpad & _ & _ & Hds & _).
      rewrite (trim_fixed name Hne Hpad).
      rewrite !countOf_file by (exact Hds || reflexivity).
      rewrite IH. cbn [fileNames signs]. rewrite <- app_assoc.
      f_equal; [f_equal|]; try reflexivity; lia.
    + cbn [map filter rendered fileNames signs].
      destruct He as [Hbar _].
      destruct (nonBlank text); [|apply IH].
      cbn [fold_left]. unfold diffLine at 2.
      rewrite (statName_other text Hbar). apply IH.
Qed.

(** X28. When [git diff --stat HEAD] prints stat lines of the form
    [" name | number marks"] - the name without bar, line terminator
    or white space around it, the marks plus and minus signs or left
    out - between lines that have no bar, such as the summary line of
    git and blank lines, [getDiff] returns the names of the stat lines
    in their order.  Its additions are the plus signs and its
    deletions the minus signs of the names and the marks together: a
    hyphen in a file name counts as a deletion, and the number of the
    line counts for nothing. *)
Theorem X28_getDiff_stat_lines entries sh :
  Forall wellFormed entries ->
  execResult sh (List.length (commands sh)) (js "git diff --stat HEAD")
    = ExecReturned (JsString.join [10%N] (map rendered entries)) ->
  let result := fst (getDiff true sh) in
  files result = fileNames entries
  /\ additions result = signs 43 entries
  /\ deletions result = signs 45 entries
  /\ summary result
     = diffSummary (fileNames entries) (signs 43 entries)
         (signs 45 entries).
Proof.
  intros Hwf Hout result.
  assert (Hlines : filter nonBlank
            (splitOn 10 (JsString.join [10%N] (map rendered entries)))
          = filter nonBlank (map rendered entries)).
  { destruct entries as [|e entries]; [reflexivity|].
    cbn [map]. rewrite splitOn_join; [reflexivity|].
    intros p Hp. change (In p (map rendered (e :: entries))) in Hp.
    apply in_map_iff in Hp as (e' & <- & He').
    apply rendered_one_line. rewrite Forall_forall in Hwf.
    apply Hwf, He'. }
  subst result. unfold getDiff, sbind, sret, execSync.
  cbn [negb fst snd]. rewrite Hout, Hlines, (diffLine_fold entries Hwf).
  cbn. repeat split; reflexivity.
Qed.

End DiffExtras.

Lemma X28_getDiff_stat_lines_witness :
  Forall Git.wellFormed Git.sampleStat
  /\ Git.files (fst (Git.getDiff true (Git.diffShell
       (JsString.join [10%N] (map Git.rendered Git.sampleStat)))))
     = [js "src/my-file.ts"; js "a+b.txt"]
  /\ Git.additions (fst (Git.getDiff true (Git.diffShell
       (JsString.join [10%N] (map Git.rendered Git.sampleStat))))) = 4
  /\ Git.deletions (fst (Git.getDiff true (Git.diffShell
       (JsString.join [10%N] (map Git.rendered Git.sampleStat))))) = 3.
Proof.
  assert (Hwf : Forall Git.wellFormed Git.sampleStat).
  { unfold Git.sampleStat.
    repeat (apply Forall_cons; [|]); try apply Forall_nil.
    all: cbn [Git.wellFormed].
    - split; [discriminate|]. split.
      + intros [(c & rest & H & Hc)|(rest & c & H & Hc)].
        * injection H as <- _. discriminate Hc.
        * apply (f_equal (@rev _)) in H. rewrite rev_app_distr in H.
          vm_compute in H. injection H as <- _. discriminate Hc.
      + split; [|repeat split; (discriminate || reflexivity)].
        intros c Hc. vm_compute in Hc.
        repeat (destruct Hc as [<-|Hc];
                [split; [discriminate|reflexivity]|]).
        contradiction.
    - split; [discriminate|]. split.
      + intros [(c & rest & H & Hc)|(rest & c & H & Hc)].
        * injection H as <- _. discriminate Hc.
        * apply (f_equal (@rev _)) in H. rewrite rev_app_distr in H.
          vm_compute in H. injection H as <- _. discriminate Hc.
      + split; [|repeat split; (discriminate || reflexivity)].
        intros c Hc. vm_compute in Hc.
        repeat (destruct Hc as [<-|Hc];
                [split; [discriminate|reflexivity]|]).
        contradiction.
    - split; intros Hc; vm_compute in Hc;
        repeat (destruct Hc as [Hc|Hc]; [discriminate Hc|]); exact Hc.
    - split; intros Hc; exact Hc. }
  split; [exact Hwf|].
  destruct (X28_getDiff_stat_lines Git.sampleStat
              (Git.diffShell
                 (JsString.join [10%N] (map Git.rendered Git.sampleStat)))
              Hwf eq_refl) as (Hf & Ha & Hd & _).
  split; [exact Hf|]. split; [exact Ha|exact Hd].
Defined.
